(** * WhatsApp chat time calculator: a shallow embedding and its properties

    The development follows the script [whatsapp-chat-time] (the variant with
    daily, monthly and overall reports, and the older per-day variant where the
    two differ).  JavaScript values are modelled as follows.

    - A string is the list of its UTF-16 code units ([jsstring]); the keys of
      the aggregation maps, which are plain ASCII, are Rocq [string]s.
    - A valid [Date] is its time value: an integer number of milliseconds
      since the epoch, of absolute value at most 8.64e15.  A [Date] that the
      constructor could not clip into that range ("Invalid Date", time value
      NaN) is [None].
    - The host's local time zone is a constant offset [tz] from UTC, in
      milliseconds (ECMAScript's LocalTZA for a zone without transitions).
    - The calendar functions are those of ECMA-262 (Day, DayFromYear,
      YearFromTime, MonthFromTime, DateFromTime, MakeDay, MakeTime, MakeDate,
      TimeClip). *)

From Stdlib Require Import ZArith List Lia Bool String Ascii.
From stdpp Require Import gmap strings list fin_maps pretty.

Local Open Scope Z_scope.

(** * The embedding *)

(** ** ECMAScript dates *)

Module JSDate.

Definition msPerDay : Z := 86400000.
Definition msPerHour : Z := 3600000.
Definition msPerMinute : Z := 60000.
Definition msPerSecond : Z := 1000.

Definition Day (t : Z) : Z := t / msPerDay.
Definition TimeWithinDay (t : Z) : Z := t mod msPerDay.

Definition isLeap (y : Z) : bool :=
  (y mod 4 =? 0) && (negb (y mod 100 =? 0) || (y mod 400 =? 0)).

Definition leapDays (y : Z) : Z := if isLeap y then 1 else 0.

Definition DaysInYear (y : Z) : Z := 365 + leapDays y.

Definition DayFromYear (y : Z) : Z :=
  365 * (y - 1970) + (y - 1969) / 4 - (y - 1901) / 100 + (y - 1601) / 400.

(** The largest [y] with [DayFromYear y <= n]: an estimate from the mean
    length of a Gregorian year, corrected by at most one. *)
Definition YearFromDay (n : Z) : Z :=
  let y0 := 1970 + (n * 400) / 146097 in
  if n <? DayFromYear y0 then y0 - 1
  else if DayFromYear (y0 + 1) <=? n then y0 + 1
  else y0.

(** Number of the first day of month [mn] (0 = January) within its year;
    [l] is 1 in a leap year and 0 otherwise. *)
Definition monthStart (mn l : Z) : Z :=
  if mn <=? 0 then 0
  else if mn =? 1 then 31
  else if mn =? 2 then 59 + l
  else if mn =? 3 then 90 + l
  else if mn =? 4 then 120 + l
  else if mn =? 5 then 151 + l
  else if mn =? 6 then 181 + l
  else if mn =? 7 then 212 + l
  else if mn =? 8 then 243 + l
  else if mn =? 9 then 273 + l
  else if mn =? 10 then 304 + l
  else 334 + l.

Definition monthOfYearDay (d l : Z) : Z :=
  if d <? 31 then 0
  else if d <? 59 + l then 1
  else if d <? 90 + l then 2
  else if d <? 120 + l then 3
  else if d <? 151 + l then 4
  else if d <? 181 + l then 5
  else if d <? 212 + l then 6
  else if d <? 243 + l then 7
  else if d <? 273 + l then 8
  else if d <? 304 + l then 9
  else if d <? 334 + l then 10
  else 11.

Definition DayWithinYearD (n : Z) : Z := n - DayFromYear (YearFromDay n).
Definition MonthFromDay (n : Z) : Z :=
  monthOfYearDay (DayWithinYearD n) (leapDays (YearFromDay n)).
Definition DateFromDay (n : Z) : Z :=
  DayWithinYearD n - monthStart (MonthFromDay n) (leapDays (YearFromDay n)) + 1.

Definition YearFromTime (t : Z) : Z := YearFromDay (Day t).
Definition MonthFromTime (t : Z) : Z := MonthFromDay (Day t).
Definition DateFromTime (t : Z) : Z := DateFromDay (Day t).
Definition HourFromTime (t : Z) : Z := (t / msPerHour) mod 24.
Definition MinFromTime (t : Z) : Z := (t / msPerMinute) mod 60.

Definition MakeTime (hour min sec ms : Z) : Z :=
  hour * msPerHour + min * msPerMinute + sec * msPerSecond + ms.

Definition MakeDay (year month date : Z) : Z :=
  let ym := year + month / 12 in
  let mn := month mod 12 in
  DayFromYear ym + monthStart mn (leapDays ym) + date - 1.

Definition MakeDate (day time : Z) : Z := day * msPerDay + time.

Definition maxTime : Z := 8640000000000000.

Definition TimeClip (t : Z) : option Z :=
  if Z.abs t <=? maxTime then Some t else None.

(** Days of month [m] (1 = January) of year [y]. *)
Definition daysInMonth (y m : Z) : Z :=
  if m =? 2 then 28 + leapDays y
  else if (m =? 4) || (m =? 6) || (m =? 9) || (m =? 11) then 30
  else 31.

Section LocalZone.

  (** LocalTZA: local time minus UTC, in milliseconds. *)
Variable tz : Z.

Definition LocalTime (t : Z) : Z := t + tz.
Definition UTC (t : Z) : Z := t - tz.

  (** [new Date(y, m, d, hh, mm, ss, ms)]; a year from 0 to 99 stands for
      1900 + y. *)
Definition newDate (y m d hh mm ss ms : Z) : option Z :=
    let yr := if (0 <=? y) && (y <=? 99) then 1900 + y else y in
    TimeClip (UTC (MakeDate (MakeDay yr m d) (MakeTime hh mm ss ms))).

Definition getFullYear (t : Z) : Z := YearFromTime (LocalTime t).
Definition getMonth (t : Z) : Z := MonthFromTime (LocalTime t).
Definition getDate (t : Z) : Z := DateFromTime (LocalTime t).
Definition getHours (t : Z) : Z := HourFromTime (LocalTime t).
Definition getMinutes (t : Z) : Z := MinFromTime (LocalTime t).

End LocalZone.

End JSDate.

(** ** Messages and sessions *)

(** A JavaScript string: its UTF-16 code units. *)
Definition jsstring : Type := list N.

Record Message : Type := mkMessage {
  ts : Z;                      (* the Date, as its time value *)
  sender : option jsstring;    (* undefined when the line has no ": " *)
  text : jsstring
}.

Record Session : Type := mkSession {
  start : Z;
  end_ : Z;
  count : Z
}.

(** [{ start: m.ts, end: m.ts, count: 1 }] *)
Definition newSession (m : Message) : Session :=
  {| start := ts m; end_ := ts m; count := 1 |}.

(** The body of the [for] loop of [groupSessions]: [prev] is [msgs[i - 1]],
    the head of [rest] is [msgs[i]], [cur] the open session and [out] the
    sessions already pushed. *)
Fixpoint groupLoop (th : Z) (prev : Message) (rest : list Message)
    (cur : Session) (out : list Session) : list Session :=
  match rest with
  | [] => out ++ [cur]
  | m :: rest' =>
      if ts m - ts prev <? th then
        groupLoop th m rest'
          {| start := start cur; end_ := ts m; count := count cur + 1 |} out
      else
        groupLoop th m rest' (newSession m) (out ++ [cur])
  end.

Definition groupSessions (msgs : list Message) (gapMin : Z) : list Session :=
  match msgs with
  | [] => []
  | m0 :: rest => groupLoop (gapMin * 60 * 1000) m0 rest (newSession m0) []
  end.

(** A sequence of time values in non-decreasing order, as [parseChat] leaves
    the messages after [msgs.sort((a, b) => a.ts - b.ts)]. *)
Fixpoint chronological (l : list Z) : Prop :=
  match l with
  | a :: (b :: _) as tl => a <= b /\ chronological tl
  | _ => True
  end.

(** The instants of a list of sessions, in the order of the list. *)
Definition timeline (ss : list Session) : list Z :=
  flat_map (fun s => [start s; end_ s]) ss.

Definition totalCount (ss : list Session) : Z :=
  fold_right (fun s acc => count s + acc) 0 ss.

(** Number of indices [i >= 1] at which the loop closes a session. *)
Fixpoint breaks (th : Z) (prev : Message) (rest : list Message) : nat :=
  match rest with
  | [] => O
  | m :: rest' =>
      let b := if ts m - ts prev <? th then O else 1%nat in
      (b + breaks th m rest')%nat
  end.

(** ** Strict dates, day keys and the day splitter *)

Import JSDate.

(** A JavaScript number that is an integer, or NaN ([None]). *)
Definition number : Type := option Z.

Record DaySlice : Type := mkDaySlice {
  day : string;
  ms : number
}.

Definition pad2 (n : Z) : string :=
  if n <? 10 then "0" +:+ pretty n else pretty n.

(** The key of a day given by its number since the epoch, in local time. *)
Definition dayKeyOfDay (n : Z) : string :=
  pretty (YearFromDay n) +:+ "-" +:+ pad2 (MonthFromDay n + 1)
    +:+ "-" +:+ pad2 (DateFromDay n).

Section LocalDates.

Variable tz : Z.

Definition dayKey (d : Z) : string :=
  pretty (getFullYear tz d) +:+ "-" +:+ pad2 (getMonth tz d + 1)
    +:+ "-" +:+ pad2 (getDate tz d).

Definition monthKey (d : Z) : string :=
  pretty (getFullYear tz d) +:+ "-" +:+ pad2 (getMonth tz d + 1).

(** On an invalid date every getter returns NaN, which is [!==] to any
    argument: the result is [null]. *)
Definition makeStrictLocalDate (y m d hh mm : Z) : option Z :=
  match newDate tz y (m - 1) d hh mm 0 0 with
  | None => None
  | Some dt =>
      if negb (getFullYear tz dt =? y)
         || negb (getMonth tz dt =? m - 1)
         || negb (getDate tz dt =? d)
         || negb (getHours tz dt =? hh)
         || negb (getMinutes tz dt =? mm)
      then None
      else Some dt
  end.

(** The range checks of [parseLine] followed by the strict construction:
    the timestamp of a line whose fields are [year month day hour minute],
    or [None] where [parseLine] returns [null]. *)
Definition checkedTimestamp (year month day hour minute : Z) : option Z :=
  if (month <? 1) || (month >? 12) || (day <? 1) || (day >? 31)
     || (hour <? 0) || (hour >? 23) || (minute <? 0) || (minute >? 59)
  then None
  else makeStrictLocalDate year month day hour minute.

(** [new Date(d.getFullYear(), d.getMonth(), d.getDate() + 1).getTime()]
    for [d = new Date(t)]. *)
Definition nextMidnight (t : Z) : number :=
  newDate tz (getFullYear tz t) (getMonth tz t) (getDate tz t + 1) 0 0 0 0.

(** The [while (start < end)] loop of [splitSessionByDay]; the slices are
    listed in the order they are pushed.  [None] when [fuel] iterations did
    not end the loop.  When the next midnight is not a valid date,
    [Math.min(end, NaN)] is NaN: the slice's duration is NaN and the loop
    stops, as [NaN < end] is false. *)
Fixpoint splitLoop (fuel : nat) (start end_ : Z) : option (list DaySlice) :=
  if start <? end_ then
    match fuel with
    | O => None
    | S fuel' =>
        match nextMidnight start with
        | None => Some [ {| day := dayKey start; ms := None |} ]
        | Some midnight =>
            let sliceEnd := Z.min end_ midnight in
            parts ← splitLoop fuel' sliceEnd end_;
            Some ({| day := dayKey start; ms := Some (sliceEnd - start) |} :: parts)
        end
    end
  else Some [].

(** Iterations granted to the loop: one per day of the span and two more. *)
Definition splitFuel (s : Session) : nat :=
  S (S (Z.to_nat ((end_ s - start s) / msPerDay))).

(** [splitSessionByDay] of the reporting script. *)
Definition splitSessionByDay (s : Session) : option (list DaySlice) :=
  if start s =? end_ s then
    Some [ {| day := dayKey (start s); ms := Some 0 |} ]
  else splitLoop (splitFuel s) (start s) (end_ s).

(** [splitSessionByDay] of the older per-day script: the loop first, then a
    zero slice if it pushed nothing. *)
Definition splitSessionByDay_ts (s : Session) : option (list DaySlice) :=
  parts ← splitLoop (splitFuel s) (start s) (end_ s);
  Some (if (length parts =? 0)%nat
        then [ {| day := dayKey (start s); ms := Some 0 |} ]
        else parts).

End LocalDates.

(** Sum of the durations of a list of slices (NaN if one is NaN). *)
Definition sumMs (parts : list DaySlice) : number :=
  fold_right (fun p acc => a ← acc; v ← ms p; Some (v + a)) (Some 0) parts.

(** ** Local days *)

Section LocalDays.

Variable tz : Z.

(** The number of the local day of a time value, and the time value at which
    a local day starts. *)
Definition localDay (t : Z) : Z := Day (LocalTime tz t).
Definition dayStart (n : Z) : Z := UTC tz (n * msPerDay).

(** Iterations the loop needs from [start] to [end_]. *)
Definition splitNeed (start end_ : Z) : nat :=
  if start <? end_ then S (Z.to_nat (localDay (end_ - 1) - localDay start)) else O.

End LocalDays.

(** ** The aggregation loop *)

(** [COUNT_BY] *)
Inductive CountBy : Type := CountStart | CountPresence.

(** [s.split(sep)] for a separator of one character. *)
Fixpoint splitOn (sep : ascii) (s : string) : list string :=
  match s with
  | EmptyString => [EmptyString]
  | String c s' =>
      if Ascii.eqb c sep then EmptyString :: splitOn sep s'
      else match splitOn sep s' with
           | w :: ws => String c w :: ws
           | [] => [String c EmptyString]
           end
  end.

(** An element of a destructured array inside a template literal: a missing
    one is [undefined] and prints as such. *)
Definition templateItem (l : list string) (i : nat) : string :=
  default "undefined" (l !! i).

(** [const [y, m] = d.split("-"); const mk = `${y}-${m}`;] *)
Definition monthKeyOfDayKey (d : string) : string :=
  let fields := splitOn "-" d in
  templateItem fields 0 +:+ "-" +:+ templateItem fields 1.

(** The members of [new Set(l)], in insertion order. *)
Fixpoint distinctFrom (seen l : list string) : list string :=
  match l with
  | [] => []
  | x :: l' =>
      if bool_decide (x ∈ seen) then distinctFrom seen l'
      else x :: distinctFrom (x :: seen) l'
  end.

Definition distinct (l : list string) : list string := distinctFrom [] l.

Record Aggregates : Type := mkAggregates {
  perDayDur : gmap string number;
  perDayCount : gmap string Z;
  perMonthDur : gmap string number;
  perMonthCount : gmap string Z
}.

Definition noAggregates : Aggregates :=
  {| perDayDur := ∅; perDayCount := ∅; perMonthDur := ∅; perMonthCount := ∅ |}.

(** [m.set(k, (m.get(k) || 0) + v)] on durations: a missing, zero or NaN
    entry counts as 0, and adding NaN gives NaN. *)
Definition addDur (m : gmap string number) (k : string) (v : number)
    : gmap string number :=
  let old := match m !! k with Some (Some z) => z | _ => 0 end in
  <[k := match v with Some z => Some (old + z) | None => None end]> m.

(** [m.set(k, (m.get(k) || 0) + 1)] on counts. *)
Definition incr (m : gmap string Z) (k : string) : gmap string Z :=
  <[k := default 0 (m !! k) + 1]> m.

(** [for (const p of parts) { ... }] *)
Definition foldDurations (parts : list DaySlice) (a : Aggregates) : Aggregates :=
  fold_left
    (fun a p =>
       {| perDayDur := addDur (perDayDur a) (day p) (ms p);
          perDayCount := perDayCount a;
          perMonthDur := addDur (perMonthDur a) (monthKeyOfDayKey (day p)) (ms p);
          perMonthCount := perMonthCount a |})
    parts a.

(** [for (const d of seenDays) { ... }] *)
Definition countPresence (seenDays : list string) (a : Aggregates) : Aggregates :=
  fold_left
    (fun a d =>
       {| perDayDur := perDayDur a;
          perDayCount := incr (perDayCount a) d;
          perMonthDur := perMonthDur a;
          perMonthCount := incr (perMonthCount a) (monthKeyOfDayKey d) |})
    seenDays a.

Section Aggregation.

Variable tz : Z.
Variable COUNT_BY : CountBy.

Definition countSession (s : Session) (parts : list DaySlice) (a : Aggregates)
    : Aggregates :=
  match COUNT_BY with
  | CountPresence => countPresence (distinct (map day parts)) a
  | CountStart =>
      {| perDayDur := perDayDur a;
         perDayCount := incr (perDayCount a) (dayKey tz (start s));
         perMonthDur := perMonthDur a;
         perMonthCount := incr (perMonthCount a) (monthKey tz (start s)) |}
  end.

(** [for (const s of sessions) { ... }], from the maps [a]. *)
Fixpoint aggregateFrom (sessions : list Session) (a : Aggregates)
    : option Aggregates :=
  match sessions with
  | [] => Some a
  | s :: rest =>
      parts ← splitSessionByDay tz s;
      aggregateFrom rest (countSession s parts (foldDurations parts a))
  end.

Definition aggregate (sessions : list Session) : option Aggregates :=
  aggregateFrom sessions noAggregates.

End Aggregation.

(** [sessions.reduce((sum, s) => sum + (s.end - s.start), 0)] *)
Definition overallMs (sessions : list Session) : Z :=
  fold_left (fun sum s => sum + (end_ s - start s)) sessions 0.

(** The sum of all the counts of a map. *)
Definition sumCounts (m : gmap string Z) : Z :=
  map_fold (fun _ v acc => v + acc) 0 m.

(** ** Text normalisation *)

Local Open Scope N_scope.

(** [arabicIndicMap]: the Arabic-Indic digits, decimal and thousands
    separators, and the ASCII characters they stand for. *)
Definition arabicIndicMap : list (N * N) :=
  [ (0x660, 48); (0x661, 49); (0x662, 50); (0x663, 51); (0x664, 52);
    (0x665, 53); (0x666, 54); (0x667, 55); (0x668, 56); (0x669, 57);
    (0x66B, 46); (0x66C, 44) ].

Fixpoint mapGet (m : list (N * N)) (ch : N) : option N :=
  match m with
  | [] => None
  | (k, v) :: m' => if ch =? k then Some v else mapGet m' ch
  end.

(** The class [[\u0660-\u0669\u066B\u066C]]. *)
Definition isArabicIndic (ch : N) : bool :=
  ((0x660 <=? ch) && (ch <=? 0x669)) || (ch =? 0x66B) || (ch =? 0x66C).

(** The class [[\u200E\u200F\u202F\u00A0]]. *)
Definition isWeirdSpace (ch : N) : bool :=
  (ch =? 0x200E) || (ch =? 0x200F) || (ch =? 0x202F) || (ch =? 0xA0).

(** Every match is one code unit and so is its replacement. *)
Definition normalizeDigits (s : jsstring) : jsstring :=
  map (fun ch => if isArabicIndic ch then default ch (mapGet arabicIndicMap ch)
                 else ch) s.

Definition stripWeirdSpaces (s : jsstring) : jsstring :=
  map (fun ch => if isWeirdSpace ch then 32 else ch) s.

(** ** Regular expressions *)

(** The fragment of JavaScript's regular expressions the script uses.
    Quantifiers are greedy; [Rep p lo hi] repeats a character class from [lo]
    to [hi] times ([None]: no upper bound). *)
Inductive regex : Type :=
| Chr (p : N -> bool)
| Cat (r1 r2 : regex)
| Alt (r1 r2 : regex)
| Opt (r : regex)
| Rep (p : N -> bool) (lo : nat) (hi : option nat)
| Grp (i : nat) (r : regex)
| Eos.

(** The captures of a match, latest first; a group that took no part in the
    match has no entry (it reads as [undefined]). *)
Definition captures : Type := list (nat * jsstring).

Fixpoint capture (i : nat) (c : captures) : option jsstring :=
  match c with
  | [] => None
  | (j, s) :: c' => if Nat.eqb i j then Some s else capture i c'
  end.

Definition canTake (hi : option nat) : bool :=
  match hi with Some O => false | _ => true end.

Definition oneLess (hi : option nat) : option nat :=
  match hi with Some n => Some (Nat.pred n) | None => None end.

(** Greedy repetition of a class: the longest run first, then shorter ones,
    down to [lo] characters. *)
Fixpoint repeatClass {A : Type} (p : N -> bool) (lo : nat) (hi : option nat)
    (s : jsstring) (k : jsstring -> option A) : option A :=
  let stop := match lo with O => k s | S _ => None end in
  match s with
  | ch :: s' =>
      if p ch && canTake hi then
        match repeatClass p (Nat.pred lo) (oneLess hi) s' k with
        | Some a => Some a
        | None => stop
        end
      else stop
  | [] => stop
  end.

(** Backtracking matcher in continuation-passing style: [run r s c k] matches
    [r] at the head of [s] and hands the rest of the input and the captures
    to [k]; when [k] fails the next alternative is tried. *)
Fixpoint run {A : Type} (r : regex) (s : jsstring) (c : captures)
    (k : jsstring -> captures -> option A) : option A :=
  match r with
  | Chr p =>
      match s with
      | ch :: s' => if p ch then k s' c else None
      | [] => None
      end
  | Cat r1 r2 => run r1 s c (fun s' c' => run r2 s' c' k)
  | Alt r1 r2 =>
      match run r1 s c k with
      | Some a => Some a
      | None => run r2 s c k
      end
  | Opt r1 =>
      match run r1 s c k with
      | Some a => Some a
      | None => k s c
      end
  | Rep p lo hi => repeatClass p lo hi s (fun s' => k s' c)
  | Grp i r1 =>
      run r1 s c
        (fun s' c' => k s' ((i, take (length s - length s') s) :: c'))
  | Eos =>
      match s with
      | [] => k s c
      | _ :: _ => None
      end
  end.

(** [s.match(re)] for a pattern anchored by [^]. *)
Definition matchAtStart (r : regex) (s : jsstring) : option captures :=
  run r s [] (fun _ c => Some c).

(** [re.test(s)] for a pattern without anchor: every start index in turn. *)
Fixpoint test (r : regex) (s : jsstring) : bool :=
  match run r s [] (fun _ _ => Some tt) with
  | Some _ => true
  | None =>
      match s with
      | [] => false
      | _ :: s' => test r s'
      end
  end.

(** [\d], [\s], a line terminator (what [.] refuses), and single characters. *)
Definition isDigit (ch : N) : bool := (48 <=? ch) && (ch <=? 57).

Definition isSpace (ch : N) : bool :=
  ((9 <=? ch) && (ch <=? 13)) || (ch =? 32) || (ch =? 0xA0) || (ch =? 0x1680)
  || ((0x2000 <=? ch) && (ch <=? 0x200A)) || (ch =? 0x2028) || (ch =? 0x2029)
  || (ch =? 0x202F) || (ch =? 0x205F) || (ch =? 0x3000) || (ch =? 0xFEFF).

Definition isLineTerminator (ch : N) : bool :=
  (ch =? 10) || (ch =? 13) || (ch =? 0x2028) || (ch =? 0x2029).

Definition anyChar (ch : N) : bool := negb (isLineTerminator ch).

Definition isChar (x : N) (ch : N) : bool := ch =? x.

(** A letter under the [i] flag: itself or its other case. *)
Definition letter (upper : N) (ch : N) : bool := (ch =? upper) || (ch =? upper + 32).

(** [[\/\-]] and [[-–]] *)
Definition isDateSep (ch : N) : bool := (ch =? 47) || (ch =? 45).
Definition isDash (ch : N) : bool := (ch =? 45) || (ch =? 0x2013).

Declare Scope regex_scope.
Delimit Scope regex_scope with regex.
Infix "·" := Cat (at level 41, right associativity) : regex_scope.

(** [LINE_RE], with the [i] flag and anchored at both ends:
    [(\d{1,2})[\/\-](\d{1,2})[\/\-](\d{2,4}),?\s+(\d{1,2}):(\d{2})],
    then [(?:\s?(AM|PM))?\s*[-–]\s*], then a seventh group taking every
    character up to the end of the line. *)
Definition LINE_RE : regex :=
  (Grp 1 (Rep isDigit 1 (Some 2%nat)) · Chr isDateSep
   · Grp 2 (Rep isDigit 1 (Some 2%nat)) · Chr isDateSep
   · Grp 3 (Rep isDigit 2 (Some 4%nat)) · Opt (Chr (isChar 44))
   · Rep isSpace 1 None
   · Grp 4 (Rep isDigit 1 (Some 2%nat)) · Chr (isChar 58)
   · Grp 5 (Rep isDigit 2 (Some 2%nat))
   · Opt (Opt (Chr isSpace)
          · Grp 6 (Alt (Chr (letter 65) · Chr (letter 77))
                       (Chr (letter 80) · Chr (letter 77))))
   · Rep isSpace 0 None · Chr isDash · Rep isSpace 0 None
   · Grp 7 (Rep anyChar 0 None) · Eos)%regex.

(** [/(?:\sAM|\sPM)\s*[-–]\s/] *)
Definition AMPM_RE : regex :=
  (Alt (Chr isSpace · Chr (isChar 65) · Chr (isChar 77))
       (Chr isSpace · Chr (isChar 80) · Chr (isChar 77))
   · Rep isSpace 0 None · Chr isDash · Chr isSpace)%regex.

Local Close Scope N_scope.

(** ** The line parser and the date-order detector *)

(** The code units of an ASCII string. *)
Definition js (s : string) : jsstring :=
  map N_of_ascii (list_ascii_of_string s).

Fixpoint skipSpaces (s : jsstring) : jsstring :=
  match s with
  | ch :: s' => if isSpace ch then skipSpaces s' else s
  | [] => []
  end.

(** The value of the decimal digits at the head of [s], after [acc]. *)
Fixpoint digitsValue (acc : Z) (s : jsstring) : Z :=
  match s with
  | ch :: s' =>
      if isDigit ch then digitsValue (10 * acc + (Z.of_N ch - 48)) s' else acc
  | [] => acc
  end.

(** [parseInt(s, 10)]: leading white space, a sign, then digits; NaN when
    there is no digit. *)
Definition parseInt (s : jsstring) : number :=
  let s1 := skipSpaces s in
  let '(neg, s2) :=
    match s1 with
    | 45%N :: t => (true, t)
    | 43%N :: t => (false, t)
    | _ => (false, s1)
    end in
  match s2 with
  | ch :: _ =>
      if isDigit ch then
        Some (if neg : bool then - digitsValue 0 s2 else digitsValue 0 s2)
      else None
  | [] => None
  end.

(** [parseInt(m[i], 10)]; a group that is [undefined] gives NaN. *)
Definition parseIntGroup (m : captures) (i : nat) : number :=
  s ← capture i m; parseInt s.

(** [toUpperCase] on ASCII letters, the only letters the sixth group holds. *)
Definition toUpperCase (s : jsstring) : jsstring :=
  map (fun ch => if (97 <=? ch)%N && (ch <=? 122)%N then (ch - 32)%N else ch) s.

(** [rest.indexOf(": ")] ([None] for -1). *)
Fixpoint indexOfColonSpace (s : jsstring) : option nat :=
  match s with
  | 58%N :: ((32%N :: _) as s') => Some O
  | _ :: s' => S <$> indexOfColonSpace s'
  | [] => None
  end.

Definition trim (s : jsstring) : jsstring :=
  reverse (skipSpaces (reverse (skipSpaces s))).

Inductive DateOrder : Type := mdy | dmy.

(** The dates of a message's fields in the order [dateOrder] gives them. *)
Definition monthAndDay (dateOrder : DateOrder) (n1 n2 : Z) : Z * Z :=
  match dateOrder with
  | mdy => (n1, n2)
  | dmy => (n2, n1)
  end.

Section Parser.

Variable tz : Z.

Definition parseLine (line : jsstring) (dateOrder : DateOrder) : option Message :=
  m ← matchAtStart LINE_RE line;
  (* NaN in a field: the [Number.isFinite] checks return null *)
  n1 ← parseIntGroup m 1;
  n2 ← parseIntGroup m 2;
  year0 ← parseIntGroup m 3;
  hour0 ← parseIntGroup m 4;
  minute ← parseIntGroup m 5;
  let ampm := toUpperCase (default [] (capture 6 m)) in
  let rest := default [] (capture 7 m) in
  let year := if year0 <? 100 then year0 + 2000 else year0 in
  let hour1 :=
    if bool_decide (ampm = js "AM") && (hour0 =? 12) then 0 else hour0 in
  let hour :=
    if bool_decide (ampm = js "PM") && (hour1 <? 12) then hour1 + 12 else hour1 in
  let '(month, day) := monthAndDay dateOrder n1 n2 in
  ts ← checkedTimestamp tz year month day hour minute;
  Some
    match indexOfColonSpace rest with
    | Some idx =>
        {| ts := ts; sender := Some (trim (take idx rest));
           text := drop (idx + 2) rest |}
    | None => {| ts := ts; sender := None; text := trim rest |}
    end.

End Parser.

(** [a > 12], [a <= 12] on a number that may be NaN (then both are false). *)
Definition gt12 (a : number) : bool :=
  match a with Some z => z >? 12 | None => false end.
Definition le12 (a : number) : bool :=
  match a with Some z => z <=? 12 | None => false end.

(** One turn of the voting loop on the counters [(mdy, dmy)]. *)
Definition castVote (votes : Z * Z) (raw : jsstring) : Z * Z :=
  let line := normalizeDigits (stripWeirdSpaces raw) in
  match matchAtStart LINE_RE line with
  | None => votes
  | Some m =>
      let a := parseIntGroup m 1 in
      let b := parseIntGroup m 2 in
      if gt12 b && le12 a then (fst votes + 1, snd votes)
      else if gt12 a && le12 b then (fst votes, snd votes + 1)
      else votes
  end.

Definition hasAmPm (lines : list jsstring) : bool :=
  existsb (test AMPM_RE) lines.

Section Detector.

(** [--mdy] and [--dmy] on the command line. *)
Variable FORCE_MDY FORCE_DMY : bool.

(** [detectDateOrder] of the reporting script. *)
Definition detectDateOrder (lines : list jsstring) : DateOrder :=
  if FORCE_MDY then mdy
  else if FORCE_DMY then dmy
  else
    let '(nMdy, nDmy) := fold_left castVote lines (0, 0) in
    if nMdy >? nDmy then mdy
    else if nDmy >? nMdy then dmy
    else if hasAmPm lines then mdy else dmy.

(** [detectDateOrder] of the older script: the votes are counted before the
    flags are looked at. *)
Definition detectDateOrder_ts (lines : list jsstring) : DateOrder :=
  let '(votesMDY, votesDMY) := fold_left castVote lines (0, 0) in
  if FORCE_MDY then mdy
  else if FORCE_DMY then dmy
  else if votesMDY >? votesDMY then mdy
  else if votesDMY >? votesMDY then dmy
  else if hasAmPm lines then mdy else dmy.

End Detector.

(** ** The chat parser *)

(** [msgs.sort((a, b) => a.ts - b.ts)]: a stable sort by timestamp; each
    message is put behind those that are not later than it. *)
Fixpoint insertByTs (m : Message) (l : list Message) : list Message :=
  match l with
  | [] => [m]
  | x :: l' => if ts m <? ts x then m :: l else x :: insertByTs m l'
  end.

Definition sortByTs (l : list Message) : list Message :=
  fold_left (fun acc m => insertByTs m acc) l [].

Record ParsedChat : Type := mkParsedChat {
  msgs : list Message;
  dateOrder : DateOrder;
  rejected : list jsstring
}.

Section ChatParser.

Variable tz : Z.
Variable FORCE_MDY FORCE_DMY : bool.

(** One turn of the loop of [parseChat] on [(msgs, rejected)]. *)
Definition parseStep (order : DateOrder)
    (acc : list Message * list jsstring) (raw : jsstring)
    : list Message * list jsstring :=
  let line := normalizeDigits (stripWeirdSpaces raw) in
  match parseLine tz line order with
  | Some msg => (fst acc ++ [msg], snd acc)
  | None =>
      if bool_decide (is_Some (matchAtStart LINE_RE line))
         && (length (snd acc) <? 5)%nat
      then (fst acc, snd acc ++ [line])
      else acc
  end.

Definition parseChat (allLines : list jsstring) : ParsedChat :=
  let order := detectDateOrder FORCE_MDY FORCE_DMY allLines in
  let acc := fold_left (parseStep order) allLines ([], []) in
  {| msgs := sortByTs (fst acc); dateOrder := order; rejected := snd acc |}.

End ChatParser.

(** ** Reading the file *)

(** [raw.replace(/\r\n/g, "\n")]: every carriage return followed by a line
    feed is dropped, from left to right. *)
Fixpoint replaceCRLF (s : jsstring) : jsstring :=
  match s with
  | [] => []
  | c :: s' =>
      match s' with
      | d :: s'' =>
          if (c =? 13)%N && (d =? 10)%N then 10%N :: replaceCRLF s''
          else c :: replaceCRLF s'
      | [] => [c]
      end
  end.

(** [s.split("\n")] *)
Fixpoint splitLF (s : jsstring) : list jsstring :=
  match s with
  | [] => [[]]
  | c :: s' =>
      if (c =? 10)%N then [] :: splitLF s'
      else match splitLF s' with
           | w :: ws => (c :: w) :: ws
           | [] => [[c]]
           end
  end.

(** [raw.replace(/\r\n/g, "\n").split("\n")] *)
Definition readLines (raw : jsstring) : list jsstring := splitLF (replaceCRLF raw).

(** * The vocabulary of the properties *)

(** ** What a pattern matches *)

(** What a pattern matches: [denote r s1 rest] when [r] can consume [s1]
    with [rest] left of the input. *)
Fixpoint denote (r : regex) (s1 rest : jsstring) : Prop :=
  match r with
  | Chr p => exists ch, s1 = [ch] /\ p ch = true
  | Cat r1 r2 =>
      exists a b, s1 = a ++ b /\ denote r1 a (b ++ rest) /\ denote r2 b rest
  | Alt r1 r2 => denote r1 s1 rest \/ denote r2 s1 rest
  | Opt r1 => denote r1 s1 rest \/ s1 = []
  | Rep p lo hi =>
      forallb p s1 = true /\ (lo <= length s1)%nat /\
      match hi with Some h => (length s1 <= h)%nat | None => True end
  | Grp _ r1 => denote r1 s1 rest
  | Eos => s1 = [] /\ rest = []
  end.

(** A continuation whose success does not depend on the captures. *)
Definition captureBlind {A : Type} (k : jsstring -> captures -> option A) : Prop :=
  forall s c c', is_Some (k s c) -> is_Some (k s c').

(** ** Votes and the AM/PM marker *)

(** What the tie-break of the detector looks for, as its pattern is written
    in the code: anywhere in the raw line, a white space, [AM] or [PM] in
    capitals, any run of white space, a hyphen or an en dash, and a white
    space. *)
Definition capitalMarkerBeforeDash (l : jsstring) : Prop :=
  exists pre w x ws d w2 post,
    l = pre ++ [w; x; 77%N] ++ ws ++ [d; w2] ++ post /\
    isSpace w = true /\ (x = 65%N \/ x = 80%N) /\
    forallb isSpace ws = true /\ isDash d = true /\ isSpace w2 = true.

(** The two leading numeric fields of a raw line that matches the grammar
    once normalised. *)
Definition leadingFields (raw : jsstring) : option (number * number) :=
  m ← matchAtStart LINE_RE (normalizeDigits (stripWeirdSpaces raw));
  Some (parseIntGroup m 1, parseIntGroup m 2).

(** A line votes for MDY when its second field exceeds 12 and its first does
    not, and for DMY the other way round. *)
Definition votesMDY (raw : jsstring) : bool :=
  match leadingFields raw with
  | Some (a, b) => gt12 b && le12 a
  | None => false
  end.

Definition votesDMY (raw : jsstring) : bool :=
  match leadingFields raw with
  | Some (a, b) => gt12 a && le12 b
  | None => false
  end.

Definition countLines (p : jsstring -> bool) (lines : list jsstring) : Z :=
  Z.of_nat (length (List.filter p lines)).

(** From the words of the specification, to be compared with
    [capitalMarkerBeforeDash]: the line holds an AM/PM marker immediately
    before the separator.  The marker and the separator are those of the
    timestamp grammar: the line, once normalised, matches the grammar with
    its optional marker present (the sixth group, in either case, with or
    without a space before it). *)
Definition markerBeforeSeparator (raw : jsstring) : bool :=
  match matchAtStart LINE_RE (normalizeDigits (stripWeirdSpaces raw)) with
  | Some m => match capture 6 m with Some _ => true | None => false end
  | None => false
  end.

(** ** Parsed dates and sample data *)

(** A date the line parser can produce: [parseLine] reads a year from two to
    four digits, adds 2000 to one below 100, and keeps a date only if its
    year reads back unchanged. *)
Definition parsedDate (tz t : Z) : Prop := 100 <= getFullYear tz t <= 9999.

(** The sample zone of the examples: UTC+3, and two messages of 1 January
    2025, at 23:58, and of the next day, at 00:05, in that zone. *)
Definition sampleZone : Z := 10800000.
Definition t2358 : Z := 1735765080000.
Definition t0000 : Z := 1735765200000.
Definition t0005 : Z := 1735765500000.
Definition msgAt (t : Z) : Message := {| ts := t; sender := None; text := [] |}.

(** ** Matches with their captures *)

(** What a pattern matches and captures: as [denote], with the captures
    before ([c]) and after ([c']) the match. *)
Fixpoint denoteC (r : regex) (s1 rest : jsstring) (c c' : captures) : Prop :=
  match r with
  | Chr p => (exists ch, s1 = [ch] /\ p ch = true) /\ c' = c
  | Cat r1 r2 =>
      exists a b cm, s1 = a ++ b /\
        denoteC r1 a (b ++ rest) c cm /\ denoteC r2 b rest cm c'
  | Alt r1 r2 => denoteC r1 s1 rest c c' \/ denoteC r2 s1 rest c c'
  | Opt r1 => denoteC r1 s1 rest c c' \/ (s1 = [] /\ c' = c)
  | Rep p lo hi =>
      (forallb p s1 = true /\ (lo <= length s1)%nat /\
       match hi with Some h => (length s1 <= h)%nat | None => True end) /\
      c' = c
  | Grp i r1 => exists cm, denoteC r1 s1 rest c cm /\ c' = (i, s1) :: cm
  | Eos => s1 = [] /\ rest = [] /\ c' = c
  end.

(** ** The vocabulary of the further properties *)

(** A character the normaliser leaves alone. *)
Definition plainChar (ch : N) : bool := negb (isArabicIndic ch) && negb (isWeirdSpace ch).

(** The value of a numeral in Arabic-Indic digits. *)
Definition arabicIndicValue (s : jsstring) : Z :=
  fold_left (fun acc ch => 10 * acc + (Z.of_N ch - 1632)) s 0.

(** The string holds [": "]. *)
Definition hasColonSpace (s : jsstring) : Prop :=
  exists a b, s = a ++ 58%N :: 32%N :: b.

Definition normalizeLine (raw : jsstring) : jsstring :=
  normalizeDigits (stripWeirdSpaces raw).

(** A line the chat parser rejects: it matches the grammar and is not parsed. *)
Definition rejectedLine (tz : Z) (order : DateOrder) (line : jsstring) : bool :=
  match parseLine tz line order with
  | Some _ => false
  | None => bool_decide (is_Some (matchAtStart LINE_RE line))
  end.

(** The messages of the lines that parse, in the order of the lines. *)
Definition parsedLines (tz : Z) (order : DateOrder) (lines : list jsstring)
    : list Message :=
  omap (fun raw => parseLine tz (normalizeLine raw) order) lines.

(** The messages of a list that bear a given timestamp, in their order. *)
Definition atTime (t : Z) (l : list Message) : list Message :=
  List.filter (fun m => ts m =? t) l.

(** Consecutive sessions are at least [th] apart. *)
Fixpoint separated (th : Z) (ss : list Session) : Prop :=
  match ss with
  | s1 :: ((s2 :: _) as tl) => th <= start s2 - end_ s1 /\ separated th tl
  | _ => True
  end.

(** All the gaps between neighbours of a list of time values are below [th]. *)
Fixpoint gapsBelow (th : Z) (l : list Z) : Prop :=
  match l with
  | a :: ((b :: _) as tl) => b - a < th /\ gapsBelow th tl
  | _ => True
  end.

(** A key without a hyphen. *)
Fixpoint noDash (s : string) : bool :=
  match s with
  | EmptyString => true
  | String c s' => negb (Ascii.eqb c "-") && noDash s'
  end.

(** The value of a string of decimal digits. *)
Fixpoint decimalValue (acc : Z) (s : string) : Z :=
  match s with
  | EmptyString => acc
  | String c s' => decimalValue (10 * acc + (Z.of_nat (nat_of_ascii c) - 48)) s'
  end.

(** The part of the span from [s] to [e] that lies in the local day [n], as a
    slice. *)
Definition daySlice (tz s e n : Z) : DaySlice :=
  {| day := dayKeyOfDay n;
     ms := Some (Z.min e (dayStart tz (n + 1)) - Z.max s (dayStart tz n)) |}.

(** A session the segmenter returns on a parsed chat. *)
Definition validSession (tz : Z) (s : Session) : Prop :=
  start s <= end_ s /\ parsedDate tz (start s) /\ parsedDate tz (end_ s).

(** [x + y] on numbers. *)
Definition addNumber (x y : number) : number := a ← x; b ← y; Some (a + b).

(** The sum of all the durations of a map (NaN if one is NaN). *)
Definition durTotal (m : gmap string number) : number :=
  map_fold (fun _ v acc => addNumber v acc) (Some 0) m.

(** A session touches the local day [n]: the day of its only instant, or a
    day from that of its start to that of the last millisecond before its
    end. *)
Definition touches (tz n : Z) (s : Session) : bool :=
  if start s =? end_ s then localDay tz (start s) =? n
  else (localDay tz (start s) <=? n) && (n <=? localDay tz (end_ s - 1)).

(** The time of a session that lies in the local day [n]. *)
Definition overlap (tz n : Z) (s : Session) : Z :=
  Z.max 0 (Z.min (end_ s) (dayStart tz (n + 1)) - Z.max (start s) (dayStart tz n)).

Definition sumOver (f : Session -> Z) (l : list Session) : Z :=
  fold_right (fun s acc => f s + acc) 0 l.

Definition countSessions (f : Session -> bool) (l : list Session) : Z :=
  Z.of_nat (length (List.filter f l)).

(** An entry of a map of durations: absent until a slice is added. *)
Definition durEntry (hit : bool) (d : Z) : option number :=
  if hit then Some (Some d) else None.

(** An entry of a map of counts: absent until it is incremented. *)
Definition countEntry (c : Z) : option Z := if c =? 0 then None else Some c.

(** The slices of a day among [parts], and the sum of their durations. *)
Definition onDay (k : string) (p : DaySlice) : bool := bool_decide (day p = k).

Definition dayMs (k : string) (parts : list DaySlice) : Z :=
  fold_right (fun p acc => (if onDay k p then default 0 (ms p) else 0) + acc) 0 parts.

(** [lines.join("\n")] *)
Fixpoint joinLF (lines : list jsstring) : jsstring :=
  match lines with
  | [] => []
  | [l] => l
  | l :: ls => l ++ 10%N :: joinLF ls
  end.

Definition countLF (s : jsstring) : nat :=
  length (List.filter (fun c => (c =? 10)%N) s).

(** A line without a line feed. *)
Definition noLF (l : jsstring) : bool := forallb (fun c => negb (c =? 10)%N) l.

(** The last character of the line is a carriage return. *)
Fixpoint endsWithCR (l : jsstring) : bool :=
  match l with
  | [] => false
  | c :: l' => match l' with [] => (c =? 13)%N | _ :: _ => endsWithCR l' end
  end.

(** A line of a text file with the end it is written with: CR LF ([true])
    or a bare LF ([false]).  The line holds no line feed, and a line
    written with a bare LF does not end in a carriage return (it would be a
    line written with CR LF). *)
Definition wellEnded (p : jsstring * bool) : bool :=
  noLF (fst p) && (snd p || negb (endsWithCR (fst p))).

Definition lineEnd (crlf : bool) : jsstring :=
  if crlf then [13%N; 10%N] else [10%N].

(** The text of a file from its lines, each but the last followed by its
    line end. *)
Fixpoint joinEnds (ls : list (jsstring * bool)) : jsstring :=
  match ls with
  | [] => []
  | p :: rest =>
      match rest with
      | [] => fst p
      | _ :: _ => fst p ++ lineEnd (snd p) ++ joinEnds rest
      end
  end.

(** * Facts about the embedding *)

(** ** The calendar arithmetic *)

Lemma DayFromYear_succ y : DayFromYear (y + 1) = DayFromYear y + DaysInYear y.
Proof.
  unfold DayFromYear, DaysInYear, leapDays, isLeap.
  destruct (y mod 4 =? 0) eqn:E4; destruct (y mod 100 =? 0) eqn:E100;
    destruct (y mod 400 =? 0) eqn:E400; simpl;
    rewrite ?Z.eqb_eq, ?Z.eqb_neq in *;
    Z.to_euclidean_division_equations; lia.
Qed.

Lemma DaysInYear_range y : 365 <= DaysInYear y <= 366.
Proof. unfold DaysInYear, leapDays. destruct (isLeap y); lia. Qed.

Lemma leapDays_range y : 0 <= leapDays y <= 1.
Proof. unfold leapDays. destruct (isLeap y); lia. Qed.

Lemma DayFromYear_lt y y' : y < y' -> DayFromYear (y + 1) <= DayFromYear y'.
Proof.
  intros H. unfold DayFromYear. Z.to_euclidean_division_equations. lia.
Qed.

Lemma YearFromDay_spec n :
  DayFromYear (YearFromDay n) <= n < DayFromYear (YearFromDay n + 1).
Proof.
  unfold YearFromDay. cbv zeta.
  assert (Hlo : DayFromYear (1970 + n * 400 / 146097 - 1) <= n)
    by (unfold DayFromYear; Z.to_euclidean_division_equations; lia).
  assert (Hhi : n < DayFromYear (1970 + n * 400 / 146097 + 1 + 1))
    by (unfold DayFromYear; Z.to_euclidean_division_equations; lia).
  set (y0 := 1970 + n * 400 / 146097) in *.
  destruct (n <? DayFromYear y0) eqn:E1.
  - apply Z.ltb_lt in E1. replace (y0 - 1 + 1) with y0 by lia. lia.
  - apply Z.ltb_ge in E1.
    destruct (DayFromYear (y0 + 1) <=? n) eqn:E2.
    + apply Z.leb_le in E2. lia.
    + apply Z.leb_gt in E2. lia.
Qed.

Lemma YearFromDay_unique y n :
  DayFromYear y <= n < DayFromYear (y + 1) -> YearFromDay n = y.
Proof.
  intros H. pose proof (YearFromDay_spec n) as S.
  destruct (Z.lt_trichotomy (YearFromDay n) y) as [L | [E | G]]; [| exact E |].
  - pose proof (DayFromYear_lt _ _ L). lia.
  - pose proof (DayFromYear_lt _ _ G). lia.
Qed.

Lemma DayWithinYearD_range n :
  0 <= DayWithinYearD n < DaysInYear (YearFromDay n).
Proof.
  unfold DayWithinYearD. pose proof (YearFromDay_spec n).
  rewrite DayFromYear_succ in H. lia.
Qed.

Ltac split_ifs :=
  repeat match goal with
  | |- context [if ?b then _ else _] =>
      let E := fresh "E" in
      destruct b eqn:E;
      rewrite ?Z.ltb_lt, ?Z.ltb_ge, ?Z.leb_le, ?Z.leb_gt, ?Z.eqb_eq, ?Z.eqb_neq,
        ?orb_true_iff, ?orb_false_iff, ?andb_true_iff, ?andb_false_iff in E
  end.

(** Within a year, the month table and its inverse agree. *)
Lemma monthOfYearDay_spec d l :
  0 <= l <= 1 -> 0 <= d < 365 + l ->
  let m := monthOfYearDay d l in
  0 <= m <= 11 /\ monthStart m l <= d < monthStart (m + 1) l + (if m =? 11 then 31 else 0).
Proof.
  intros Hl Hd. cbv zeta. unfold monthOfYearDay.
  split_ifs; unfold monthStart; simpl; lia.
Qed.

Lemma monthOfYearDay_start m l d :
  0 <= l <= 1 -> 0 <= m <= 11 ->
  monthStart m l <= d -> d < monthStart (m + 1) l + (if m =? 11 then 31 else 0) ->
  monthOfYearDay d l = m.
Proof.
  intros Hl Hm.
  assert (Hc : m = 0 \/ m = 1 \/ m = 2 \/ m = 3 \/ m = 4 \/ m = 5 \/ m = 6 \/
               m = 7 \/ m = 8 \/ m = 9 \/ m = 10 \/ m = 11) by lia.
  unfold monthOfYearDay.
  repeat (destruct Hc as [-> | Hc]); try subst m; unfold monthStart; simpl;
    intros; split_ifs; lia.
Qed.

Lemma monthStart_next y m :
  0 <= m <= 11 ->
  monthStart (m + 1) (leapDays y) + (if m =? 11 then 31 else 0)
  = monthStart m (leapDays y) + daysInMonth y (m + 1).
Proof.
  intros Hm.
  assert (Hc : m = 0 \/ m = 1 \/ m = 2 \/ m = 3 \/ m = 4 \/ m = 5 \/ m = 6 \/
               m = 7 \/ m = 8 \/ m = 9 \/ m = 10 \/ m = 11) by lia.
  repeat (destruct Hc as [-> | Hc]); try subst m;
    unfold monthStart, daysInMonth; simpl; lia.
Qed.

Lemma monthStart_year y : monthStart 11 (leapDays y) + 31 = DaysInYear y.
Proof. unfold monthStart, DaysInYear. simpl. lia. Qed.

Lemma MonthFromDay_range n : 0 <= MonthFromDay n <= 11.
Proof.
  unfold MonthFromDay.
  pose proof (DayWithinYearD_range n) as R. unfold DaysInYear in R.
  apply (monthOfYearDay_spec _ _ (leapDays_range _) R).
Qed.

Lemma DateFromDay_range n :
  1 <= DateFromDay n <= daysInMonth (YearFromDay n) (MonthFromDay n + 1).
Proof.
  unfold DateFromDay.
  pose proof (DayWithinYearD_range n) as R. unfold DaysInYear in R.
  pose proof (monthOfYearDay_spec _ _ (leapDays_range _) R) as [Hm Hd].
  fold (MonthFromDay n) in Hm, Hd.
  rewrite monthStart_next in Hd by exact Hm. lia.
Qed.

(** Reading the fields of a day number and building the day back. *)
Lemma MakeDay_fields n k :
  MakeDay (YearFromDay n) (MonthFromDay n) (DateFromDay n + k) = n + k.
Proof.
  pose proof (MonthFromDay_range n) as Hm.
  unfold MakeDay. cbv zeta.
  rewrite (Z.div_small (MonthFromDay n) 12) by lia.
  rewrite (Z.mod_small (MonthFromDay n) 12) by lia.
  rewrite Z.add_0_r. unfold DateFromDay, DayWithinYearD. lia.
Qed.

(** Building a day from fields of a real calendar date and reading them back. *)
Lemma fields_MakeDay y m d :
  0 <= m <= 11 -> 1 <= d <= daysInMonth y (m + 1) ->
  YearFromDay (MakeDay y m d) = y /\
  MonthFromDay (MakeDay y m d) = m /\
  DateFromDay (MakeDay y m d) = d.
Proof.
  intros Hm Hd.
  assert (HM : MakeDay y m d = DayFromYear y + monthStart m (leapDays y) + d - 1).
  { unfold MakeDay. cbv zeta.
    rewrite (Z.div_small m 12), (Z.mod_small m 12) by lia.
    rewrite Z.add_0_r. reflexivity. }
  pose proof (monthStart_next y m Hm) as Hn.
  assert (Hs : 0 <= monthStart m (leapDays y) /\
               monthStart m (leapDays y) + daysInMonth y (m + 1) <= DaysInYear y).
  { pose proof (leapDays_range y).
    assert (Hc : m = 0 \/ m = 1 \/ m = 2 \/ m = 3 \/ m = 4 \/ m = 5 \/ m = 6 \/
                 m = 7 \/ m = 8 \/ m = 9 \/ m = 10 \/ m = 11) by lia.
    repeat (destruct Hc as [-> | Hc]); try subst m;
      unfold monthStart, daysInMonth, DaysInYear; simpl; lia. }
  assert (HY : YearFromDay (MakeDay y m d) = y).
  { apply YearFromDay_unique. rewrite DayFromYear_succ, HM. lia. }
  assert (HMo : MonthFromDay (MakeDay y m d) = m).
  { unfold MonthFromDay, DayWithinYearD. rewrite HY.
    apply monthOfYearDay_start; [apply leapDays_range | exact Hm | rewrite HM; lia |].
    rewrite Hn, HM. lia. }
  repeat split; [exact HY | exact HMo |].
  unfold DateFromDay, DayWithinYearD. rewrite HMo, HY, HM. lia.
Qed.

(** ** Facts about the segmenter *)

Section Segmenter.

Lemma groupLoop_out th prev rest cur out :
    groupLoop th prev rest cur out = out ++ groupLoop th prev rest cur [].
  Proof.
    revert prev cur out. induction rest as [| m rest IH]; intros prev cur out.
    - reflexivity.
    - simpl. destruct (ts m - ts prev <? th).
      + apply IH.
      + rewrite IH. rewrite (IH m (newSession m) [cur]).
        rewrite <- app_assoc. reflexivity.
  Qed.

Lemma groupLoop_length th prev rest cur out :
    length (groupLoop th prev rest cur out)
    = (length out + 1 + breaks th prev rest)%nat.
  Proof.
    revert prev cur out. induction rest as [| m rest IH]; intros prev cur out.
    - simpl. rewrite length_app. simpl. lia.
    - simpl. destruct (ts m - ts prev <? th).
      + rewrite IH. lia.
      + rewrite IH, length_app. simpl. lia.
  Qed.

Lemma breaks_antitone th1 th2 prev rest :
    th1 <= th2 -> (breaks th2 prev rest <= breaks th1 prev rest)%nat.
  Proof.
    intros Hth. revert prev. induction rest as [| m rest IH]; intros prev.
    - simpl. lia.
    - simpl. specialize (IH m).
      destruct (ts m - ts prev <? th1) eqn:E1;
        destruct (ts m - ts prev <? th2) eqn:E2;
        rewrite ?Z.ltb_lt, ?Z.ltb_ge in *; lia.
  Qed.

Lemma chronological_tail a l : chronological (a :: l) -> chronological l.
  Proof. destruct l; simpl; tauto. Qed.

Lemma chronological_cons a b l :
    chronological (a :: b :: l) <-> a <= b /\ chronological (b :: l).
  Proof. reflexivity. Qed.

  (** What the loop returns from a state whose open session ends at the
      previous message. *)
Lemma groupLoop_invariant th prev rest cur :
    chronological (ts prev :: map ts rest) ->
    start cur <= end_ cur -> end_ cur = ts prev -> 1 <= count cur ->
    let ss := groupLoop th prev rest cur [] in
    totalCount ss = count cur + Z.of_nat (length rest) /\
    Forall (fun s => 1 <= count s) ss /\
    Forall (fun s => start s = start cur \/ In (start s) (map ts rest)) ss /\
    (exists s0 tl, ss = s0 :: tl /\ start s0 = start cur) /\
    chronological (timeline ss).
  Proof.
    revert prev cur.
    induction rest as [| m rest IH]; intros prev cur Hch Hse Hend Hc.
    - simpl. repeat split; try lia; eauto.
    - cbv zeta. simpl groupLoop.
      rewrite map_cons in Hch. apply chronological_cons in Hch.
      destruct Hch as [Hpm Hch].
      destruct (ts m - ts prev <? th) eqn:E.
      + set (cur' := {| start := start cur; end_ := ts m; count := count cur + 1 |}).
        destruct (IH m cur' Hch) as (Ht & Hcs & Hst & Hhd & Hord);
          [simpl; lia | reflexivity | simpl; lia |].
        simpl in Ht, Hhd. split; [| split; [| split; [| split]]].
        * rewrite Ht. simpl length. lia.
        * exact Hcs.
        * eapply Forall_impl; [exact Hst |]. simpl.
          intros s [Hs | Hin]; auto.
        * exact Hhd.
        * exact Hord.
      + rewrite groupLoop_out.
        destruct (IH m (newSession m) Hch) as (Ht & Hcs & Hst & Hhd & Hord);
          [simpl; lia | reflexivity | simpl; lia |].
        destruct Hhd as (s0 & tl & Hss & Hs0). simpl in Hs0.
        split; [| split; [| split; [| split]]].
        * simpl app. simpl totalCount. fold (totalCount (groupLoop th m rest (newSession m) [])).
          rewrite Ht. simpl. lia.
        * constructor; [exact Hc | exact Hcs].
        * constructor; [auto |].
          eapply Forall_impl; [exact Hst |]. simpl.
          intros s [Hs | Hin]; auto.
        * exists cur, (groupLoop th m rest (newSession m) []). split; reflexivity.
        * simpl app. rewrite Hss in *. unfold timeline in *.
          cbn [flat_map app] in *.
          apply chronological_cons. split; [exact Hse |].
          apply chronological_cons. split; [lia | exact Hord].
  Qed.

End Segmenter.

(** ** Facts about local dates and the day splitter *)

Section LocalDateFacts.

Variable tz : Z.

Lemma LocalTime_UTC x : LocalTime tz (UTC tz x) = x.
Proof. unfold LocalTime, UTC. lia. Qed.

Lemma Day_MakeDate n hh mm :
  0 <= hh <= 23 -> 0 <= mm <= 59 ->
  Day (MakeDate n (MakeTime hh mm 0 0)) = n.
Proof.
  intros Hh Hm. unfold Day, MakeDate, MakeTime, msPerDay, msPerHour,
    msPerMinute, msPerSecond.
  Z.to_euclidean_division_equations. lia.
Qed.

Lemma Hour_MakeDate n hh mm :
  0 <= hh <= 23 -> 0 <= mm <= 59 ->
  HourFromTime (MakeDate n (MakeTime hh mm 0 0)) = hh.
Proof.
  intros Hh Hm. unfold HourFromTime, MakeDate, MakeTime, msPerDay, msPerHour,
    msPerMinute, msPerSecond.
  Z.to_euclidean_division_equations. lia.
Qed.

Lemma Min_MakeDate n hh mm :
  0 <= hh <= 23 -> 0 <= mm <= 59 ->
  MinFromTime (MakeDate n (MakeTime hh mm 0 0)) = mm.
Proof.
  intros Hh Hm. unfold MinFromTime, MakeDate, MakeTime, msPerDay, msPerHour,
    msPerMinute, msPerSecond.
  Z.to_euclidean_division_equations. lia.
Qed.

Lemma TimeClip_Some t dt : TimeClip t = Some dt -> dt = t.
Proof. unfold TimeClip. destruct (Z.abs t <=? maxTime); congruence. Qed.

Lemma TimeClip_in_range t : Z.abs t <= maxTime -> TimeClip t = Some t.
Proof.
  intros H. unfold TimeClip. apply Z.leb_le in H. rewrite H. reflexivity.
Qed.

(** [makeStrictLocalDate] returns the constructed date exactly when all five
    fields read back as given. *)
Lemma makeStrictLocalDate_Some y m d hh mm dt :
  makeStrictLocalDate tz y m d hh mm = Some dt <->
  newDate tz y (m - 1) d hh mm 0 0 = Some dt /\
  getFullYear tz dt = y /\ getMonth tz dt = m - 1 /\ getDate tz dt = d /\
  getHours tz dt = hh /\ getMinutes tz dt = mm.
Proof.
  unfold makeStrictLocalDate.
  destruct (newDate tz y (m - 1) d hh mm 0 0) as [dt' |];
    [| split; [discriminate | intros [? _]; discriminate]].
  match goal with |- (if ?c then _ else _) = _ <-> _ => destruct c eqn:E end.
  - split; [discriminate |].
    intros (H & H1 & H2 & H3 & H4 & H5). inversion H; subst dt'.
    apply Z.eqb_eq in H1, H2, H3, H4, H5.
    rewrite H1, H2, H3, H4, H5 in E. discriminate.
  - rewrite !orb_false_iff, !negb_false_iff, !Z.eqb_eq in E.
    destruct E as ((((E1 & E2) & E3) & E4) & E5).
    split.
    + intros H; inversion H; subst. auto 10.
    + intros [H _]. exact H.
Qed.

(** A day beyond the end of its month is never accepted. *)
Lemma makeStrictLocalDate_rollover y m d hh mm :
  0 <= hh <= 23 -> 0 <= mm <= 59 ->
  daysInMonth y m < d ->
  makeStrictLocalDate tz y m d hh mm = None.
Proof.
  intros Hh Hm Hd.
  destruct (makeStrictLocalDate tz y m d hh mm) as [dt |] eqn:E; [| reflexivity].
  exfalso. apply makeStrictLocalDate_Some in E.
  destruct E as (Hnew & HY & HM & HD & _).
  unfold newDate in Hnew. cbv zeta in Hnew. apply TimeClip_Some in Hnew.
  unfold getFullYear, getMonth, getDate, YearFromTime, MonthFromTime,
    DateFromTime in *.
  rewrite Hnew, LocalTime_UTC, Day_MakeDate in * by assumption.
  set (n := MakeDay _ (m - 1) d) in *.
  pose proof (DateFromDay_range n) as R.
  rewrite HY, HM, HD in R. replace (m - 1 + 1) with m in R by lia. lia.
Qed.

Lemma DayFromYear_le y y' : y <= y' -> DayFromYear y <= DayFromYear y'.
Proof.
  intros H. unfold DayFromYear. Z.to_euclidean_division_equations. lia.
Qed.

Lemma YearFromDay_ge y n : y <= YearFromDay n <-> DayFromYear y <= n.
Proof.
  pose proof (YearFromDay_spec n) as S. split; intros H.
  - pose proof (DayFromYear_le _ _ H). lia.
  - destruct (Z_le_gt_dec y (YearFromDay n)) as [L | G]; [exact L |].
    assert (G' : YearFromDay n < y) by lia.
    pose proof (DayFromYear_lt _ _ G'). lia.
Qed.

Lemma YearFromDay_lt y n : YearFromDay n < y <-> n < DayFromYear y.
Proof. pose proof (YearFromDay_ge y n). lia. Qed.

(** A real calendar date of the years 100 to 9999 is accepted. *)
Lemma makeStrictLocalDate_valid y m d hh mm :
  Z.abs tz <= msPerDay ->
  100 <= y <= 9999 -> 1 <= m <= 12 -> 1 <= d <= daysInMonth y m ->
  0 <= hh <= 23 -> 0 <= mm <= 59 ->
  makeStrictLocalDate tz y m d hh mm
  = Some (UTC tz (MakeDate (MakeDay y (m - 1) d) (MakeTime hh mm 0 0))).
Proof.
  intros Htz Hy Hmo Hd Hh Hm.
  set (dt := UTC tz (MakeDate (MakeDay y (m - 1) d) (MakeTime hh mm 0 0))).
  destruct (fields_MakeDay y (m - 1) d) as (FY & FM & FD);
    [lia | replace (m - 1 + 1) with m by lia; exact Hd |].
  apply makeStrictLocalDate_Some.
  unfold getFullYear, getMonth, getDate, getHours, getMinutes,
    YearFromTime, MonthFromTime, DateFromTime.
  subst dt. rewrite LocalTime_UTC, Day_MakeDate, Hour_MakeDate, Min_MakeDate
    by assumption.
  split; [| auto].
  unfold newDate. cbv zeta.
  replace ((0 <=? y) && (y <=? 99)) with false
    by (symmetry; apply andb_false_iff; right; apply Z.leb_gt; lia).
  apply TimeClip_in_range.
  assert (Hlo : DayFromYear 100 <= MakeDay y (m - 1) d)
    by (apply YearFromDay_ge; lia).
  assert (Hhi : MakeDay y (m - 1) d < DayFromYear 10000)
    by (apply YearFromDay_lt; lia).
  change (DayFromYear 100) with (-683003) in Hlo.
  change (DayFromYear 10000) with 2932897 in Hhi.
  unfold UTC, MakeDate, MakeTime, maxTime, msPerDay, msPerHour, msPerMinute,
    msPerSecond in *. lia.
Qed.

Lemma dayKey_localDay t : dayKey tz t = dayKeyOfDay (localDay tz t).
Proof. reflexivity. Qed.

Lemma localDay_bounds t : dayStart tz (localDay tz t) <= t < dayStart tz (localDay tz t + 1).
Proof.
  unfold dayStart, localDay, UTC, LocalTime, Day, msPerDay.
  Z.to_euclidean_division_equations. lia.
Qed.

Lemma localDay_unique n t : dayStart tz n <= t < dayStart tz (n + 1) -> localDay tz t = n.
Proof.
  unfold dayStart, localDay, UTC, LocalTime, Day, msPerDay.
  Z.to_euclidean_division_equations. nia.
Qed.

Lemma localDay_mono t t' : t <= t' -> localDay tz t <= localDay tz t'.
Proof.
  intros H. unfold localDay, LocalTime, Day, msPerDay.
  apply Z.div_le_mono; lia.
Qed.

Lemma dayStart_succ n : dayStart tz (n + 1) = dayStart tz n + msPerDay.
Proof. unfold dayStart, UTC. lia. Qed.

Lemma monthStart_leap_le m l l' :
  0 <= l <= 1 -> 0 <= l' <= 1 -> monthStart m l <= monthStart m l' + 1.
Proof. intros Hl Hl'. unfold monthStart. split_ifs; lia. Qed.

(** The midnight computed by the splitter is never before the start of the
    next local day. *)
Lemma nextMidnight_lower t m :
  nextMidnight tz t = Some m -> dayStart tz (localDay tz t + 1) <= m.
Proof.
  unfold nextMidnight, newDate. cbv zeta. intros H. apply TimeClip_Some in H.
  subst m. unfold getFullYear, getMonth, getDate, YearFromTime, MonthFromTime,
    DateFromTime. fold (localDay tz t). set (n := localDay tz t).
  pose proof (MakeDay_fields n 1) as F.
  destruct ((0 <=? YearFromDay n) && (YearFromDay n <=? 99)) eqn:E.
  - apply andb_true_iff in E. destruct E as [E1 E2].
    apply Z.leb_le in E1, E2.
    assert (G : MakeDay (YearFromDay n) (MonthFromDay n) (DateFromDay n + 1)
                <= MakeDay (1900 + YearFromDay n) (MonthFromDay n) (DateFromDay n + 1)).
    { pose proof (MonthFromDay_range n) as Hm. unfold MakeDay. cbv zeta.
      rewrite (Z.div_small (MonthFromDay n) 12), (Z.mod_small (MonthFromDay n) 12) by lia.
      rewrite !Z.add_0_r.
      pose proof (monthStart_leap_le (MonthFromDay n) _ _
                    (leapDays_range (YearFromDay n))
                    (leapDays_range (1900 + YearFromDay n))).
      assert (DayFromYear (YearFromDay n + 1) <= DayFromYear (1900 + YearFromDay n))
        by (apply DayFromYear_lt; lia).
      rewrite DayFromYear_succ in *.
      pose proof (DaysInYear_range (YearFromDay n)). lia. }
    unfold dayStart, UTC, MakeDate, MakeTime, msPerDay in *. lia.
  - rewrite F. unfold dayStart, UTC, MakeDate, MakeTime, msPerDay. lia.
Qed.

(** For a date of the years 100 to 9999 it is exactly that start. *)
Lemma nextMidnight_exact t :
  Z.abs tz <= msPerDay ->
  DayFromYear 100 <= localDay tz t < DayFromYear 10000 ->
  nextMidnight tz t = Some (dayStart tz (localDay tz t + 1)).
Proof.
  intros Htz [Hlo Hhi].
  unfold nextMidnight, newDate. cbv zeta.
  unfold getFullYear, getMonth, getDate, YearFromTime, MonthFromTime,
    DateFromTime. fold (localDay tz t). set (n := localDay tz t) in *.
  assert (Hy : 100 <= YearFromDay n) by (apply YearFromDay_ge; exact Hlo).
  replace ((0 <=? YearFromDay n) && (YearFromDay n <=? 99)) with false
    by (symmetry; apply andb_false_iff; right; apply Z.leb_gt; lia).
  rewrite (MakeDay_fields n 1).
  change (DayFromYear 100) with (-683003) in Hlo.
  change (DayFromYear 10000) with 2932897 in Hhi.
  replace (UTC tz (MakeDate (n + 1) (MakeTime 0 0 0 0))) with (dayStart tz (n + 1))
    by (unfold dayStart, UTC, MakeDate, MakeTime; lia).
  apply TimeClip_in_range.
  unfold dayStart, UTC, maxTime, msPerDay in *. lia.
Qed.

(** With that many iterations the loop ends, on every input. *)
Lemma splitLoop_total fuel start end_ :
  (splitNeed tz start end_ <= fuel)%nat -> is_Some (splitLoop tz fuel start end_).
Proof.
  revert start. induction fuel as [| f IH]; intros start Hn.
  - unfold splitNeed in Hn. simpl.
    destruct (start <? end_); [lia | eauto].
  - simpl. unfold splitNeed in Hn.
    destruct (start <? end_) eqn:E; [| eauto]. apply Z.ltb_lt in E.
    destruct (nextMidnight tz start) as [mid |] eqn:M; [| eauto].
    apply nextMidnight_lower in M. cbv zeta.
    destruct (IH (Z.min end_ mid)) as [parts Hp]; [| rewrite Hp; simpl; eauto].
    unfold splitNeed.
    destruct (Z.min end_ mid <? end_) eqn:E2; [| lia]. apply Z.ltb_lt in E2.
    assert (Hm : Z.min end_ mid = mid) by lia. rewrite Hm.
    assert (localDay tz start + 1 <= localDay tz mid).
    { pose proof (localDay_mono _ _ M) as L.
      rewrite (localDay_unique (localDay tz start + 1)) in L; [exact L |].
      rewrite (dayStart_succ (localDay tz start + 1)). unfold msPerDay. lia. }
    assert (localDay tz mid <= localDay tz (end_ - 1)) by (apply localDay_mono; lia).
    lia.
Qed.

Lemma splitFuel_enough s : (splitNeed tz (start s) (end_ s) <= splitFuel s)%nat.
Proof.
  unfold splitNeed, splitFuel.
  destruct (start s <? end_ s) eqn:E; [| lia]. apply Z.ltb_lt in E.
  apply le_n_S.
  assert (localDay tz (end_ s - 1) - localDay tz (start s)
          <= (end_ s - start s) / msPerDay + 1); [| lia].
  unfold localDay, LocalTime, Day, msPerDay.
  Z.to_euclidean_division_equations. lia.
Qed.

Lemma seqZ_succ m n : 0 <= n -> seqZ m (n + 1) = m :: seqZ (m + 1) n.
Proof.
  intros Hn. rewrite seqZ_cons by lia.
  replace (Z.succ m) with (m + 1) by lia.
  replace (Z.pred (n + 1)) with n by lia. reflexivity.
Qed.

(** What the loop returns between two dates of the years 100 to 9999: one
    slice for each local day from that of [start] to that of the last
    millisecond before [end_], the durations adding up to the span. *)
Lemma splitLoop_valid fuel start end_ :
  Z.abs tz <= msPerDay ->
  DayFromYear 100 <= localDay tz start -> localDay tz end_ < DayFromYear 10000 ->
  start < end_ ->
  (splitNeed tz start end_ <= fuel)%nat ->
  exists parts,
    splitLoop tz fuel start end_ = Some parts /\
    sumMs parts = Some (end_ - start) /\
    map day parts
    = map dayKeyOfDay
        (seqZ (localDay tz start) (localDay tz (end_ - 1) - localDay tz start + 1)).
Proof.
  intros Htz. revert start.
  induction fuel as [| f IH]; intros start Hlo Hhi Hlt Hn;
    unfold splitNeed in Hn; pose proof Hlt as Hb; apply Z.ltb_lt in Hb;
    rewrite Hb in Hn; [lia |].
  simpl. rewrite Hb.
  assert (Hend : localDay tz (end_ - 1) <= localDay tz end_) by (apply localDay_mono; lia).
  assert (Hse : localDay tz start <= localDay tz (end_ - 1)) by (apply localDay_mono; lia).
  rewrite nextMidnight_exact by (auto; lia). cbv zeta.
  set (mid := dayStart tz (localDay tz start + 1)).
  pose proof (localDay_bounds start) as Bs. fold mid in Bs.
  destruct (Z_lt_le_dec mid end_) as [Hm | Hm].
  - rewrite Z.min_r by lia.
    assert (Lm : localDay tz mid = localDay tz start + 1).
    { apply localDay_unique. fold mid. rewrite dayStart_succ. fold mid.
      unfold msPerDay. lia. }
    assert (Hme : localDay tz mid <= localDay tz (end_ - 1)) by (apply localDay_mono; lia).
    destruct (IH mid) as (parts & Hp & Hs & Hd); [lia | exact Hhi | exact Hm | |].
    { unfold splitNeed. apply Z.ltb_lt in Hm. rewrite Hm. lia. }
    rewrite Hp. simpl. eexists. split; [reflexivity |]. split.
    + simpl. rewrite Hs. simpl. f_equal. lia.
    + simpl. rewrite Hd, Lm, dayKey_localDay.
      replace (localDay tz (end_ - 1) - localDay tz start + 1)
        with (localDay tz (end_ - 1) - (localDay tz start + 1) + 1 + 1) by lia.
      rewrite (seqZ_succ (localDay tz start)) by lia. reflexivity.
  - rewrite Z.min_l by lia.
    assert (Le : localDay tz (end_ - 1) = localDay tz start).
    { apply localDay_unique. fold mid. lia. }
    destruct f as [| f']; simpl; rewrite Z.ltb_irrefl; simpl;
      (eexists; split; [reflexivity |]; split;
       [simpl; f_equal; lia
       | rewrite Le, Z.sub_diag, dayKey_localDay; reflexivity]).
Qed.

End LocalDateFacts.

(** ** Facts about the aggregation *)

Lemma sumCounts_insert_fresh (m : gmap string Z) k v :
  m !! k = None -> sumCounts (<[k := v]> m) = v + sumCounts m.
Proof.
  intros H. unfold sumCounts.
  rewrite map_fold_insert_L; [reflexivity | intros; lia | exact H].
Qed.

Lemma sumCounts_delete (m : gmap string Z) k v :
  m !! k = Some v -> sumCounts m = v + sumCounts (delete k m).
Proof.
  intros H. unfold sumCounts.
  rewrite (map_fold_delete_L _ _ k v m); [reflexivity | intros; lia | exact H].
Qed.

Lemma sumCounts_incr (m : gmap string Z) k :
  sumCounts (incr m k) = sumCounts m + 1.
Proof.
  unfold incr. destruct (m !! k) as [v |] eqn:E; simpl.
  - rewrite <- (insert_delete_eq m).
    rewrite sumCounts_insert_fresh by apply lookup_delete_eq.
    rewrite (sumCounts_delete m k v E). lia.
  - rewrite sumCounts_insert_fresh by exact E. lia.
Qed.

Lemma foldDurations_counts parts a :
  perDayCount (foldDurations parts a) = perDayCount a /\
  perMonthCount (foldDurations parts a) = perMonthCount a.
Proof.
  unfold foldDurations. revert a.
  induction parts as [| p parts IH]; intros a; [split; reflexivity |].
  simpl. destruct (IH {|
    perDayDur := addDur (perDayDur a) (day p) (ms p);
    perDayCount := perDayCount a;
    perMonthDur := addDur (perMonthDur a) (monthKeyOfDayKey (day p)) (ms p);
    perMonthCount := perMonthCount a |}) as [H1 H2].
  split; [exact H1 | exact H2].
Qed.

Lemma countPresence_sum seenDays a :
  sumCounts (perDayCount (countPresence seenDays a))
  = sumCounts (perDayCount a) + Z.of_nat (length seenDays).
Proof.
  unfold countPresence. revert a.
  induction seenDays as [| d l IH]; intros a; simpl; [lia |].
  rewrite IH. simpl. rewrite sumCounts_incr. lia.
Qed.

Lemma distinctFrom_nonempty seen x l :
  x ∉ seen -> distinctFrom seen (x :: l) <> [].
Proof.
  intros H. simpl. rewrite bool_decide_eq_false_2 by exact H. discriminate.
Qed.

Lemma distinct_nonempty l : l <> [] -> distinct l <> [].
Proof.
  destruct l as [| x l]; [congruence |]. intros _.
  apply distinctFrom_nonempty. apply not_elem_of_nil.
Qed.

Lemma splitLoop_nonempty tz fuel start end_ parts :
  start < end_ -> splitLoop tz fuel start end_ = Some parts -> parts <> [].
Proof.
  intros Hlt. apply Z.ltb_lt in Hlt.
  destruct fuel as [| f]; simpl; rewrite Hlt; [discriminate |].
  destruct (nextMidnight tz start) as [mid |].
  - cbv zeta. destruct (splitLoop tz f (Z.min end_ mid) end_); simpl;
      intros H; inversion H; discriminate.
  - intros H; inversion H; discriminate.
Qed.

Lemma splitSessionByDay_total tz s : is_Some (splitSessionByDay tz s).
Proof.
  unfold splitSessionByDay. destruct (start s =? end_ s); [eauto |].
  apply splitLoop_total, splitFuel_enough.
Qed.

Lemma splitSessionByDay_nonempty tz s parts :
  start s <= end_ s -> splitSessionByDay tz s = Some parts -> parts <> [].
Proof.
  intros Hle. unfold splitSessionByDay.
  destruct (start s =? end_ s) eqn:E.
  - intros H; inversion H; discriminate.
  - apply Z.eqb_neq in E. apply splitLoop_nonempty. lia.
Qed.

(** The two scripts split a session with [start <= end] alike. *)
Lemma splitSessionByDay_ts_same tz s :
  start s <= end_ s -> splitSessionByDay_ts tz s = splitSessionByDay tz s.
Proof.
  intros Hle. unfold splitSessionByDay_ts, splitSessionByDay.
  destruct (start s =? end_ s) eqn:E.
  - apply Z.eqb_eq in E. rewrite <- E.
    destruct (splitFuel s); simpl; rewrite Z.ltb_irrefl; reflexivity.
  - apply Z.eqb_neq in E.
    destruct (splitLoop tz (splitFuel s) (start s) (end_ s)) as [parts |] eqn:P;
      [| reflexivity].
    simpl. apply splitLoop_nonempty in P; [| lia].
    destruct parts; [congruence | reflexivity].
Qed.

Lemma aggregateFrom_total tz cb sessions a :
  is_Some (aggregateFrom tz cb sessions a).
Proof.
  revert a. induction sessions as [| s rest IH]; intros a; simpl; [eauto |].
  destruct (splitSessionByDay_total tz s) as [parts ->]. simpl. apply IH.
Qed.

Lemma aggregateFrom_start_sum tz sessions a agg :
  aggregateFrom tz CountStart sessions a = Some agg ->
  sumCounts (perDayCount agg)
  = sumCounts (perDayCount a) + Z.of_nat (length sessions).
Proof.
  revert a. induction sessions as [| s rest IH]; intros a; simpl.
  - intros H; inversion H; subst. lia.
  - destruct (splitSessionByDay tz s) as [parts |]; simpl; [| discriminate].
    intros H. apply IH in H. rewrite H. unfold countSession. simpl.
    rewrite sumCounts_incr.
    rewrite (proj1 (foldDurations_counts parts a)). lia.
Qed.

Lemma aggregateFrom_presence_sum tz sessions a agg :
  Forall (fun s => start s <= end_ s) sessions ->
  aggregateFrom tz CountPresence sessions a = Some agg ->
  sumCounts (perDayCount a) + Z.of_nat (length sessions)
  <= sumCounts (perDayCount agg).
Proof.
  intros Hall. revert a.
  induction Hall as [| s rest Hs Hrest IH]; intros a; simpl.
  - intros H; inversion H; subst. lia.
  - destruct (splitSessionByDay tz s) as [parts |] eqn:P; simpl; [| discriminate].
    intros H. apply IH in H. unfold countSession in H.
    rewrite countPresence_sum in H.
    rewrite (proj1 (foldDurations_counts parts a)) in H.
    apply splitSessionByDay_nonempty in P; [| exact Hs].
    assert (Hd : distinct (map day parts) <> []).
    { apply distinct_nonempty. destruct parts; [congruence | discriminate]. }
    destruct (distinct (map day parts)); [congruence |]. simpl length in H. lia.
Qed.

(** ** Facts about the normaliser *)

Lemma isArabicIndic_cases ch :
  isArabicIndic ch = true ->
  (ch = 1632 \/ ch = 1633 \/ ch = 1634 \/ ch = 1635 \/ ch = 1636 \/ ch = 1637 \/
   ch = 1638 \/ ch = 1639 \/ ch = 1640 \/ ch = 1641 \/ ch = 1643 \/ ch = 1644)%N.
Proof.
  unfold isArabicIndic.
  rewrite !orb_true_iff, andb_true_iff, !N.leb_le, !N.eqb_eq. lia.
Qed.

(** One pass over a character, in either order of the two replacements,
    leaves a character that a second pass does not change. *)
Lemma normalize_char_stable ch :
  let digit c := if isArabicIndic c then default c (mapGet arabicIndicMap c) else c in
  let space c := if isWeirdSpace c then 32%N else c in
  space (digit (space (digit ch))) = space (digit ch) /\
  digit (space (digit (space ch))) = digit (space ch).
Proof.
  cbv beta zeta.
  destruct (isArabicIndic ch) eqn:E.
  - apply isArabicIndic_cases in E.
    repeat (destruct E as [-> | E]); try subst ch; split; reflexivity.
  - destruct (isWeirdSpace ch) eqn:W.
    + split; [reflexivity |].
      unfold isWeirdSpace in W.
      rewrite !orb_true_iff, !N.eqb_eq in W.
      destruct W as [[[-> | ->] | ->] | ->]; reflexivity.
    + rewrite ?E, ?W, ?E. split; reflexivity.
Qed.

(** ** Facts about the matcher *)

Lemma repeatClass_spec {A : Type} p (k : jsstring -> option A) s :
  forall lo hi,
  is_Some (repeatClass p lo hi s k) <->
  exists s1 s2, s = s1 ++ s2 /\ forallb p s1 = true /\ (lo <= length s1)%nat /\
    match hi with Some h => (length s1 <= h)%nat | None => True end /\
    is_Some (k s2).
Proof.
  induction s as [| ch s IH]; intros lo hi.
  - simpl. split.
    + destruct lo; [| intros [? ?]; discriminate].
      intros H. exists [], []. repeat split; auto; destruct hi; simpl; auto; lia.
    + intros (s1 & s2 & E & _ & Hlo & _ & Hk).
      symmetry in E. apply app_eq_nil in E. destruct E; subst.
      simpl in Hlo. destruct lo; [exact Hk | lia].
  - simpl.
    assert (Stop : is_Some (match lo with O => k (ch :: s) | S _ => None end) <->
                   lo = O /\ is_Some (k (ch :: s))).
    { destruct lo; split; [auto | intros [_ ?]; auto | intros [? ?]; discriminate
                          | intros [? _]; discriminate]. }
    destruct (p ch && canTake hi) eqn:E.
    + apply andb_true_iff in E. destruct E as [Hp Hc].
      split.
      * intros H.
        destruct (repeatClass p (Nat.pred lo) (oneLess hi) s k) as [a |] eqn:R.
        -- assert (R' : is_Some (repeatClass p (Nat.pred lo) (oneLess hi) s k))
             by (rewrite R; eauto).
           apply IH in R'. destruct R' as (s1 & s2 & -> & Hall & Hlo & Hhi & Hk).
           exists (ch :: s1), s2. simpl. rewrite Hp, Hall.
           repeat split; auto; [lia |].
           destruct hi as [[| h] |]; simpl in *; auto; try discriminate; lia.
        -- apply Stop in H. destruct H as [-> Hk].
           exists [], (ch :: s). repeat split; auto.
           destruct hi; simpl; auto; lia.
      * intros (s1 & s2 & Es & Hall & Hlo & Hhi & Hk).
        destruct s1 as [| c1 s1].
        -- simpl in Es. subst s2.
           destruct (repeatClass p (Nat.pred lo) (oneLess hi) s k); [eauto |].
           apply Stop. split; [simpl in Hlo; lia | exact Hk].
        -- simpl in Es. inversion Es; subst c1 s.
           simpl in Hall. apply andb_true_iff in Hall. destruct Hall as [_ Hall].
           assert (R : is_Some (repeatClass p (Nat.pred lo) (oneLess hi) (s1 ++ s2) k)).
           { apply IH. exists s1, s2. repeat split; auto; [simpl in Hlo; lia |].
             destruct hi as [h |]; simpl in *; auto; lia. }
           destruct R as [a ->]. eauto.
    + rewrite Stop. split.
      * intros [-> Hk]. exists [], (ch :: s). repeat split; auto.
        destruct hi; simpl; auto; lia.
      * intros (s1 & s2 & Es & Hall & Hlo & Hhi & Hk).
        destruct s1 as [| c1 s1].
        -- simpl in Es. subst s2. split; [simpl in Hlo; lia | exact Hk].
        -- exfalso. simpl in Es. inversion Es; subst c1 s.
           simpl in Hall. apply andb_true_iff in Hall. destruct Hall as [Hp _].
           rewrite Hp in E. simpl in E.
           destruct hi as [[| h] |]; simpl in *; try discriminate; lia.
Qed.

(** The matcher succeeds exactly when the pattern matches a prefix of the
    input on whose rest the continuation succeeds. *)
Lemma run_spec {A : Type} r :
  forall (k : jsstring -> captures -> option A), captureBlind k ->
  forall s c,
  is_Some (run r s c k) <->
  exists s1 s2, s = s1 ++ s2 /\ denote r s1 s2 /\ is_Some (k s2 c).
Proof.
  induction r as [p | r1 IH1 r2 IH2 | r1 IH1 r2 IH2 | r1 IH1 | p lo hi | i r1 IH1 |];
    intros k Hk s c; simpl.
  - destruct s as [| ch s].
    + split; [intros [? ?]; discriminate |].
      intros (s1 & s2 & E & (ch & -> & _) & _). discriminate.
    + destruct (p ch) eqn:P.
      * split.
        -- intros H. exists [ch], s. repeat split; eauto.
        -- intros (s1 & s2 & E & (ch' & -> & _) & H). inversion E; subst. exact H.
      * split; [intros [? ?]; discriminate |].
        intros (s1 & s2 & E & (ch' & -> & P') & _). inversion E; subst.
        congruence.
  - assert (Hk2 : captureBlind (fun s' c' => run r2 s' c' k)).
    { intros s' c1 c2 H. apply (IH2 k Hk) in H. apply (IH2 k Hk).
      destruct H as (a & b & E & D & H). exists a, b. eauto. }
    rewrite (IH1 _ Hk2). split.
    + intros (a & s' & E & D1 & H). apply (IH2 k Hk) in H.
      destruct H as (b & s2 & -> & D2 & H).
      exists (a ++ b), s2. rewrite <- app_assoc. repeat split; eauto.
    + intros (s1 & s2 & E & (a & b & -> & D1 & D2) & H).
      exists a, (b ++ s2). rewrite <- app_assoc in E. repeat split; auto.
      apply (IH2 k Hk). eauto.
  - split.
    + intros H. destruct (run r1 s c k) as [x |] eqn:R.
      * assert (R' : is_Some (run r1 s c k)) by (rewrite R; eauto).
        apply (IH1 k Hk) in R'. destruct R' as (s1 & s2 & E & D & H').
        exists s1, s2. auto.
      * apply (IH2 k Hk) in H. destruct H as (s1 & s2 & E & D & H').
        exists s1, s2. auto.
    + intros (s1 & s2 & E & [D | D] & H).
      * assert (R : is_Some (run r1 s c k)) by (apply (IH1 k Hk); eauto).
        destruct R as [x ->]. eauto.
      * destruct (run r1 s c k); [eauto |]. apply (IH2 k Hk); eauto.
  - split.
    + intros H. destruct (run r1 s c k) as [x |] eqn:R.
      * assert (R' : is_Some (run r1 s c k)) by (rewrite R; eauto).
        apply (IH1 k Hk) in R'. destruct R' as (s1 & s2 & E & D & H').
        exists s1, s2. auto.
      * exists [], s. auto.
    + intros (s1 & s2 & E & [D | ->] & H).
      * assert (R : is_Some (run r1 s c k)) by (apply (IH1 k Hk); eauto).
        destruct R as [x ->]. eauto.
      * simpl in E. subst s2. destruct (run r1 s c k); [eauto | exact H].
  - rewrite repeatClass_spec. split.
    + intros (s1 & s2 & E & H1 & H2 & H3 & H4). exists s1, s2. auto.
    + intros (s1 & s2 & E & (H1 & H2 & H3) & H4). exists s1, s2. auto.
  - set (k' := fun s' c' => k s' ((i, take (length s - length s') s) :: c')).
    assert (Hk' : captureBlind k') by (intros s' c1 c2 H; eapply Hk; exact H).
    pose proof (IH1 k' Hk' s c) as R. unfold k' in R. rewrite R. clear R.
    split.
    + intros (s1 & s2 & E & D & H). exists s1, s2.
      repeat split; auto. eapply Hk; exact H.
    + intros (s1 & s2 & E & D & H). exists s1, s2.
      repeat split; auto. eapply Hk; exact H.
  - destruct s as [| ch s].
    + split.
      * intros H. exists [], []. auto.
      * intros (s1 & s2 & E & [-> ->] & H). exact H.
    + split; [intros [? ?]; discriminate |].
      intros (s1 & s2 & E & [-> ->] & _). discriminate.
Qed.

(** [test] finds a match at some index. *)
Lemma test_spec r s :
  test r s = true <->
  exists pre s1 s2, s = pre ++ s1 ++ s2 /\ denote r s1 s2.
Proof.
  assert (Hk : captureBlind (fun (_ : jsstring) (_ : captures) => Some tt))
    by (intros ? ? ? ?; eauto).
  assert (Here : forall s, is_Some (run r s [] (fun _ _ => Some tt)) <->
                           exists s1 s2, s = s1 ++ s2 /\ denote r s1 s2).
  { intros s0. rewrite (run_spec r _ Hk). split.
    - intros (s1 & s2 & E & D & _). eauto.
    - intros (s1 & s2 & E & D). exists s1, s2. eauto. }
  induction s as [| ch s IH]; simpl.
  - destruct (run r [] [] (fun _ _ => Some tt)) as [u |] eqn:R.
    + split; [| reflexivity]. intros _.
      assert (R' : is_Some (run r [] [] (fun _ _ => Some tt))) by (rewrite R; eauto).
      apply Here in R'. destruct R' as (s1 & s2 & E & D). exists [], s1, s2. auto.
    + split; [discriminate |].
      intros (pre & s1 & s2 & E & D).
      symmetry in E. apply app_eq_nil in E. destruct E as [-> E].
      assert (R' : is_Some (run r [] [] (fun _ _ => Some tt)))
        by (apply Here; exists s1, s2; auto).
      rewrite R in R'. destruct R'; discriminate.
  - destruct (run r (ch :: s) [] (fun _ _ => Some tt)) as [u |] eqn:R.
    + split; [| reflexivity]. intros _.
      assert (R' : is_Some (run r (ch :: s) [] (fun _ _ => Some tt)))
        by (rewrite R; eauto).
      apply Here in R'. destruct R' as (s1 & s2 & E & D). exists [], s1, s2. auto.
    + rewrite IH. split.
      * intros (pre & s1 & s2 & -> & D). exists (ch :: pre), s1, s2. auto.
      * intros (pre & s1 & s2 & E & D). destruct pre as [| c0 pre].
        -- exfalso. simpl in E.
           assert (R' : is_Some (run r (ch :: s) [] (fun _ _ => Some tt)))
             by (apply Here; exists s1, s2; auto).
           rewrite R in R'. destruct R'; discriminate.
        -- simpl in E. inversion E; subst. exists pre, s1, s2. auto.
Qed.

(** ** Facts about the detector *)

Lemma test_AMPM_RE l : test AMPM_RE l = true <-> capitalMarkerBeforeDash l.
Proof.
  rewrite test_spec. unfold AMPM_RE, capitalMarkerBeforeDash. simpl denote. split.
  - intros (pre & s1 & s2 & -> & a & b & -> & Hm & b1 & b2 & -> & (Hws & _ & _)
            & d1 & d2 & -> & (d & -> & Hd) & (w2 & -> & Hw2)).
    assert (Ha : exists w x, a = [w; x; 77%N] /\ isSpace w = true /\
                             (x = 65%N \/ x = 80%N)).
    { destruct Hm as [Hm | Hm];
        destruct Hm as (a1 & a2 & -> & (w & -> & Hw) & a3 & a4 & ->
                        & (x & -> & Hx) & (y & -> & Hy));
        unfold isChar in Hx, Hy; apply N.eqb_eq in Hx, Hy; subst;
        eexists _, _; (split; [reflexivity |]); auto. }
    destruct Ha as (w & x & -> & Hw & Hx).
    exists pre, w, x, b1, d, w2, s2. simpl. rewrite <- !app_assoc. simpl.
    repeat split; auto.
  - intros (pre & w & x & ws & d & w2 & post & -> & Hw & Hx & Hws & Hd & Hw2).
    exists pre, ([w; x; 77%N] ++ ws ++ [d; w2]), post.
    split; [rewrite <- !app_assoc; reflexivity |].
    exists [w; x; 77%N], (ws ++ [d; w2]). split; [reflexivity |]. split.
    + destruct Hx as [-> | ->]; [left | right].
      * exists [w], [65%N; 77%N]. split; [reflexivity |]. split; [eauto |].
        exists [65%N], [77%N]. split; [reflexivity |].
        split; eexists; split; reflexivity.
      * exists [w], [80%N; 77%N]. split; [reflexivity |]. split; [eauto |].
        exists [80%N], [77%N]. split; [reflexivity |].
        split; eexists; split; reflexivity.
    + exists ws, [d; w2]. split; [reflexivity |]. split; [repeat split; auto; lia |].
      exists [d], [w2]. split; [reflexivity |]. split; eauto.
Qed.

Lemma gt12_le12 a : gt12 a && le12 a = false.
Proof. destruct a as [z |]; simpl; [| reflexivity]. lia. Qed.

Lemma castVote_counts lines : forall nMdy nDmy,
  fold_left castVote lines (nMdy, nDmy)
  = (nMdy + countLines votesMDY lines, nDmy + countLines votesDMY lines).
Proof.
  unfold countLines.
  induction lines as [| raw lines IH]; intros nMdy nDmy; simpl.
  - f_equal; lia.
  - assert (Hv : castVote (nMdy, nDmy) raw
                 = (nMdy + (if votesMDY raw then 1 else 0),
                    nDmy + (if votesDMY raw then 1 else 0))).
    { unfold castVote, votesMDY, votesDMY, leadingFields.
      destruct (matchAtStart LINE_RE (normalizeDigits (stripWeirdSpaces raw)))
        as [m |]; simpl; [| f_equal; lia].
      generalize (parseIntGroup m 1) (parseIntGroup m 2). intros a b.
      destruct (gt12 b && le12 a) eqn:E1.
      - assert (E2 : gt12 a && le12 b = false).
        { apply andb_true_iff in E1. destruct E1 as [Hb Ha].
          destruct a as [za |], b as [zb |]; unfold gt12, le12 in *;
            try discriminate.
          apply andb_false_iff. left. lia. }
        rewrite E2. f_equal; lia.
      - destruct (gt12 a && le12 b); f_equal; lia. }
    rewrite Hv, IH.
    destruct (votesMDY raw), (votesDMY raw); simpl length; f_equal; lia.
Qed.

Lemma hasAmPm_spec lines :
  hasAmPm lines = true <-> Exists capitalMarkerBeforeDash lines.
Proof.
  unfold hasAmPm. rewrite existsb_exists, Exists_exists. split.
  - intros (l & Hin & Ht). exists l. split; [apply list_elem_of_In; exact Hin |].
    apply test_AMPM_RE. exact Ht.
  - intros (l & Hin & Ht). exists l. split; [apply list_elem_of_In; exact Hin |].
    apply test_AMPM_RE. exact Ht.
Qed.

(** ** What a parsed line holds *)

Lemma parsedDate_days tz t :
  parsedDate tz t <-> DayFromYear 100 <= localDay tz t < DayFromYear 10000.
Proof.
  unfold parsedDate, getFullYear, YearFromTime. fold (localDay tz t).
  rewrite (YearFromDay_ge 100), <- (YearFromDay_lt 10000). lia.
Qed.

Lemma repeatClass_sound {A : Type} p (k : jsstring -> option A) s x :
  forall lo hi,
  repeatClass p lo hi s k = Some x ->
  exists s1 s2, s = s1 ++ s2 /\ forallb p s1 = true /\ (lo <= length s1)%nat /\
    match hi with Some h => (length s1 <= h)%nat | None => True end /\
    k s2 = Some x.
Proof.
  assert (Stop : forall lo hi s0,
            match lo with O => k s0 | S _ => None end = Some x ->
            exists s1 s2, s0 = s1 ++ s2 /\ forallb p s1 = true /\
              (lo <= length s1)%nat /\
              match hi with Some h => (length s1 <= h)%nat | None => True end /\
              k s2 = Some x).
  { intros lo hi s0 H. destruct lo; [| discriminate].
    exists [], s0. repeat split; auto. destruct hi; simpl; auto; lia. }
  induction s as [| ch s IH]; intros lo hi; simpl; [apply Stop |].
  destruct (p ch && canTake hi) eqn:E; [| apply Stop].
  apply andb_true_iff in E. destruct E as [Hp Hc].
  destruct (repeatClass p (Nat.pred lo) (oneLess hi) s k) as [y |] eqn:R;
    [| apply Stop].
  intros H; inversion H; subst y.
  apply IH in R. destruct R as (s1 & s2 & -> & Hall & Hlo & Hhi & Hk).
  exists (ch :: s1), s2. simpl. rewrite Hp, Hall. repeat split; auto; [lia |].
  destruct hi as [[| h] |]; simpl in *; auto; try discriminate; lia.
Qed.

(** A successful run consumed a match of the pattern and handed the captures
    of that match to the continuation. *)
Lemma run_sound {A : Type} r :
  forall (k : jsstring -> captures -> option A) s c x,
  run r s c k = Some x ->
  exists s1 s2 c', s = s1 ++ s2 /\ denoteC r s1 s2 c c' /\ k s2 c' = Some x.
Proof.
  induction r as [p | r1 IH1 r2 IH2 | r1 IH1 r2 IH2 | r1 IH1 | p lo hi | i r1 IH1 |];
    intros k s c x; simpl.
  - destruct s as [| ch s]; [discriminate |].
    destruct (p ch) eqn:P; [| discriminate].
    intros H. exists [ch], s, c. repeat split; eauto.
  - intros H. apply IH1 in H. destruct H as (a & s' & cm & -> & D1 & H).
    apply IH2 in H. destruct H as (b & s2 & c' & -> & D2 & H).
    exists (a ++ b), s2, c'. rewrite <- app_assoc. repeat split; eauto 10.
  - destruct (run r1 s c k) as [y |] eqn:R.
    + intros H; inversion H; subst y. apply IH1 in R.
      destruct R as (s1 & s2 & c' & E & D & H'). exists s1, s2, c'. auto.
    + intros H. apply IH2 in H.
      destruct H as (s1 & s2 & c' & E & D & H'). exists s1, s2, c'. auto.
  - destruct (run r1 s c k) as [y |] eqn:R.
    + intros H; inversion H; subst y. apply IH1 in R.
      destruct R as (s1 & s2 & c' & E & D & H'). exists s1, s2, c'. auto.
    + intros H. exists [], s, c. auto.
  - intros H. apply repeatClass_sound in H.
    destruct H as (s1 & s2 & E & H1 & H2 & H3 & H4). exists s1, s2, c.
    repeat split; auto.
  - intros H. apply IH1 in H. destruct H as (s1 & s2 & cm & -> & D & H).
    exists s1, s2, ((i, s1) :: cm). repeat split; eauto.
    rewrite length_app in H.
    replace (length s1 + length s2 - length s2)%nat with (length s1) in H by lia.
    rewrite take_app_length in H. exact H.
  - destruct s as [| ch s]; [| discriminate].
    intros H. exists [], [], c. auto.
Qed.

Lemma isDigit_value ch : isDigit ch = true -> 0 <= Z.of_N ch - 48 <= 9.
Proof.
  unfold isDigit. rewrite andb_true_iff, !N.leb_le. lia.
Qed.

(** [parseInt] of at most four digits. *)
Lemma parseInt_digits g :
  forallb isDigit g = true -> (1 <= length g <= 4)%nat ->
  exists v, parseInt g = Some v /\ 0 <= v <= 9999.
Proof.
  intros Hall Hlen.
  destruct g as [| a g]; [simpl in Hlen; lia |].
  simpl in Hall. apply andb_true_iff in Hall. destruct Hall as [Ha Hall].
  assert (E : parseInt (a :: g) = Some (digitsValue 0 (a :: g))).
  { assert (Hc : (a = 48 \/ a = 49 \/ a = 50 \/ a = 51 \/ a = 52 \/ a = 53 \/
                  a = 54 \/ a = 55 \/ a = 56 \/ a = 57)%N).
    { unfold isDigit in Ha. apply andb_true_iff in Ha.
      rewrite !N.leb_le in Ha. lia. }
    repeat (destruct Hc as [-> | Hc]); try subst a; reflexivity. }
  rewrite E. eexists. split; [reflexivity |].
  pose proof (isDigit_value a Ha) as Va.
  simpl digitsValue. rewrite Ha.
  destruct g as [| b g]; [simpl; lia |].
  simpl in Hall. apply andb_true_iff in Hall. destruct Hall as [Hb Hall].
  pose proof (isDigit_value b Hb) as Vb. simpl digitsValue. rewrite Hb.
  destruct g as [| c g]; [simpl; lia |].
  simpl in Hall. apply andb_true_iff in Hall. destruct Hall as [Hc Hall].
  pose proof (isDigit_value c Hc) as Vc. simpl digitsValue. rewrite Hc.
  destruct g as [| d g]; [simpl; lia |].
  simpl in Hall. apply andb_true_iff in Hall. destruct Hall as [Hd Hall].
  pose proof (isDigit_value d Hd) as Vd. simpl digitsValue. rewrite Hd.
  destruct g as [| e g]; [simpl; lia | simpl in Hlen; lia].
Qed.

(** The third group of a line that matches [LINE_RE] is a year of two to four
    digits. *)
Lemma LINE_RE_year line m :
  matchAtStart LINE_RE line = Some m ->
  exists g, capture 3 m = Some g /\ forallb isDigit g = true /\
            (2 <= length g <= 4)%nat.
Proof.
  unfold matchAtStart. intros H. apply run_sound in H.
  destruct H as (s1 & s2 & c' & _ & D & H). inversion H; subst c'. clear H.
  unfold LINE_RE in D. cbn [denoteC] in D.
  repeat match type of D with
         | exists _, _ => destruct D as [? D]
         | _ /\ _ => let H := fresh "H" in destruct D as [H D]
         end.
  repeat match goal with
         | H : exists _, _ |- _ => destruct H
         | H : _ /\ _ |- _ => destruct H
         | H : _ \/ _ |- _ => destruct H
         end; subst; eexists; (split; [reflexivity |]); auto.
Qed.

(** The timestamp of a parsed line is a date of the years 100 to 9999. *)
Lemma parseLine_parsedDate tz line dateOrder msg :
  parseLine tz line dateOrder = Some msg -> parsedDate tz (ts msg).
Proof.
  unfold parseLine. intros H.
  destruct (matchAtStart LINE_RE line) as [m |] eqn:M; [| discriminate].
  simpl in H.
  destruct (parseIntGroup m 1) as [n1 |]; [| discriminate]. simpl in H.
  destruct (parseIntGroup m 2) as [n2 |]; [| discriminate]. simpl in H.
  destruct (parseIntGroup m 3) as [year0 |] eqn:Y; [| discriminate]. simpl in H.
  destruct (parseIntGroup m 4) as [hour0 |]; [| discriminate]. simpl in H.
  destruct (parseIntGroup m 5) as [minute |]; [| discriminate]. simpl in H.
  destruct (monthAndDay dateOrder n1 n2) as [month dayN].
  match type of H with
  | context [checkedTimestamp tz ?y ?mo ?d ?h ?mi] =>
      destruct (checkedTimestamp tz y mo d h mi) as [t |] eqn:C; [| discriminate]
  end.
  assert (Hts : ts msg = t).
  { simpl in H. destruct (indexOfColonSpace (default [] (capture 7 m)));
      inversion H; reflexivity. }
  rewrite Hts. clear H Hts.
  unfold checkedTimestamp in C.
  match type of C with
  | (if ?b then _ else _) = _ => destruct b; [discriminate |]
  end.
  apply makeStrictLocalDate_Some in C. destruct C as (_ & HY & _).
  destruct (LINE_RE_year line m M) as (g & Hg & Hd & Hl).
  unfold parseIntGroup in Y. rewrite Hg in Y. simpl in Y.
  destruct (parseInt_digits g Hd) as (v & Hv & Hr); [lia |].
  rewrite Hv in Y. inversion Y; subst year0.
  unfold parsedDate. rewrite HY.
  destruct (v <? 100) eqn:E; [apply Z.ltb_lt in E | apply Z.ltb_ge in E]; lia.
Qed.

Lemma chronological_timeline ss :
  chronological (timeline ss) ->
  Forall (fun s => start s <= end_ s) ss /\ chronological (map start ss).
Proof.
  unfold timeline. induction ss as [| s ss IH]; [split; [constructor | exact I] |].
  cbn [flat_map app map]. intros H. apply chronological_cons in H.
  destruct H as [Hse H]. destruct ss as [| s' ss].
  - split; [repeat constructor; exact Hse | exact I].
  - cbn [flat_map app map] in *. apply chronological_cons in H.
    destruct H as [Hes H]. destruct (IH H) as [IH1 IH2].
    split; [constructor; [exact Hse | exact IH1] |].
    apply chronological_cons. split; [lia | exact IH2].
Qed.

(** ** What the chat parser hands to the segmenter *)

Lemma insertByTs_In m l x : In x (insertByTs m l) <-> x = m \/ In x l.
Proof.
  induction l as [| y l IH]; simpl; [intuition congruence |].
  destruct (ts m <? ts y); simpl; [intuition congruence |].
  rewrite IH. intuition congruence.
Qed.

Lemma insertByTs_chronological m l :
  chronological (map ts l) -> chronological (map ts (insertByTs m l)).
Proof.
  induction l as [| y l IH]; intros H; [exact I |].
  simpl insertByTs. destruct (ts m <? ts y) eqn:E.
  - rewrite !map_cons. apply chronological_cons. split; [lia | exact H].
  - apply Z.ltb_ge in E. specialize (IH (chronological_tail _ _ H)).
    rewrite map_cons. destruct l as [| z l].
    + simpl. lia.
    + rewrite map_cons in H. apply chronological_cons in H. destruct H as [Hyz H].
      simpl insertByTs in *. destruct (ts m <? ts z) eqn:E2.
      * rewrite !map_cons in *. apply chronological_cons. split; [lia | exact IH].
      * rewrite !map_cons in *. apply chronological_cons. split; [lia | exact IH].
Qed.

Lemma sortByTs_spec l :
  chronological (map ts (sortByTs l)) /\
  (forall x, In x (sortByTs l) <-> In x l).
Proof.
  unfold sortByTs.
  assert (G : forall acc,
            chronological (map ts acc) ->
            chronological (map ts (fold_left (fun a m => insertByTs m a) l acc)) /\
            (forall x, In x (fold_left (fun a m => insertByTs m a) l acc)
                       <-> In x acc \/ In x l)).
  { induction l as [| m l IH]; intros acc Hacc; simpl.
    - split; [exact Hacc | intros; tauto].
    - destruct (IH (insertByTs m acc) (insertByTs_chronological m acc Hacc))
        as [H1 H2].
      split; [exact H1 |]. intros x. rewrite H2, insertByTs_In. simpl.
      intuition congruence. }
  destruct (G [] I) as [H1 H2]. split; [exact H1 |].
  intros x. rewrite H2. simpl. tauto.
Qed.

Lemma parseStep_parsed tz order lines : forall acc,
  Forall (fun m => parsedDate tz (ts m)) (fst acc) ->
  Forall (fun m => parsedDate tz (ts m))
         (fst (fold_left (parseStep tz order) lines acc)).
Proof.
  induction lines as [| raw lines IH]; intros acc Hacc; [exact Hacc |].
  simpl. apply IH. unfold parseStep.
  destruct (parseLine tz (normalizeDigits (stripWeirdSpaces raw)) order)
    as [msg |] eqn:P.
  - simpl. apply Forall_app. split; [exact Hacc |].
    constructor; [| constructor]. eapply parseLine_parsedDate. exact P.
  - match goal with |- context [if ?b then _ else _] => destruct b end;
      exact Hacc.
Qed.

(** The messages of [parseChat] are in the order of their timestamps, all
    dates of the years 100 to 9999. *)
Lemma parseChat_msgs tz fm fd allLines :
  chronological (map ts (msgs (parseChat tz fm fd allLines))) /\
  Forall (fun m => parsedDate tz (ts m)) (msgs (parseChat tz fm fd allLines)).
Proof.
  unfold parseChat. cbv zeta. simpl msgs.
  set (acc := fold_left _ allLines ([], [])).
  destruct (sortByTs_spec (fst acc)) as [H1 H2]. split; [exact H1 |].
  rewrite Forall_forall. intros m Hm.
  apply list_elem_of_In, H2 in Hm.
  assert (HP : Forall (fun m => parsedDate tz (ts m)) (fst acc))
    by (apply parseStep_parsed; constructor).
  fold acc in HP. rewrite Forall_forall in HP. apply HP.
  apply list_elem_of_In. exact Hm.
Qed.

(** Every session ends at the timestamp of a message. *)
Lemma groupLoop_ends th prev rest cur :
  Forall (fun s => end_ s = end_ cur \/ In (end_ s) (map ts rest))
         (groupLoop th prev rest cur []).
Proof.
  revert prev cur. induction rest as [| m rest IH]; intros prev cur.
  - simpl. constructor; [left; reflexivity | constructor].
  - simpl groupLoop. destruct (ts m - ts prev <? th).
    + eapply Forall_impl; [apply IH |]. simpl. intros s [H | H]; auto.
    + rewrite groupLoop_out. simpl app. constructor; [left; reflexivity |].
      eapply Forall_impl; [apply IH |]. simpl. intros s [H | H]; auto.
Qed.

(** The sessions of a parsed chat start no later than they end, at dates of
    the years 100 to 9999: the sessions the day splitter and the aggregation
    loop are run on. *)
Lemma parsed_sessions tz fm fd allLines gapMin :
  Forall (fun s => start s <= end_ s /\
                   parsedDate tz (start s) /\ parsedDate tz (end_ s))
         (groupSessions (msgs (parseChat tz fm fd allLines)) gapMin).
Proof.
  destruct (parseChat_msgs tz fm fd allLines) as [Hch Hp].
  set (ms := msgs (parseChat tz fm fd allLines)) in *.
  assert (Hts : forall t, In t (map ts ms) -> parsedDate tz t).
  { intros t Ht. apply in_map_iff in Ht. destruct Ht as (m & <- & Hm).
    rewrite Forall_forall in Hp. apply Hp. apply list_elem_of_In. exact Hm. }
  destruct ms as [| m0 rest]; [constructor |].
  unfold groupSessions.
  destruct (groupLoop_invariant (gapMin * 60 * 1000) m0 rest (newSession m0))
    as (_ & _ & Hst & _ & Hord); simpl; try lia; [exact Hch |].
  destruct (chronological_timeline _ Hord) as [Hse _].
  pose proof (groupLoop_ends (gapMin * 60 * 1000) m0 rest (newSession m0)) as He.
  rewrite Forall_forall in *. intros s Hin.
  specialize (Hst s Hin). specialize (Hse s Hin). specialize (He s Hin).
  simpl in Hst, He. split; [exact Hse |]. split; apply Hts; simpl.
  - destruct Hst as [-> | H]; auto.
  - destruct He as [-> | H]; auto.
Qed.

Lemma midnight_inside tz a b n :
  a < dayStart tz n < b <-> localDay tz a < n <= localDay tz (b - 1).
Proof.
  unfold dayStart, localDay, UTC, LocalTime, Day, msPerDay.
  Z.to_euclidean_division_equations. lia.
Qed.

(** * The properties of the specification *)

(** C1: under the [presence] policy a session adds one to the count of a
    month for every distinct day of that month it touches, and not one per
    month.  Two lines, of 23:58 and of 00:05 the next day, with a gap
    threshold of 10 minutes, are one session; it touches two days of January
    2025 and counts twice in that month (once under the [start] policy). *)
Theorem presence_counts_month_per_day :
  let lines := [js "1/1/25, 11:58 PM - A: x"; js "1/2/25, 12:05 AM - A: y"] in
  let s := {| start := t2358; end_ := t0005; count := 2 |} in
  groupSessions (msgs (parseChat sampleZone false false lines)) 10 = [s] /\
  fmap (map day) (splitSessionByDay sampleZone s)
  = Some ["2025-01-01"; "2025-01-02"] /\
  perDayCount <$> aggregate sampleZone CountPresence [s]
  = Some {[ "2025-01-01" := 1; "2025-01-02" := 1 ]} /\
  perMonthCount <$> aggregate sampleZone CountPresence [s]
  = Some {[ "2025-01" := 2 ]} /\
  perMonthCount <$> aggregate sampleZone CountStart [s]
  = Some {[ "2025-01" := 1 ]}.
Proof. vm_compute. repeat split; reflexivity. Qed.

(** C2, as stated, fails: with a threshold of 0 two consecutive messages of
    the same instant (two lines of the same minute) are not merged; each
    opens a session of its own. *)
Lemma same_instant_not_merged :
  let lines := [js "1/1/25, 11:58 PM - A: x"; js "1/1/25, 11:58 PM - A: y"] in
  let parsed := msgs (parseChat sampleZone false false lines) in
  map ts parsed = [t2358; t2358] /\
  groupSessions parsed 0
  = [ {| start := t2358; end_ := t2358; count := 1 |};
      {| start := t2358; end_ := t2358; count := 1 |} ].
Proof. vm_compute. split; reflexivity. Qed.

(** C2, amended: with a threshold of 0 nothing merges; every message of a
    time-sorted sequence is a session of its own, equal timestamps
    included. *)
Theorem groupSessions_gap_0 msgs :
  chronological (map ts msgs) -> groupSessions msgs 0 = map newSession msgs.
Proof.
  destruct msgs as [| m0 rest]; [reflexivity |].
  unfold groupSessions. change (0 * 60 * 1000) with 0.
  revert m0. induction rest as [| m rest IH]; intros m0 Hch; [reflexivity |].
  rewrite !map_cons in Hch. apply chronological_cons in Hch.
  destruct Hch as [Hle Hch]. simpl groupLoop.
  replace (ts m - ts m0 <? 0) with false by (symmetry; apply Z.ltb_ge; lia).
  rewrite groupLoop_out. simpl app. rewrite (IH m Hch). reflexivity.
Qed.

Lemma groupSessions_gap_0_witness :
  groupSessions [msgAt t2358; msgAt t2358; msgAt t0005] 0
  = [newSession (msgAt t2358); newSession (msgAt t2358); newSession (msgAt t0005)].
Proof.
  apply (groupSessions_gap_0 [msgAt t2358; msgAt t2358; msgAt t0005]).
  unfold t2358, t0005. simpl. lia.
Defined.

(** C3: the durations of the slices of a session add up to [end - start]
    exactly, in both scripts, and a session with [start = end] gives one
    slice of duration 0 on the day of its start. *)
Theorem splitSessionByDay_sum tz s :
  Z.abs tz <= msPerDay ->
  parsedDate tz (start s) -> parsedDate tz (end_ s) ->
  start s <= end_ s ->
  exists parts,
    splitSessionByDay tz s = Some parts /\
    splitSessionByDay_ts tz s = Some parts /\
    sumMs parts = Some (end_ s - start s) /\
    (start s = end_ s ->
     parts = [ {| day := dayKey tz (start s); ms := Some 0 |} ]).
Proof.
  intros Htz Hs He Hle.
  rewrite splitSessionByDay_ts_same by exact Hle.
  unfold splitSessionByDay.
  destruct (start s =? end_ s) eqn:E.
  - apply Z.eqb_eq in E. eexists. split; [reflexivity |]. split; [reflexivity |].
    split; [simpl; f_equal; lia | reflexivity].
  - apply Z.eqb_neq in E.
    apply parsedDate_days in Hs, He.
    destruct (splitLoop_valid tz (splitFuel s) (start s) (end_ s))
      as (parts & Hp & Hsum & _); try lia; [apply splitFuel_enough |].
    exists parts. repeat split; auto. intros; lia.
Qed.

Lemma splitSessionByDay_sum_witness :
  exists parts,
    splitSessionByDay sampleZone {| start := t2358; end_ := t0005; count := 2 |}
    = Some parts /\
    sumMs parts = Some 420000.
Proof.
  destruct (splitSessionByDay_sum sampleZone
              {| start := t2358; end_ := t0005; count := 2 |})
    as (parts & H1 & _ & H2 & _).
  - unfold sampleZone, msPerDay. lia.
  - unfold parsedDate. split; apply Z.leb_le; vm_compute; reflexivity.
  - unfold parsedDate. split; apply Z.leb_le; vm_compute; reflexivity.
  - unfold t2358, t0005. simpl. lia.
  - exists parts. split; [exact H1 | exact H2].
Defined.

(** C4: for fields that pass the range checks, the line parser keeps the
    timestamp exactly when the local date built from the fields reads back
    field for field; a day past the end of its month is rejected, never
    rolled over into the next month; and every real calendar date of the
    years 100 to 9999 is kept. *)
Theorem checkedTimestamp_strict tz y m d hh mm :
  1 <= m <= 12 -> 1 <= d <= 31 -> 0 <= hh <= 23 -> 0 <= mm <= 59 ->
  (forall dt,
     checkedTimestamp tz y m d hh mm = Some dt <->
     newDate tz y (m - 1) d hh mm 0 0 = Some dt /\
     getFullYear tz dt = y /\ getMonth tz dt = m - 1 /\ getDate tz dt = d /\
     getHours tz dt = hh /\ getMinutes tz dt = mm) /\
  (daysInMonth y m < d -> checkedTimestamp tz y m d hh mm = None) /\
  (Z.abs tz <= msPerDay -> 100 <= y <= 9999 -> d <= daysInMonth y m ->
   checkedTimestamp tz y m d hh mm
   = Some (UTC tz (MakeDate (MakeDay y (m - 1) d) (MakeTime hh mm 0 0)))).
Proof.
  intros Hm Hd Hh Hmm.
  assert (E : checkedTimestamp tz y m d hh mm = makeStrictLocalDate tz y m d hh mm).
  { unfold checkedTimestamp.
    replace ((m <? 1) || (m >? 12) || (d <? 1) || (d >? 31) || (hh <? 0)
             || (hh >? 23) || (mm <? 0) || (mm >? 59)) with false; [reflexivity |].
    symmetry. rewrite !orb_false_iff. lia. }
  rewrite E. split; [| split].
  - intros dt. apply makeStrictLocalDate_Some.
  - intros Hroll. apply makeStrictLocalDate_rollover; assumption.
  - intros Htz Hy Hdim. apply makeStrictLocalDate_valid; auto; lia.
Qed.

Lemma checkedTimestamp_strict_witness :
  checkedTimestamp sampleZone 2025 4 31 10 0 = None /\
  checkedTimestamp sampleZone 2025 4 30 10 0 = Some 1745996400000 /\
  parseLine sampleZone (js "31/4/2025, 10:00 - A: hi") dmy = None /\
  ts <$> parseLine sampleZone (js "30/4/2025, 10:00 - A: hi") dmy
  = Some 1745996400000.
Proof.
  assert (HP : parseLine sampleZone (js "31/4/2025, 10:00 - A: hi") dmy = None /\
               ts <$> parseLine sampleZone (js "30/4/2025, 10:00 - A: hi") dmy
               = Some 1745996400000)
    by (vm_compute; split; reflexivity).
  destruct (checkedTimestamp_strict sampleZone 2025 4 31 10 0)
    as (_ & Hroll & _); try lia.
  destruct (checkedTimestamp_strict sampleZone 2025 4 30 10 0)
    as (_ & _ & Hok); try lia.
  split; [| split; [| exact HP]].
  - apply Hroll. vm_compute. reflexivity.
  - rewrite Hok; [reflexivity | unfold sampleZone, msPerDay; lia | lia |].
    apply Z.leb_le. vm_compute. reflexivity.
Defined.

(** C5, as stated, fails: a line may hold an AM/PM marker immediately before
    the separator, one that the grammar matches and the line parser reads
    as PM (22 hours), and yet not decide a tie.  A file of one such line,
    with the marker in lower case, or with no space before the marker, or
    with no space after the dash, casts no vote and is given the order DMY
    by both scripts; the same line written [10:00 PM - A: hi] gives MDY. *)
Lemma grammar_marker_not_detected :
  let lower := js "1/2/25, 10:00 pm - A: hi" in
  let tight := js "1/2/25, 10:00PM - A: hi" in
  let close := js "1/2/25, 10:00 PM -A: hi" in
  (markerBeforeSeparator lower = true /\
   getHours sampleZone <$> (ts <$> parseLine sampleZone lower dmy) = Some 22 /\
   countLines votesMDY [lower] = 0 /\ countLines votesDMY [lower] = 0 /\
   detectDateOrder false false [lower] = dmy /\
   detectDateOrder_ts false false [lower] = dmy) /\
  (markerBeforeSeparator tight = true /\
   getHours sampleZone <$> (ts <$> parseLine sampleZone tight dmy) = Some 22 /\
   countLines votesMDY [tight] = 0 /\ countLines votesDMY [tight] = 0 /\
   detectDateOrder false false [tight] = dmy /\
   detectDateOrder_ts false false [tight] = dmy) /\
  (markerBeforeSeparator close = true /\
   getHours sampleZone <$> (ts <$> parseLine sampleZone close dmy) = Some 22 /\
   countLines votesMDY [close] = 0 /\ countLines votesDMY [close] = 0 /\
   detectDateOrder false false [close] = dmy /\
   detectDateOrder_ts false false [close] = dmy) /\
  detectDateOrder false false [js "1/2/25, 10:00 PM - A: hi"] = mdy.
Proof. vm_compute. repeat split; reflexivity. Qed.

(** C5, amended: a flag on the command line decides the order whatever the
    lines are; otherwise the order with more votes wins, and on a tie, zero
    votes included, the order is MDY exactly when some raw line holds,
    anywhere, a white space followed by AM or PM in capitals, then any run
    of white space, a hyphen or an en dash, and a white space; it is DMY
    otherwise.  Both scripts agree. *)
Theorem detectDateOrder_votes FORCE_MDY FORCE_DMY lines :
  let nMdy := countLines votesMDY lines in
  let nDmy := countLines votesDMY lines in
  let order := detectDateOrder FORCE_MDY FORCE_DMY lines in
  (FORCE_MDY = true -> order = mdy) /\
  (FORCE_MDY = false -> FORCE_DMY = true -> order = dmy) /\
  (FORCE_MDY = false -> FORCE_DMY = false ->
   (nDmy < nMdy -> order = mdy) /\
   (nMdy < nDmy -> order = dmy) /\
   (nMdy = nDmy ->
    (order = mdy <-> Exists capitalMarkerBeforeDash lines) /\
    (order = dmy <-> ~ Exists capitalMarkerBeforeDash lines))) /\
  detectDateOrder_ts FORCE_MDY FORCE_DMY lines = order.
Proof.
  cbv zeta. unfold detectDateOrder, detectDateOrder_ts.
  rewrite castVote_counts. rewrite !Z.add_0_l.
  set (nMdy := countLines votesMDY lines). set (nDmy := countLines votesDMY lines).
  destruct FORCE_MDY;
    [repeat split; intros; try discriminate; reflexivity |].
  destruct FORCE_DMY;
    [repeat split; intros; try discriminate; reflexivity |].
  split; [discriminate |]. split; [discriminate |]. split; [| reflexivity].
  intros _ _.
  destruct (nMdy >? nDmy) eqn:E1;
    [repeat split; intros; try lia; reflexivity |].
  destruct (nDmy >? nMdy) eqn:E2;
    [repeat split; intros; try lia; reflexivity |].
  split; [intros; lia |]. split; [intros; lia |]. intros _.
  pose proof (hasAmPm_spec lines) as HS.
  destruct (hasAmPm lines).
  - split; split; intros H; try reflexivity; try discriminate.
    + apply HS. reflexivity.
    + exfalso. apply H, HS. reflexivity.
  - split; split; intros H; try reflexivity; try discriminate.
    + apply HS in H. discriminate.
    + intros H'. apply HS in H'. discriminate.
Qed.

(** C6, as stated, fails: the session of two lines, of 23:58 and of the
    midnight that follows, crosses one local midnight, ends on it and touches
    two calendar days; it is split into one slice, not two. *)
Lemma end_on_midnight_one_slice :
  let lines := [js "1/1/25, 11:58 PM - A: x"; js "1/2/25, 12:00 AM - A: y"] in
  let s := {| start := t2358; end_ := t0000; count := 2 |} in
  groupSessions (msgs (parseChat sampleZone false false lines)) 10 = [s] /\
  localDay sampleZone (end_ s) - localDay sampleZone (start s) = 1 /\
  end_ s = dayStart sampleZone (localDay sampleZone (end_ s)) /\
  dayKey sampleZone (start s) = "2025-01-01" /\
  dayKey sampleZone (end_ s) = "2025-01-02" /\
  splitSessionByDay sampleZone s
  = Some [ {| day := "2025-01-01"; ms := Some 120000 |} ].
Proof. vm_compute. repeat split; reflexivity. Qed.

(** C6, amended: a session with [start < end] that crosses N local midnights
    strictly inside its span ([start < midnight < end]) is split into N + 1
    slices, one for each calendar day from that of its start on, in
    chronological order; a midnight that falls exactly on the end of the
    session opens no slice.  A session with [start = end] gives one slice. *)
Theorem splitSessionByDay_days tz s :
  Z.abs tz <= msPerDay ->
  parsedDate tz (start s) -> parsedDate tz (end_ s) ->
  start s <= end_ s ->
  let first := localDay tz (start s) in
  let N := localDay tz (end_ s - 1) - first in
  exists parts,
    splitSessionByDay tz s = Some parts /\
    splitSessionByDay_ts tz s = Some parts /\
    (start s < end_ s ->
     (forall n, start s < dayStart tz n < end_ s <-> first < n <= first + N) /\
     0 <= N /\
     Z.of_nat (length parts) = N + 1 /\
     map day parts = map dayKeyOfDay (seqZ first (N + 1))) /\
    (start s = end_ s -> length parts = 1%nat).
Proof.
  intros Htz Hs He Hle. cbv zeta.
  rewrite splitSessionByDay_ts_same by exact Hle.
  unfold splitSessionByDay.
  destruct (start s =? end_ s) eqn:E.
  - apply Z.eqb_eq in E. eexists. split; [reflexivity |]. split; [reflexivity |].
    split; [intros; lia | reflexivity].
  - apply Z.eqb_neq in E.
    apply parsedDate_days in Hs, He.
    destruct (splitLoop_valid tz (splitFuel s) (start s) (end_ s))
      as (parts & Hp & _ & Hd); try lia; [apply splitFuel_enough |].
    exists parts. split; [exact Hp |]. split; [exact Hp |].
    split; [| intros; lia]. intros Hlt.
    assert (HN : localDay tz (start s) <= localDay tz (end_ s - 1))
      by (apply localDay_mono; lia).
    split; [| split; [lia | split; [| exact Hd]]].
    + intros n. rewrite midnight_inside. lia.
    + apply (f_equal (@length string)) in Hd.
      rewrite !length_map, length_seqZ in Hd. lia.
Qed.

Lemma splitSessionByDay_days_witness :
  exists parts,
    splitSessionByDay sampleZone {| start := t2358; end_ := t0005; count := 2 |}
    = Some parts /\
    map day parts = ["2025-01-01"; "2025-01-02"].
Proof.
  destruct (splitSessionByDay_days sampleZone
              {| start := t2358; end_ := t0005; count := 2 |})
    as (parts & H1 & _ & H2 & _).
  - unfold sampleZone, msPerDay. lia.
  - unfold parsedDate. split; apply Z.leb_le; vm_compute; reflexivity.
  - unfold parsedDate. split; apply Z.leb_le; vm_compute; reflexivity.
  - unfold t2358, t0005. simpl. lia.
  - exists parts. split; [exact H1 |].
    destruct H2 as (_ & _ & _ & Hd); [unfold t2358, t0005; simpl; lia |].
    rewrite Hd. vm_compute. reflexivity.
Defined.

(** C7: with a larger gap threshold the segmenter never returns more
    sessions (for every sequence of messages, sorted or not, and every pair
    of thresholds). *)
Theorem groupSessions_antitone msgs t1 t2 :
  0 <= t1 <= t2 ->
  (length (groupSessions msgs t2) <= length (groupSessions msgs t1))%nat.
Proof.
  intros Ht. destruct msgs as [| m0 rest]; [reflexivity |].
  unfold groupSessions. rewrite !groupLoop_length.
  pose proof (breaks_antitone (t1 * 60 * 1000) (t2 * 60 * 1000) m0 rest). lia.
Qed.

Lemma groupSessions_antitone_witness :
  (length (groupSessions [msgAt t2358; msgAt t0000; msgAt t0005] 5)
   <= length (groupSessions [msgAt t2358; msgAt t0000; msgAt t0005] 3))%nat.
Proof.
  apply (groupSessions_antitone [msgAt t2358; msgAt t0000; msgAt t0005] 3 5). lia.
Defined.

(** C8: under the [start] policy the day-level counts add up to the number of
    sessions, and under the [presence] policy to at least that number; the
    aggregation loop ends on every list of sessions. *)
Theorem dayCounts_total tz sessions :
  Forall (fun s => start s <= end_ s) sessions ->
  (exists agg,
     aggregate tz CountStart sessions = Some agg /\
     sumCounts (perDayCount agg) = Z.of_nat (length sessions)) /\
  (exists agg,
     aggregate tz CountPresence sessions = Some agg /\
     Z.of_nat (length sessions) <= sumCounts (perDayCount agg)).
Proof.
  intros Hall. unfold aggregate. split.
  - destruct (aggregateFrom_total tz CountStart sessions noAggregates) as [agg Ha].
    exists agg. split; [exact Ha |].
    apply aggregateFrom_start_sum in Ha. rewrite Ha. reflexivity.
  - destruct (aggregateFrom_total tz CountPresence sessions noAggregates) as [agg Ha].
    exists agg. split; [exact Ha |].
    apply aggregateFrom_presence_sum in Ha; [| exact Hall].
    change (sumCounts (perDayCount noAggregates)) with 0 in Ha. lia.
Qed.

Lemma dayCounts_total_witness :
  (exists agg,
     aggregate sampleZone CountStart
       [ {| start := t2358; end_ := t0005; count := 2 |} ] = Some agg /\
     sumCounts (perDayCount agg) = 1) /\
  (exists agg,
     aggregate sampleZone CountPresence
       [ {| start := t2358; end_ := t0005; count := 2 |} ] = Some agg /\
     1 <= sumCounts (perDayCount agg)).
Proof.
  apply (dayCounts_total sampleZone
           [ {| start := t2358; end_ := t0005; count := 2 |} ]).
  repeat constructor. unfold t2358, t0005. simpl. lia.
Defined.

(** C9: the sessions of a time-sorted sequence of messages partition it:
    their message counts add up to the number of messages, every session
    has at least one message, starts no later than it ends and starts at the
    timestamp of a message, and the sessions follow one another in time
    (each ends no later than the next starts).  No message gives no
    session. *)
Theorem groupSessions_partition msgs gapMin :
  chronological (map ts msgs) ->
  let ss := groupSessions msgs gapMin in
  totalCount ss = Z.of_nat (length msgs) /\
  Forall (fun s => 1 <= count s /\ start s <= end_ s /\
                   In (start s) (map ts msgs)) ss /\
  chronological (timeline ss) /\
  chronological (map start ss) /\
  (msgs = [] -> ss = []).
Proof.
  intros Hch. cbv zeta.
  destruct msgs as [| m0 rest].
  - simpl. repeat split; auto.
  - unfold groupSessions.
    destruct (groupLoop_invariant (gapMin * 60 * 1000) m0 rest (newSession m0))
      as (Ht & Hc & Hst & _ & Hord); simpl; try lia; [exact Hch |].
    destruct (chronological_timeline _ Hord) as [Hse Hss].
    split; [rewrite Ht; simpl; lia |].
    split; [| split; [exact Hord | split; [exact Hss | discriminate]]].
    rewrite Forall_forall in *. intros s Hin.
    specialize (Hc s Hin). specialize (Hst s Hin). specialize (Hse s Hin).
    simpl in Hst. repeat split; auto; try lia.
    destruct Hst as [-> | Hst]; [left; reflexivity | right; exact Hst].
Qed.

Lemma groupSessions_partition_witness :
  totalCount (groupSessions [msgAt t2358; msgAt t0000; msgAt t0005] 3) = 3.
Proof.
  destruct (groupSessions_partition [msgAt t2358; msgAt t0000; msgAt t0005] 3)
    as (Ht & _).
  - unfold t2358, t0000, t0005. simpl. lia.
  - exact Ht.
Defined.

(** C10: normalising a line twice gives what normalising it once gives,
    whether the digits are replaced before the spaces or, as [parseChat]
    does, after them. *)
Theorem normalize_idempotent s :
  stripWeirdSpaces (normalizeDigits (stripWeirdSpaces (normalizeDigits s)))
  = stripWeirdSpaces (normalizeDigits s) /\
  normalizeDigits (stripWeirdSpaces (normalizeDigits (stripWeirdSpaces s)))
  = normalizeDigits (stripWeirdSpaces s).
Proof.
  unfold stripWeirdSpaces, normalizeDigits. rewrite !map_map.
  split; apply map_ext; intros ch; apply (normalize_char_stable ch).
Qed.

(** * Further properties of the code *)

(** ** Normalisation *)

Lemma normalize_char_plain ch :
  let digit c := if isArabicIndic c then default c (mapGet arabicIndicMap c) else c in
  let space c := if isWeirdSpace c then 32%N else c in
  digit (space ch) = space (digit ch) /\
  plainChar (digit (space ch)) = true /\
  (plainChar ch = true -> digit (space ch) = ch) /\
  (digit (space ch) = ch -> plainChar ch = true).
Proof.
  cbv beta zeta. unfold plainChar.
  destruct (isArabicIndic ch) eqn:E.
  - apply isArabicIndic_cases in E.
    repeat (destruct E as [-> | E]); try subst ch;
      (split; [reflexivity |]; split; [reflexivity |]; split; discriminate).
  - destruct (isWeirdSpace ch) eqn:W.
    + unfold isWeirdSpace in W.
      rewrite !orb_true_iff, !N.eqb_eq in W.
      destruct W as [[[-> | ->] | ->] | ->];
        (split; [reflexivity |]; split; [reflexivity |]; split; discriminate).
    + rewrite ?E, ?W. auto.
Qed.

(** X1: the two normalisation steps commute, and neither changes the length
    of a line: each replaces characters one for one. *)
Theorem normalize_commute s :
  normalizeDigits (stripWeirdSpaces s) = stripWeirdSpaces (normalizeDigits s) /\
  length (normalizeDigits (stripWeirdSpaces s)) = length s.
Proof.
  unfold stripWeirdSpaces, normalizeDigits. rewrite !map_map, !length_map.
  split; [| reflexivity].
  apply map_ext. intros ch. apply (normalize_char_plain ch).
Qed.

(** X2: a normalised line holds no Arabic-Indic digit or separator and no
    invisible space, and normalisation leaves a line unchanged exactly when
    the line holds none of them. *)
Theorem normalize_plain s :
  forallb plainChar (normalizeDigits (stripWeirdSpaces s)) = true /\
  (normalizeDigits (stripWeirdSpaces s) = s <-> forallb plainChar s = true).
Proof.
  unfold stripWeirdSpaces, normalizeDigits. rewrite !map_map.
  match goal with |- context [map ?g s] => set (f := g) end.
  assert (Hf : forall ch, plainChar (f ch) = true /\
                          (plainChar ch = true -> f ch = ch) /\
                          (f ch = ch -> plainChar ch = true)).
  { intros ch. destruct (normalize_char_plain ch) as (_ & H2 & H3 & H4).
    repeat split; assumption. }
  clearbody f.
  induction s as [| ch s [IH1 IH2]]; [split; [reflexivity | split; reflexivity] |].
  destruct (Hf ch) as (H2 & H3 & H4).
  cbn [map forallb]. split.
  - rewrite H2, IH1. reflexivity.
  - rewrite andb_true_iff. split.
    + intros H. inversion H as [[Hc Hs]]. rewrite Hc, Hs.
      split; [auto | apply IH2; exact Hs].
    + intros [Hc Hs]. f_equal; [apply H3; exact Hc | apply IH2; exact Hs].
Qed.

Lemma parseInt_digit_head a g :
  isDigit a = true -> parseInt (a :: g) = Some (digitsValue 0 (a :: g)).
Proof.
  intros Ha.
  assert (Hc : (a = 48 \/ a = 49 \/ a = 50 \/ a = 51 \/ a = 52 \/ a = 53 \/
                a = 54 \/ a = 55 \/ a = 56 \/ a = 57)%N).
  { unfold isDigit in Ha. apply andb_true_iff in Ha.
    rewrite !N.leb_le in Ha. lia. }
  repeat (destruct Hc as [-> | Hc]); try subst a; reflexivity.
Qed.

Lemma normalize_arabicIndic_digit ch :
  (1632 <= ch <= 1641)%N ->
  (if isArabicIndic (if isWeirdSpace ch then 32%N else ch)
   then default (if isWeirdSpace ch then 32%N else ch)
          (mapGet arabicIndicMap (if isWeirdSpace ch then 32%N else ch))
   else (if isWeirdSpace ch then 32%N else ch)) = (ch - 1632 + 48)%N.
Proof.
  intros H.
  assert (Hc : (ch = 1632 \/ ch = 1633 \/ ch = 1634 \/ ch = 1635 \/ ch = 1636 \/
                ch = 1637 \/ ch = 1638 \/ ch = 1639 \/ ch = 1640 \/ ch = 1641)%N) by lia.
  repeat (destruct Hc as [-> | Hc]); try subst ch; reflexivity.
Qed.

(** X3: a number written in Arabic-Indic digits (at most 15 of them) reads,
    once normalised, as the same number: [parseInt] gives its decimal
    value. *)
Theorem normalizeDigits_value s :
  Forall (fun ch => (1632 <= ch <= 1641)%N) s -> (1 <= length s <= 15)%nat ->
  parseInt (normalizeDigits (stripWeirdSpaces s)) = Some (arabicIndicValue s).
Proof.
  intros Hall Hlen.
  assert (E : normalizeDigits (stripWeirdSpaces s)
              = map (fun ch => (ch - 1632 + 48)%N) s).
  { unfold normalizeDigits, stripWeirdSpaces. rewrite map_map.
    apply map_ext_in. intros ch Hin. rewrite Forall_forall in Hall.
    apply normalize_arabicIndic_digit. apply Hall. apply list_elem_of_In. exact Hin. }
  rewrite E. clear E.
  assert (G : forall l acc, Forall (fun ch => (1632 <= ch <= 1641)%N) l ->
            digitsValue acc (map (fun ch => (ch - 1632 + 48)%N) l)
            = fold_left (fun acc ch => 10 * acc + (Z.of_N ch - 1632)) l acc).
  { induction l as [| ch l IH]; intros acc Hl; [reflexivity |].
    inversion Hl as [| ? ? Hch Hl']; subst. cbn [map digitsValue fold_left].
    replace (isDigit (ch - 1632 + 48)) with true
      by (symmetry; unfold isDigit; rewrite andb_true_iff, !N.leb_le; lia).
    rewrite IH by exact Hl'. f_equal. lia. }
  destruct s as [| a s]; [simpl in Hlen; lia |].
  inversion Hall as [| ? ? Ha Hs]; subst.
  cbn [map]. rewrite parseInt_digit_head
    by (unfold isDigit; rewrite andb_true_iff, !N.leb_le; lia).
  f_equal. apply (G (a :: s) 0 Hall).
Qed.

Lemma normalizeDigits_value_witness :
  parseInt (normalizeDigits (stripWeirdSpaces [1634%N; 1632%N; 1634%N; 1637%N]))
  = Some 2025.
Proof.
  apply (normalizeDigits_value [1634%N; 1632%N; 1634%N; 1637%N]).
  - repeat constructor; lia.
  - simpl. lia.
Defined.

(** ** The fields of a parsed line *)

(** [parseInt] of one or two digits. *)
Lemma parseInt_two_digits g :
  forallb isDigit g = true -> (1 <= length g <= 2)%nat ->
  exists v, parseInt g = Some v /\ 0 <= v <= 99.
Proof.
  intros Hall Hlen.
  destruct g as [| a g]; [simpl in Hlen; lia |].
  simpl in Hall. apply andb_true_iff in Hall. destruct Hall as [Ha Hall].
  rewrite (parseInt_digit_head a g Ha). eexists. split; [reflexivity |].
  pose proof (isDigit_value a Ha) as Va.
  simpl digitsValue. rewrite Ha.
  destruct g as [| b g]; [simpl; lia |].
  simpl in Hall. apply andb_true_iff in Hall. destruct Hall as [Hb Hall].
  pose proof (isDigit_value b Hb) as Vb. simpl digitsValue. rewrite Hb.
  destruct g as [| c g]; [simpl; lia | simpl in Hlen; lia].
Qed.

(** The groups of a line that matches [LINE_RE]. *)
Lemma LINE_RE_groups line m :
  matchAtStart LINE_RE line = Some m ->
  exists g1 g2 g3 g4 g5 g7,
    capture 1 m = Some g1 /\ forallb isDigit g1 = true /\ (1 <= length g1 <= 2)%nat /\
    capture 2 m = Some g2 /\ forallb isDigit g2 = true /\ (1 <= length g2 <= 2)%nat /\
    capture 3 m = Some g3 /\ forallb isDigit g3 = true /\ (2 <= length g3 <= 4)%nat /\
    capture 4 m = Some g4 /\ forallb isDigit g4 = true /\ (1 <= length g4 <= 2)%nat /\
    capture 5 m = Some g5 /\ forallb isDigit g5 = true /\ (2 <= length g5 <= 2)%nat /\
    capture 7 m = Some g7 /\ forallb anyChar g7 = true /\
    (exists pre, line = pre ++ g7).
Proof.
  unfold matchAtStart. intros H. apply run_sound in H.
  destruct H as (s1 & s2 & c' & Hline & D & H). inversion H; subst c'. clear H.
  unfold LINE_RE in D. cbn [denoteC] in D.
  repeat match type of D with
         | exists _, _ => destruct D as [? D]
         | _ /\ _ => let H := fresh "H" in destruct D as [H D]
         end.
  repeat match goal with
         | H : exists _, _ |- _ => destruct H
         | H : _ /\ _ |- _ => destruct H
         | H : _ \/ _ |- _ => destruct H
         end; subst;
    (do 6 eexists; repeat (split; [first [reflexivity | eassumption | (split; eassumption)] |]);
     rewrite ?app_nil_r, ?app_assoc; eexists; reflexivity).
Qed.

(** The steps of a successful [parseLine]. *)
Lemma parseLine_inv tz line order msg :
  parseLine tz line order = Some msg ->
  exists m n1 n2 year0 hour0 minute,
    matchAtStart LINE_RE line = Some m /\
    parseIntGroup m 1 = Some n1 /\ parseIntGroup m 2 = Some n2 /\
    parseIntGroup m 3 = Some year0 /\ parseIntGroup m 4 = Some hour0 /\
    parseIntGroup m 5 = Some minute /\
    let ampm := toUpperCase (default [] (capture 6 m)) in
    let rest := default [] (capture 7 m) in
    let year := if year0 <? 100 then year0 + 2000 else year0 in
    let hour :=
      if bool_decide (ampm = js "AM") && (hour0 =? 12) then 0
      else if bool_decide (ampm = js "PM") && (hour0 <? 12) then hour0 + 12
      else hour0 in
    checkedTimestamp tz year (fst (monthAndDay order n1 n2))
      (snd (monthAndDay order n1 n2)) hour minute = Some (ts msg) /\
    msg = match indexOfColonSpace rest with
          | Some idx => {| ts := ts msg; sender := Some (trim (take idx rest));
                           text := drop (idx + 2) rest |}
          | None => {| ts := ts msg; sender := None; text := trim rest |}
          end.
Proof.
  unfold parseLine. intros H.
  destruct (matchAtStart LINE_RE line) as [m |] eqn:M; [| discriminate].
  simpl in H.
  destruct (parseIntGroup m 1) as [n1 |] eqn:P1; [| discriminate]. simpl in H.
  destruct (parseIntGroup m 2) as [n2 |] eqn:P2; [| discriminate]. simpl in H.
  destruct (parseIntGroup m 3) as [year0 |] eqn:P3; [| discriminate]. simpl in H.
  destruct (parseIntGroup m 4) as [hour0 |] eqn:P4; [| discriminate]. simpl in H.
  destruct (parseIntGroup m 5) as [minute |] eqn:P5; [| discriminate]. simpl in H.
  exists m, n1, n2, year0, hour0, minute.
  repeat (split; [reflexivity |]). cbv zeta.
  destruct (monthAndDay order n1 n2) as [month dayN] eqn:MD. cbn [fst snd].
  assert (Ehour :
    (if bool_decide (toUpperCase (default [] (capture 6 m)) = js "PM")
        && ((if bool_decide (toUpperCase (default [] (capture 6 m)) = js "AM")
                && (hour0 =? 12) then 0 else hour0) <? 12)
     then (if bool_decide (toUpperCase (default [] (capture 6 m)) = js "AM")
              && (hour0 =? 12) then 0 else hour0) + 12
     else (if bool_decide (toUpperCase (default [] (capture 6 m)) = js "AM")
              && (hour0 =? 12) then 0 else hour0))
    = (if bool_decide (toUpperCase (default [] (capture 6 m)) = js "AM")
          && (hour0 =? 12) then 0
       else if bool_decide (toUpperCase (default [] (capture 6 m)) = js "PM")
               && (hour0 <? 12) then hour0 + 12
       else hour0)).
  { destruct (bool_decide (toUpperCase (default [] (capture 6 m)) = js "AM")) eqn:A;
      [| reflexivity].
    apply bool_decide_eq_true in A. rewrite A.
    destruct (hour0 =? 12); reflexivity. }
  rewrite <- Ehour.
  match type of H with
  | context [checkedTimestamp tz ?y ?mo ?d ?h ?mi] =>
      destruct (checkedTimestamp tz y mo d h mi) as [t |] eqn:C; [| discriminate]
  end.
  simpl in H.
  destruct (indexOfColonSpace (default [] (capture 7 m))) as [idx |];
    inversion H; subst; simpl; repeat split; first [assumption | reflexivity].
Qed.

Lemma checkedTimestamp_Some tz y m d hh mm dt :
  checkedTimestamp tz y m d hh mm = Some dt ->
  (1 <= m <= 12 /\ 1 <= d <= 31 /\ 0 <= hh <= 23 /\ 0 <= mm <= 59) /\
  newDate tz y (m - 1) d hh mm 0 0 = Some dt /\
  getFullYear tz dt = y /\ getMonth tz dt = m - 1 /\ getDate tz dt = d /\
  getHours tz dt = hh /\ getMinutes tz dt = mm.
Proof.
  unfold checkedTimestamp.
  destruct ((m <? 1) || (m >? 12) || (d <? 1) || (d >? 31) || (hh <? 0)
            || (hh >? 23) || (mm <? 0) || (mm >? 59)) eqn:E; [discriminate |].
  rewrite !orb_false_iff in E. intros H.
  apply makeStrictLocalDate_Some in H. split; [lia | exact H].
Qed.

(** X4: when a line matches the grammar, its five numeric groups all parse:
    the two date fields, the hour and the minute to numbers from 0 to 99, the
    year to a number from 0 to 9999.  The [isFinite] guard of [parseLine]
    never fires on a matching line. *)
Theorem LINE_RE_numbers line m :
  matchAtStart LINE_RE line = Some m ->
  exists n1 n2 year hour minute,
    parseIntGroup m 1 = Some n1 /\ 0 <= n1 <= 99 /\
    parseIntGroup m 2 = Some n2 /\ 0 <= n2 <= 99 /\
    parseIntGroup m 3 = Some year /\ 0 <= year <= 9999 /\
    parseIntGroup m 4 = Some hour /\ 0 <= hour <= 99 /\
    parseIntGroup m 5 = Some minute /\ 0 <= minute <= 99.
Proof.
  intros H. apply LINE_RE_groups in H.
  destruct H as (g1 & g2 & g3 & g4 & g5 & g7 & C1 & D1 & L1 & C2 & D2 & L2
                 & C3 & D3 & L3 & C4 & D4 & L4 & C5 & D5 & L5 & _).
  destruct (parseInt_two_digits g1 D1 L1) as (n1 & P1 & R1).
  destruct (parseInt_two_digits g2 D2 L2) as (n2 & P2 & R2).
  destruct (parseInt_digits g3 D3) as (y & P3 & R3); [lia |].
  destruct (parseInt_two_digits g4 D4 L4) as (h & P4 & R4).
  destruct (parseInt_two_digits g5 D5) as (mi & P5 & R5); [lia |].
  exists n1, n2, y, h, mi. unfold parseIntGroup.
  rewrite C1, C2, C3, C4, C5. simpl. auto 20.
Qed.

Lemma LINE_RE_numbers_witness :
  exists m,
    matchAtStart LINE_RE (js "31/4/2025, 10:00 - A: hi") = Some m /\
    parseIntGroup m 1 = Some 31 /\ parseIntGroup m 2 = Some 4 /\
    parseIntGroup m 3 = Some 2025 /\
    parseIntGroup m 4 = Some 10 /\ parseIntGroup m 5 = Some 0.
Proof.
  destruct (matchAtStart LINE_RE (js "31/4/2025, 10:00 - A: hi")) as [m |] eqn:M;
    [| vm_compute in M; discriminate].
  destruct (LINE_RE_numbers (js "31/4/2025, 10:00 - A: hi") m M)
    as (n1 & n2 & y & h & mi & P1 & _ & P2 & _ & P3 & _ & P4 & _ & P5 & _).
  exists m. split; [reflexivity |].
  rewrite P1, P2, P3, P4, P5.
  vm_compute in M. injection M as <-.
  vm_compute in P1, P2, P3, P4, P5.
  injection P1 as <-. injection P2 as <-. injection P3 as <-.
  injection P4 as <-. injection P5 as <-.
  repeat split; reflexivity.
Defined.

(** X5: the date of a parsed line.  Under MDY the first field is the month
    and the second the day, under DMY the other way round; a year below 100
    is taken as 2000 plus that year; and the local date of the timestamp is
    that very date, a real calendar date (the day within the month's
    length). *)
Theorem parseLine_date tz line order msg :
  parseLine tz line order = Some msg ->
  exists m n1 n2 year0,
    matchAtStart LINE_RE line = Some m /\
    parseIntGroup m 1 = Some n1 /\ parseIntGroup m 2 = Some n2 /\
    parseIntGroup m 3 = Some year0 /\
    (getMonth tz (ts msg) + 1, getDate tz (ts msg)) = monthAndDay order n1 n2 /\
    getFullYear tz (ts msg) = (if year0 <? 100 then year0 + 2000 else year0) /\
    1 <= getMonth tz (ts msg) + 1 <= 12 /\
    1 <= getDate tz (ts msg)
      <= daysInMonth (getFullYear tz (ts msg)) (getMonth tz (ts msg) + 1).
Proof.
  intros H. apply parseLine_inv in H.
  destruct H as (m & n1 & n2 & y0 & h0 & mi & M & P1 & P2 & P3 & _ & _ & H).
  cbv zeta in H. destruct H as [C _].
  apply checkedTimestamp_Some in C.
  destruct C as (R & _ & HY & HM & HD & _).
  exists m, n1, n2, y0. repeat (split; [assumption |]).
  split; [| split; [exact HY | split]].
  - rewrite HM, HD. destruct (monthAndDay order n1 n2). simpl. f_equal. lia.
  - rewrite HM. lia.
  - unfold getDate, getFullYear, getMonth, DateFromTime, YearFromTime, MonthFromTime.
    apply DateFromDay_range.
Qed.

Lemma parseLine_date_witness :
  exists msg,
    parseLine sampleZone (js "30/4/2025, 10:00 - A: hi") dmy = Some msg /\
    (getMonth sampleZone (ts msg) + 1, getDate sampleZone (ts msg)) = (4, 30) /\
    getFullYear sampleZone (ts msg) = 2025.
Proof.
  destruct (parseLine sampleZone (js "30/4/2025, 10:00 - A: hi") dmy) as [msg |] eqn:P;
    [| vm_compute in P; discriminate].
  destruct (parseLine_date sampleZone (js "30/4/2025, 10:00 - A: hi") dmy msg P)
    as (m & n1 & n2 & y0 & M & P1 & P2 & P3 & H & HY & _).
  vm_compute in M. inversion M; subst m. clear M.
  vm_compute in P1, P2, P3. inversion P1; inversion P2; inversion P3; subst.
  exists msg. split; [reflexivity |]. split; [exact H | exact HY].
Defined.

Lemma parseLine_minute tz line order msg :
  parseLine tz line order = Some msg -> (ts msg + tz) mod msPerMinute = 0.
Proof.
  intros H. apply parseLine_inv in H.
  destruct H as (m & n1 & n2 & y0 & h0 & mi & _ & _ & _ & _ & _ & _ & H).
  cbv zeta in H. destruct H as [C _].
  apply checkedTimestamp_Some in C. destruct C as (_ & N & _).
  unfold newDate in N. cbv zeta in N. apply TimeClip_Some in N.
  change (ts msg + tz) with (LocalTime tz (ts msg)).
  rewrite N, LocalTime_UTC.
  unfold MakeDate, MakeTime, msPerDay, msPerHour, msPerMinute, msPerSecond.
  Z.to_euclidean_division_equations. lia.
Qed.

(** X6: the time of day of a parsed line.  With an AM marker 12 reads as
    0, with a PM marker an hour below 12 is moved 12 hours on, and otherwise
    the hour stands as written; the local hour and minute of the timestamp
    are those values, the hour from 0 to 23 and the minute from 0 to 59; the
    seconds and milliseconds are 0. *)
Theorem parseLine_time tz line order msg :
  parseLine tz line order = Some msg ->
  exists m hour0 minute,
    matchAtStart LINE_RE line = Some m /\
    parseIntGroup m 4 = Some hour0 /\ parseIntGroup m 5 = Some minute /\
    let ampm := toUpperCase (default [] (capture 6 m)) in
    getHours tz (ts msg)
    = (if bool_decide (ampm = js "AM") && (hour0 =? 12) then 0
       else if bool_decide (ampm = js "PM") && (hour0 <? 12) then hour0 + 12
       else hour0) /\
    getMinutes tz (ts msg) = minute /\
    0 <= getHours tz (ts msg) <= 23 /\ 0 <= minute <= 59 /\
    LocalTime tz (ts msg) mod msPerMinute = 0.
Proof.
  intros H. pose proof (parseLine_minute tz line order msg H) as Hmin.
  apply parseLine_inv in H.
  destruct H as (m & n1 & n2 & y0 & h0 & mi & M & _ & _ & _ & P4 & P5 & H).
  cbv zeta in H. destruct H as [C _].
  apply checkedTimestamp_Some in C.
  destruct C as (R & N & _ & _ & _ & HH & HMi).
  exists m, h0, mi. split; [exact M |]. split; [exact P4 |]. split; [exact P5 |].
  cbv zeta.
  split; [exact HH |]. split; [exact HMi |]. split; [rewrite HH; lia |].
  split; [lia | exact Hmin].
Qed.

Lemma parseLine_time_witness :
  exists msg,
    parseLine sampleZone (js "1/2/25, 12:05 AM - A: y") mdy = Some msg /\
    getHours sampleZone (ts msg) = 0 /\ getMinutes sampleZone (ts msg) = 5.
Proof.
  destruct (parseLine sampleZone (js "1/2/25, 12:05 AM - A: y") mdy) as [msg |] eqn:P;
    [| vm_compute in P; discriminate].
  destruct (parseLine_time sampleZone (js "1/2/25, 12:05 AM - A: y") mdy msg P)
    as (m & h0 & mi & M & P4 & P5 & H).
  cbv zeta in H. destruct H as (HH & HM & _).
  exists msg. split; [reflexivity |]. rewrite HH, HM.
  vm_compute in M. injection M as <-.
  vm_compute in P4, P5. injection P4 as <-. injection P5 as <-.
  split; reflexivity.
Defined.

Lemma indexOfColonSpace_cons c s :
  indexOfColonSpace (c :: s)
  = if (c =? 58)%N && match s with d :: _ => (d =? 32)%N | [] => false end
    then Some O else S <$> indexOfColonSpace s.
Proof.
  destruct (N.eqb_spec c 58) as [-> | Hc].
  - destruct s as [| d s]; [reflexivity |].
    destruct (N.eqb_spec d 32) as [-> | Hd]; [reflexivity |].
    destruct d as [| p]; [reflexivity |].
    do 6 (destruct p as [p | p |]; try reflexivity). congruence.
  - destruct c as [| p]; [reflexivity |].
    do 6 (destruct p as [p | p |]; try reflexivity). congruence.
Qed.

Lemma hasColonSpace_cons c s :
  hasColonSpace (c :: s) <->
  (c = 58%N /\ exists b, s = 32%N :: b) \/ hasColonSpace s.
Proof.
  unfold hasColonSpace. split.
  - intros (a & b & E). destruct a as [| x a]; simpl in E; inversion E; subst.
    + left. eauto.
    + right. eauto.
  - intros [[-> [b ->]] | (a & b & ->)].
    + exists [], b. reflexivity.
    + exists (c :: a), b. reflexivity.
Qed.

Lemma indexOfColonSpace_spec s :
  match indexOfColonSpace s with
  | None => ~ hasColonSpace s
  | Some i =>
      s = take i s ++ 58%N :: 32%N :: drop (i + 2) s /\
      ~ hasColonSpace (take i s ++ [58%N])
  end.
Proof.
  induction s as [| c s IH].
  - simpl. intros (a & b & E). destruct a; discriminate.
  - rewrite indexOfColonSpace_cons.
    destruct ((c =? 58)%N && match s with d :: _ => (d =? 32)%N | [] => false end) eqn:E.
    + apply andb_true_iff in E. destruct E as [Ec Ed]. apply N.eqb_eq in Ec. subst c.
      destruct s as [| d s]; [discriminate |]. apply N.eqb_eq in Ed. subst d.
      simpl. split; [reflexivity |].
      intros (a & b & E). destruct a as [| x a]; [discriminate |].
      destruct a; discriminate.
    + assert (Hhead : ~ (c = 58%N /\ exists b, s = 32%N :: b)).
      { intros [-> [b ->]]. simpl in E. discriminate. }
      destruct (indexOfColonSpace s) as [i |]; simpl.
      * destruct IH as [IH1 IH2]. split; [f_equal; exact IH1 |].
        rewrite hasColonSpace_cons. intros [[-> [b Hb]] | H]; [| exact (IH2 H)].
        apply Hhead. split; [reflexivity |].
        destruct i as [| i].
        -- simpl in Hb. discriminate.
        -- destruct s as [| d s]; [simpl in Hb; discriminate |].
           simpl in Hb. inversion Hb; subst. eauto.
      * rewrite hasColonSpace_cons. tauto.
Qed.

(** X7: the sender and the text of a parsed line.  The rest of the line
    after the separator is split at its first colon followed by a space: the
    sender is what precedes it, trimmed, and the text is what follows it,
    untrimmed, further colons included.  Without such a colon the line has no
    sender and the text is the rest, trimmed. *)
Theorem parseLine_sender_text tz line order msg :
  parseLine tz line order = Some msg ->
  exists m rest,
    matchAtStart LINE_RE line = Some m /\ capture 7 m = Some rest /\
    (exists pre, line = pre ++ rest) /\
    ((~ hasColonSpace rest /\ sender msg = None /\ text msg = trim rest) \/
     (exists name,
        rest = name ++ 58%N :: 32%N :: text msg /\
        ~ hasColonSpace (name ++ [58%N]) /\
        sender msg = Some (trim name))).
Proof.
  intros H. apply parseLine_inv in H.
  destruct H as (m & n1 & n2 & y0 & h0 & mi & M & _ & _ & _ & _ & _ & H).
  cbv zeta in H. destruct H as [_ Hmsg].
  destruct (LINE_RE_groups line m M)
    as (g1 & g2 & g3 & g4 & g5 & g7 & _ & _ & _ & _ & _ & _ & _ & _ & _ & _ & _ & _
        & _ & _ & _ & C7 & _ & Hpre).
  exists m, g7. split; [exact M |]. split; [exact C7 |]. split; [exact Hpre |].
  rewrite C7 in Hmsg. simpl in Hmsg.
  pose proof (indexOfColonSpace_spec g7) as S.
  destruct (indexOfColonSpace g7) as [i |].
  - right. exists (take i g7). destruct S as [S1 S2].
    rewrite Hmsg. simpl. split; [exact S1 | split; [exact S2 | reflexivity]].
  - left. rewrite Hmsg. simpl. auto.
Qed.

Lemma parseLine_sender_text_witness :
  exists msg,
    parseLine sampleZone (js "9/28/25, 10:20 AM - Name: a: b") mdy = Some msg /\
    sender msg = Some (js "Name") /\ text msg = js "a: b".
Proof.
  destruct (parseLine sampleZone (js "9/28/25, 10:20 AM - Name: a: b") mdy)
    as [msg |] eqn:P; [| vm_compute in P; discriminate].
  destruct (parseLine_sender_text sampleZone _ mdy msg P)
    as (m & rest & M & C7 & _ & _).
  exists msg. split; [reflexivity |].
  vm_compute in P. inversion P. split; reflexivity.
Defined.

(** ** Trimming and the chat parser *)

Lemma skipSpaces_spec s :
  exists l, s = l ++ skipSpaces s /\ forallb isSpace l = true /\
            match skipSpaces s with ch :: _ => (isSpace ch = false) | [] => True end.
Proof.
  induction s as [| ch s (l & E & Hl & Hh)]; [exists []; repeat split |].
  simpl. destruct (isSpace ch) eqn:W.
  - exists (ch :: l). simpl. rewrite W, Hl. split; [f_equal; exact E | auto].
  - exists []. simpl. repeat split; auto.
Qed.

Lemma skipSpaces_id s :
  match s with ch :: _ => (isSpace ch = false) | [] => True end -> skipSpaces s = s.
Proof. destruct s as [| ch s]; [reflexivity |]. simpl. intros ->. reflexivity. Qed.

(** [trim] removes a run of white space at each end and nothing else. *)
Lemma trim_spec s :
  exists l r,
    s = l ++ trim s ++ r /\
    forallb isSpace l = true /\ forallb isSpace r = true /\
    match trim s with ch :: _ => (isSpace ch = false) | [] => True end /\
    match reverse (trim s) with ch :: _ => (isSpace ch = false) | [] => True end /\
    trim (trim s) = trim s.
Proof.
  unfold trim.
  destruct (skipSpaces_spec s) as (l & E1 & Hl & Hh).
  destruct (skipSpaces_spec (reverse (skipSpaces s))) as (r' & E2 & Hr & Hh2).
  set (u := skipSpaces (reverse (skipSpaces s))) in *.
  assert (E3 : skipSpaces s = reverse u ++ reverse r').
  { rewrite <- reverse_app, <- E2, reverse_involutive. reflexivity. }
  assert (Hhead : match reverse u with ch :: _ => (isSpace ch = false) | [] => True end).
  { destruct (reverse u) as [| c t] eqn:R; [exact I |].
    rewrite E3 in Hh. simpl in Hh. exact Hh. }
  exists l, (reverse r'). split; [rewrite <- E3; exact E1 |].
  split; [exact Hl |]. split.
  { rewrite forallb_forall in Hr. apply forallb_forall. intros x Hx. apply Hr.
    apply list_elem_of_In. apply list_elem_of_In in Hx.
    rewrite elem_of_reverse in Hx. exact Hx. }
  split; [exact Hhead |]. split; [rewrite reverse_involutive; exact Hh2 |].
  rewrite (skipSpaces_id (reverse u) Hhead), reverse_involutive.
  rewrite (skipSpaces_id u Hh2). reflexivity.
Qed.

Lemma parseStep_fold tz order lines : forall ms rj,
  (length rj <= 5)%nat ->
  fold_left (parseStep tz order) lines (ms, rj)
  = (ms ++ parsedLines tz order lines,
     rj ++ take (5 - length rj)
             (List.filter (rejectedLine tz order) (map normalizeLine lines))).
Proof.
  induction lines as [| raw lines IH]; intros ms rj Hrj.
  - simpl. rewrite take_nil, !app_nil_r. reflexivity.
  - assert (H1 : parsedLines tz order (raw :: lines)
                 = match parseLine tz (normalizeLine raw) order with
                   | Some msg => msg :: parsedLines tz order lines
                   | None => parsedLines tz order lines
                   end) by reflexivity.
    assert (H2 : List.filter (rejectedLine tz order) (map normalizeLine (raw :: lines))
                 = if rejectedLine tz order (normalizeLine raw)
                   then normalizeLine raw
                        :: List.filter (rejectedLine tz order) (map normalizeLine lines)
                   else List.filter (rejectedLine tz order) (map normalizeLine lines))
      by reflexivity.
    assert (H3 : parseStep tz order (ms, rj) raw
                 = match parseLine tz (normalizeLine raw) order with
                   | Some msg => (ms ++ [msg], rj)
                   | None =>
                       if rejectedLine tz order (normalizeLine raw)
                          && (length rj <? 5)%nat
                       then (ms, rj ++ [normalizeLine raw]) else (ms, rj)
                   end).
    { unfold parseStep, rejectedLine. fold (normalizeLine raw).
      destruct (parseLine tz (normalizeLine raw) order); reflexivity. }
    rewrite H1, H2. cbn [fold_left]. rewrite H3. clear H1 H2 H3.
    unfold rejectedLine at 1 2.
    destruct (parseLine tz (normalizeLine raw) order) as [msg |] eqn:P.
    + rewrite IH by exact Hrj. rewrite <- app_assoc. reflexivity.
    + destruct (bool_decide (is_Some (matchAtStart LINE_RE (normalizeLine raw))));
        cbn [andb].
      * destruct (length rj <? 5)%nat eqn:L.
        -- apply Nat.ltb_lt in L. rewrite IH by (rewrite length_app; simpl; lia).
           f_equal. rewrite <- app_assoc. f_equal. rewrite length_app. simpl.
           replace (5 - length rj)%nat with (S (5 - (length rj + 1))) by lia.
           reflexivity.
        -- apply Nat.ltb_ge in L. rewrite IH by exact Hrj.
           replace (5 - length rj)%nat with O by lia. reflexivity.
      * rewrite IH by exact Hrj. reflexivity.
Qed.

(** X8: the rejected examples of the chat parser are the first five, in the
    order of the file, of the normalised lines that match the grammar and
    yet do not parse; there are never more than five, and the date order
    used is the detected one. *)
Theorem parseChat_rejected tz fm fd lines :
  let chat := parseChat tz fm fd lines in
  dateOrder chat = detectDateOrder fm fd lines /\
  rejected chat
  = take 5 (List.filter (rejectedLine tz (dateOrder chat)) (map normalizeLine lines)) /\
  (length (rejected chat) <= 5)%nat /\
  Forall (fun line => parseLine tz line (dateOrder chat) = None /\
                      is_Some (matchAtStart LINE_RE line)) (rejected chat).
Proof.
  cbv zeta. unfold parseChat. cbv zeta. cbn [dateOrder rejected].
  rewrite parseStep_fold by (simpl; lia). cbn [snd app length].
  split; [reflexivity |]. split; [reflexivity |]. split.
  - rewrite length_take. lia.
  - rewrite Forall_forall. intros line Hin.
    apply elem_of_take in Hin. destruct Hin as (i & Hi & _).
    apply list_elem_of_lookup_2 in Hi. apply list_elem_of_In in Hi.
    apply filter_In in Hi. destruct Hi as [_ Hr]. unfold rejectedLine in Hr.
    destruct (parseLine tz line _); [discriminate |].
    split; [reflexivity |]. apply bool_decide_eq_true in Hr. exact Hr.
Qed.

Lemma chronological_head_le (a : Z) l x :
  chronological (a :: l) -> In x l -> a <= x.
Proof.
  revert a. induction l as [| b l IH]; intros a H Hin; [destruct Hin |].
  apply chronological_cons in H. destruct H as [Hab H].
  destruct Hin as [<- | Hin]; [exact Hab |].
  specialize (IH b H Hin). lia.
Qed.

Lemma insertByTs_perm m l : Permutation (insertByTs m l) (m :: l).
Proof.
  induction l as [| x l IH]; simpl; [reflexivity |].
  destruct (ts m <? ts x); [reflexivity |].
  rewrite IH. apply perm_swap.
Qed.

Lemma insertByTs_atTime m l t :
  chronological (map ts l) ->
  atTime t (insertByTs m l) = atTime t l ++ atTime t [m].
Proof.
  unfold atTime. induction l as [| x l IH]; intros Hch; [reflexivity |].
  simpl insertByTs. destruct (ts m <? ts x) eqn:E.
  - apply Z.ltb_lt in E. cbn [List.filter].
    destruct (ts m =? t) eqn:Em; [| rewrite app_nil_r; reflexivity].
    apply Z.eqb_eq in Em.
    assert (Hnone : List.filter (fun m0 => ts m0 =? t) (x :: l) = []).
    { rewrite (filter_ext_in _ (fun _ => false)); [apply filter_false |].
      intros y Hy. apply Z.eqb_neq.
      assert (ts x <= ts y); [| lia].
      destruct Hy as [<- | Hy]; [lia |].
      rewrite map_cons in Hch. eapply chronological_head_le; [exact Hch |].
      apply in_map. exact Hy. }
    cbn [List.filter] in Hnone. rewrite Hnone. reflexivity.
  - cbn [List.filter]. rewrite IH by (eapply chronological_tail; exact Hch).
    destruct (ts x =? t); reflexivity.
Qed.

Lemma sortByTs_stable l :
  Permutation (sortByTs l) l /\ forall t, atTime t (sortByTs l) = atTime t l.
Proof.
  unfold sortByTs.
  assert (G : forall acc,
            chronological (map ts acc) ->
            Permutation (fold_left (fun a m => insertByTs m a) l acc) (acc ++ l) /\
            forall t, atTime t (fold_left (fun a m => insertByTs m a) l acc)
                      = atTime t acc ++ atTime t l).
  { induction l as [| m l IH]; intros acc Hacc; cbn [fold_left].
    - rewrite app_nil_r. split; [reflexivity |]. intros t. unfold atTime.
      simpl. rewrite app_nil_r. reflexivity.
    - destruct (IH (insertByTs m acc) (insertByTs_chronological m acc Hacc))
        as [H1 H2].
      split.
      + rewrite H1, insertByTs_perm. simpl.
        apply Permutation_middle.
      + intros t. rewrite H2, insertByTs_atTime by exact Hacc.
        rewrite <- app_assoc. f_equal. unfold atTime. cbn [List.filter].
        destruct (ts m =? t); reflexivity. }
  destruct (G [] I) as [H1 H2]. split; [exact H1 | exact H2].
Qed.

(** X9: the messages of the chat parser are exactly the messages of the
    lines that parse, none lost and none added, in the order of their
    timestamps; messages with the same timestamp keep the order of their
    lines. *)
Theorem parseChat_sorted tz fm fd lines :
  let chat := parseChat tz fm fd lines in
  let parsed := parsedLines tz (detectDateOrder fm fd lines) lines in
  Permutation (msgs chat) parsed /\
  chronological (map ts (msgs chat)) /\
  (forall t, atTime t (msgs chat) = atTime t parsed).
Proof.
  cbv zeta. unfold parseChat. cbv zeta. cbn [msgs].
  rewrite parseStep_fold by (simpl; lia). cbn [fst app].
  destruct (sortByTs_stable (parsedLines tz (detectDateOrder fm fd lines) lines))
    as [H1 H2].
  split; [exact H1 |]. split; [| exact H2].
  apply sortByTs_spec.
Qed.

(** ** Sessions *)

Lemma separated_cons th s1 s2 tl :
  separated th (s1 :: s2 :: tl) <-> th <= start s2 - end_ s1 /\ separated th (s2 :: tl).
Proof. reflexivity. Qed.

Lemma gapsBelow_cons th a b tl :
  gapsBelow th (a :: b :: tl) <-> b - a < th /\ gapsBelow th (b :: tl).
Proof. reflexivity. Qed.

Lemma groupLoop_head th prev rest cur :
  exists s0 tl, groupLoop th prev rest cur [] = s0 :: tl /\ start s0 = start cur.
Proof.
  revert prev cur. induction rest as [| m rest IH]; intros prev cur.
  - simpl. eauto.
  - simpl. destruct (ts m - ts prev <? th).
    + destruct (IH m {| start := start cur; end_ := ts m; count := count cur + 1 |})
        as (s0 & tl & E & Hs). eauto.
    + rewrite groupLoop_out. simpl. eauto.
Qed.

Lemma groupLoop_separated th prev rest cur :
  chronological (ts prev :: map ts rest) ->
  end_ cur = ts prev ->
  0 <= end_ cur - start cur <= (count cur - 1) * (th - 1) ->
  1 <= count cur ->
  let ss := groupLoop th prev rest cur [] in
  Forall (fun s => 1 <= count s /\
                   0 <= end_ s - start s <= (count s - 1) * (th - 1)) ss /\
  separated th ss.
Proof.
  revert prev cur. induction rest as [| m rest IH];
    intros prev cur Hch Hend Hdur Hc; cbv zeta.
  - simpl. split; [repeat constructor; lia | exact I].
  - rewrite map_cons in Hch. apply chronological_cons in Hch.
    destruct Hch as [Hpm Hch]. simpl groupLoop.
    destruct (ts m - ts prev <? th) eqn:E.
    + apply Z.ltb_lt in E.
      apply (IH m {| start := start cur; end_ := ts m; count := count cur + 1 |}).
      * exact Hch.
      * reflexivity.
      * simpl. nia.
      * simpl. lia.
    + apply Z.ltb_ge in E. rewrite groupLoop_out. simpl app.
      destruct (IH m (newSession m) Hch) as [H1 H2];
        [reflexivity | simpl; lia | simpl; lia |].
      split; [constructor; [lia | exact H1] |].
      destruct (groupLoop_head th m rest (newSession m)) as (s0 & tl & Es & Hs).
      rewrite Es in *. apply separated_cons. split; [| exact H2].
      simpl in Hs. lia.
Qed.

(** X10: in a time-sorted chat, the end of a session and the start of the
    next are at least the threshold apart; a session of [n] messages spans
    at most [n - 1] gaps, each below the threshold; and a session of one
    message has no duration. *)
Theorem groupSessions_runs msgs gapMin :
  chronological (map ts msgs) ->
  let th := gapMin * 60 * 1000 in
  let ss := groupSessions msgs gapMin in
  Forall (fun s => 0 <= end_ s - start s <= (count s - 1) * (th - 1)) ss /\
  Forall (fun s => count s = 1 -> start s = end_ s) ss /\
  separated th ss.
Proof.
  intros Hch. cbv zeta. destruct msgs as [| m0 rest].
  - simpl. repeat split; constructor.
  - unfold groupSessions.
    destruct (groupLoop_separated (gapMin * 60 * 1000) m0 rest (newSession m0))
      as [H1 H2]; simpl; try lia; [exact Hch |].
    split; [| split; [| exact H2]].
    + eapply Forall_impl; [exact H1 |]. simpl. intros s Hs. lia.
    + eapply Forall_impl; [exact H1 |]. simpl. intros s [_ Hs] Hone.
      rewrite Hone in Hs. lia.
Qed.

Lemma groupSessions_runs_witness :
  separated (3 * 60 * 1000) (groupSessions [msgAt t2358; msgAt t0000; msgAt t0005] 3).
Proof.
  destruct (groupSessions_runs [msgAt t2358; msgAt t0000; msgAt t0005] 3)
    as (_ & _ & H).
  - unfold t2358, t0000, t0005. simpl. lia.
  - exact H.
Defined.

Lemma last_cons_default (z : Z) l d d' : List.last (z :: l) d = List.last (z :: l) d'.
Proof.
  revert z. induction l as [| y l IH]; intros z; [reflexivity |].
  change (List.last (y :: l) d = List.last (y :: l) d'). apply IH.
Qed.

Lemma groupLoop_close th prev rest cur :
  gapsBelow th (ts prev :: map ts rest) ->
  groupLoop th prev rest cur []
  = [ {| start := start cur;
         end_ := List.last (map ts rest) (end_ cur);
         count := count cur + Z.of_nat (length rest) |} ].
Proof.
  revert prev cur. induction rest as [| m rest IH]; intros prev cur H.
  - simpl. destruct cur; simpl. rewrite Z.add_0_r. reflexivity.
  - rewrite map_cons in H. apply gapsBelow_cons in H. destruct H as [Hg H].
    simpl groupLoop. apply Z.ltb_lt in Hg. rewrite Hg.
    rewrite (IH m _ H). cbn [start end_ count].
    rewrite map_cons.
    replace (count cur + 1 + Z.of_nat (length rest))
      with (count cur + Z.of_nat (length (m :: rest))) by (simpl length; lia).
    f_equal. f_equal. destruct (map ts rest) eqn:E; [reflexivity |].
    change (List.last (z :: l) (ts m) = List.last (z :: l) (end_ cur)).
    apply last_cons_default.
Qed.

(** X11: when every gap between consecutive messages is below the
    threshold, the whole chat is one session, from the first message to the
    last, counting all the messages. *)
Theorem groupSessions_one_session m0 rest gapMin :
  gapsBelow (gapMin * 60 * 1000) (map ts (m0 :: rest)) ->
  groupSessions (m0 :: rest) gapMin
  = [ {| start := ts m0;
         end_ := List.last (map ts rest) (ts m0);
         count := Z.of_nat (length (m0 :: rest)) |} ].
Proof.
  intros H. unfold groupSessions. rewrite groupLoop_close by exact H.
  cbn [newSession start end_ count]. f_equal. f_equal. simpl length. lia.
Qed.

Lemma groupSessions_one_session_witness :
  groupSessions [msgAt t2358; msgAt t0000; msgAt t0005] 6
  = [ {| start := t2358; end_ := t0005; count := 3 |} ].
Proof.
  apply (groupSessions_one_session (msgAt t2358) [msgAt t0000; msgAt t0005] 6).
  unfold t2358, t0000, t0005. simpl. lia.
Defined.

(** ** Day keys *)

Lemma splitOn_noDash a :
  noDash a = true -> splitOn "-" a = [a].
Proof.
  induction a as [| c a IH]; [reflexivity |].
  simpl. intros H. apply andb_true_iff in H. destruct H as [Hc Ha].
  apply negb_true_iff in Hc. rewrite Hc, (IH Ha). reflexivity.
Qed.

Lemma splitOn_append a b :
  noDash a = true -> splitOn "-" (a +:+ String "-" b) = a :: splitOn "-" b.
Proof.
  induction a as [| c a IH]; [reflexivity |].
  simpl. intros H. apply andb_true_iff in H. destruct H as [Hc Ha].
  apply negb_true_iff in Hc. rewrite Hc.
  change (String.append a (String "-" b)) with (a +:+ String "-" b).
  rewrite (IH Ha). reflexivity.
Qed.

Lemma pretty_N_go_noDash x : forall s, noDash s = true -> noDash (pretty_N_go x s) = true.
Proof.
  induction (N.lt_wf_0 x) as [x _ IH]. intros s Hs.
  assert (Hx : (x = 0 \/ 0 < x)%N) by lia. destruct Hx as [-> | Hx].
  - rewrite pretty_N_go_0. exact Hs.
  - rewrite pretty_N_go_step by exact Hx. apply IH.
    + apply N.div_lt; lia.
    + simpl. rewrite Hs, andb_true_r.
      assert (Hm : (x mod 10 < 10)%N) by (apply N.mod_lt; lia).
      destruct (x mod 10)%N as [| p]; [reflexivity |].
      do 4 (destruct p as [p | p |]; try reflexivity).
Qed.

Lemma pretty_noDash (n : Z) : 0 <= n -> noDash (pretty n) = true.
Proof.
  intros H. destruct n as [| p | p]; [reflexivity | | lia].
  unfold pretty, pretty_Z, pretty, pretty_positive, pretty, pretty_N.
  destruct (decide (N.pos p = 0%N)); [reflexivity |].
  apply pretty_N_go_noDash. reflexivity.
Qed.

Lemma pad2_noDash n : 0 <= n -> noDash (pad2 n) = true.
Proof.
  intros H. unfold pad2. destruct (n <? 10); [| apply pretty_noDash; exact H].
  simpl. apply pretty_noDash. exact H.
Qed.

Lemma pad2_value n : 0 <= n <= 99 -> decimalValue 0 (pad2 n) = n.
Proof.
  intros H. rewrite <- (Z2Nat.id n) by lia.
  assert (Hk : (Z.to_nat n < 100)%nat) by lia.
  generalize dependent (Z.to_nat n). clear. intros k Hk.
  do 100 (destruct k as [| k]; [vm_compute; reflexivity |]). lia.
Qed.

Lemma monthKeyOfDayKey_parts y m d :
  noDash y = true -> noDash m = true ->
  monthKeyOfDayKey (y +:+ "-" +:+ m +:+ "-" +:+ d) = y +:+ "-" +:+ m.
Proof.
  intros Hy Hm. unfold monthKeyOfDayKey. cbv zeta.
  change (y +:+ "-" +:+ m +:+ "-" +:+ d) with (y +:+ String "-" (m +:+ String "-" d)).
  rewrite (splitOn_append y _ Hy), (splitOn_append m _ Hm). reflexivity.
Qed.

Lemma dayKeyOfDay_fields n n' :
  0 <= YearFromDay n -> 0 <= YearFromDay n' ->
  dayKeyOfDay n = dayKeyOfDay n' -> n = n'.
Proof.
  intros Hy Hy' E. unfold dayKeyOfDay in E.
  pose proof (MonthFromDay_range n) as Hm. pose proof (MonthFromDay_range n') as Hm'.
  pose proof (DateFromDay_range n) as Hd. pose proof (DateFromDay_range n') as Hd'.
  assert (Hdim : forall y m, daysInMonth y m <= 31).
  { intros y m. unfold daysInMonth. pose proof (leapDays_range y).
    destruct (m =? 2); [lia |]. destruct ((m =? 4) || (m =? 6) || (m =? 9) || (m =? 11)); lia. }
  pose proof (Hdim (YearFromDay n) (MonthFromDay n + 1)).
  pose proof (Hdim (YearFromDay n') (MonthFromDay n' + 1)).
  apply (f_equal (splitOn "-")) in E.
  change (pretty (YearFromDay n) +:+ "-" +:+ pad2 (MonthFromDay n + 1) +:+ "-"
          +:+ pad2 (DateFromDay n))
    with (pretty (YearFromDay n) +:+ String "-"
            (pad2 (MonthFromDay n + 1) +:+ String "-" (pad2 (DateFromDay n)))) in E.
  change (pretty (YearFromDay n') +:+ "-" +:+ pad2 (MonthFromDay n' + 1) +:+ "-"
          +:+ pad2 (DateFromDay n'))
    with (pretty (YearFromDay n') +:+ String "-"
            (pad2 (MonthFromDay n' + 1) +:+ String "-" (pad2 (DateFromDay n')))) in E.
  rewrite !splitOn_append, !splitOn_noDash in E
    by (first [apply pretty_noDash | apply pad2_noDash]; lia).
  inversion E as [[E1 E2 E3]].
  apply (inj pretty) in E1.
  apply (f_equal (decimalValue 0)) in E2, E3.
  rewrite !pad2_value in E2, E3 by lia.
  rewrite <- (Z.add_0_r n), <- (Z.add_0_r n').
  rewrite <- (MakeDay_fields n 0), <- (MakeDay_fields n' 0).
  rewrite !Z.add_0_r. f_equal; lia.
Qed.

(** X12: for dates from the year 0 on, the month key that the aggregation
    loop cuts out of a day key is the month key of that date, and two
    dates have the same day key exactly when they fall on the same local
    day. *)
Theorem dayKey_monthKey tz t t' :
  0 <= getFullYear tz t -> 0 <= getFullYear tz t' ->
  monthKeyOfDayKey (dayKey tz t) = monthKey tz t /\
  (dayKey tz t = dayKey tz t' <-> localDay tz t = localDay tz t').
Proof.
  intros Hy Hy'. split.
  - unfold dayKey, monthKey. apply monthKeyOfDayKey_parts.
    + apply pretty_noDash. exact Hy.
    + apply pad2_noDash. unfold getMonth, MonthFromTime.
      pose proof (MonthFromDay_range (Day (LocalTime tz t))). lia.
  - rewrite !dayKey_localDay. split.
    + apply dayKeyOfDay_fields; assumption.
    + intros ->. reflexivity.
Qed.

Lemma dayKey_monthKey_witness :
  monthKeyOfDayKey (dayKey sampleZone t2358) = monthKey sampleZone t2358.
Proof.
  apply (dayKey_monthKey sampleZone t2358 t0005);
    apply Z.leb_le; vm_compute; reflexivity.
Defined.

(** ** The slices of a session *)

Lemma splitLoop_done tz fuel start end_ :
  (start <? end_) = false -> splitLoop tz fuel start end_ = Some [].
Proof. intros E. destruct fuel; cbn [splitLoop]; rewrite E; reflexivity. Qed.




Section SliceFacts.

Variable tz : Z.

Lemma dayStart_mono n n' : n <= n' -> dayStart tz n <= dayStart tz n'.
Proof. unfold dayStart, UTC, msPerDay. lia. Qed.

Lemma splitLoop_slices fuel start end_ :
  Z.abs tz <= msPerDay ->
  DayFromYear 100 <= localDay tz start -> localDay tz end_ < DayFromYear 10000 ->
  start < end_ ->
  (splitNeed tz start end_ <= fuel)%nat ->
  splitLoop tz fuel start end_
  = Some (map (daySlice tz start end_)
            (seqZ (localDay tz start) (localDay tz (end_ - 1) - localDay tz start + 1))).
Proof.
  intros Htz. revert start.
  induction fuel as [| f IH]; intros start Hlo Hhi Hlt Hn;
    unfold splitNeed in Hn; pose proof Hlt as Hb; apply Z.ltb_lt in Hb;
    rewrite Hb in Hn; [lia |].
  cbn [splitLoop]. rewrite Hb.
  assert (Hend : localDay tz (end_ - 1) <= localDay tz end_) by (apply localDay_mono; lia).
  assert (Hse : localDay tz start <= localDay tz (end_ - 1)) by (apply localDay_mono; lia).
  rewrite nextMidnight_exact by (auto; lia). cbv zeta.
  set (mid := dayStart tz (localDay tz start + 1)).
  pose proof (localDay_bounds tz start) as Bs. fold mid in Bs.
  destruct (Z_lt_le_dec mid end_) as [Hm | Hm].
  - rewrite Z.min_r by lia.
    assert (Lm : localDay tz mid = localDay tz start + 1).
    { apply localDay_unique. fold mid. rewrite dayStart_succ. fold mid.
      unfold msPerDay. lia. }
    assert (Hme : localDay tz mid <= localDay tz (end_ - 1)) by (apply localDay_mono; lia).
    rewrite (IH mid); [| lia | exact Hhi | exact Hm |].
    2:{ unfold splitNeed. apply Z.ltb_lt in Hm. rewrite Hm. lia. }
    cbn [mbind option_bind]. f_equal. rewrite Lm.
    replace (localDay tz (end_ - 1) - localDay tz start + 1)
      with (localDay tz (end_ - 1) - (localDay tz start + 1) + 1 + 1) by lia.
    rewrite (seqZ_succ (localDay tz start)) by lia. cbn [map]. f_equal.
    + unfold daySlice. rewrite dayKey_localDay. fold mid. f_equal. f_equal. lia.
    + apply map_ext_in. intros n Hin. apply list_elem_of_In, elem_of_seqZ in Hin.
      unfold daySlice. f_equal. f_equal.
      pose proof (dayStart_mono (localDay tz start + 1) n) as H. fold mid in H.
      lia.
  - rewrite Z.min_l by lia.
    assert (Le : localDay tz (end_ - 1) = localDay tz start).
    { apply localDay_unique. fold mid. lia. }
    rewrite Le, Z.sub_diag. rewrite seqZ_succ, seqZ_nil by lia.
    rewrite (splitLoop_done tz f end_ end_) by apply Z.ltb_irrefl.
    cbn [mbind option_bind map]. unfold daySlice. rewrite dayKey_localDay. fold mid.
    f_equal. f_equal. f_equal. f_equal. lia.
Qed.

End SliceFacts.

(** X14: the slices of a session with [start < end]: one for each local
    day from the day of the start to the day of the last millisecond, each
    holding the part of the session that lies in that day.  Every slice has
    a duration above 0 and of at most 24 hours, a day strictly between the
    first and the last gets the full 24 hours, and no day gets two
    slices. *)
Theorem splitSessionByDay_slices tz s :
  Z.abs tz <= msPerDay ->
  parsedDate tz (start s) -> parsedDate tz (end_ s) ->
  start s < end_ s ->
  let first := localDay tz (start s) in
  let last := localDay tz (end_ s - 1) in
  let parts := map (daySlice tz (start s) (end_ s)) (seqZ first (last - first + 1)) in
  splitSessionByDay tz s = Some parts /\
  splitSessionByDay_ts tz s = Some parts /\
  Forall (fun p => exists v, ms p = Some v /\ 0 < v <= msPerDay) parts /\
  (forall n, first < n < last -> In {| day := dayKeyOfDay n; ms := Some msPerDay |} parts) /\
  NoDup (map day parts).
Proof.
  intros Htz Hs He Hlt. cbv zeta.
  rewrite splitSessionByDay_ts_same by lia.
  pose proof Hs as Hs'. pose proof He as He'.
  apply parsedDate_days in Hs', He'.
  assert (Hmono : localDay tz (start s) <= localDay tz (end_ s - 1))
    by (apply localDay_mono; lia).
  assert (Hend : localDay tz (end_ s - 1) <= localDay tz (end_ s))
    by (apply localDay_mono; lia).
  pose proof (localDay_bounds tz (start s)) as Bs.
  pose proof (localDay_bounds tz (end_ s - 1)) as Be.
  assert (H1 : splitSessionByDay tz s
               = Some (map (daySlice tz (start s) (end_ s))
                         (seqZ (localDay tz (start s))
                            (localDay tz (end_ s - 1) - localDay tz (start s) + 1)))).
  { unfold splitSessionByDay.
    replace (start s =? end_ s) with false by (symmetry; apply Z.eqb_neq; lia).
    apply splitLoop_slices; try lia. apply splitFuel_enough. }
  split; [exact H1 |]. split; [exact H1 |].
  - split; [| split].
    + apply Forall_forall. intros p Hp. apply list_elem_of_In, in_map_iff in Hp.
      destruct Hp as (n & <- & Hn). apply list_elem_of_In, elem_of_seqZ in Hn.
      eexists. split; [reflexivity |].
      pose proof (dayStart_mono tz (localDay tz (start s) + 1) (n + 1)).
      pose proof (dayStart_mono tz n (localDay tz (end_ s - 1))).
      rewrite (dayStart_succ tz n) in *. unfold msPerDay in *. lia.
    + intros n Hn. apply in_map_iff. exists n. split.
      * unfold daySlice. f_equal. f_equal.
        pose proof (dayStart_mono tz (localDay tz (start s) + 1) n).
        pose proof (dayStart_mono tz (n + 1) (localDay tz (end_ s - 1))).
        rewrite (dayStart_succ tz n) in *. lia.
      * apply list_elem_of_In, elem_of_seqZ. lia.
    + rewrite map_map. simpl.
      apply (NoDup_fmap_2_strong dayKeyOfDay); [| apply NoDup_seqZ].
      intros n n' Hn Hn'. apply elem_of_seqZ in Hn, Hn'.
      apply dayKeyOfDay_fields.
      * assert (100 <= YearFromDay n) by (apply YearFromDay_ge; lia). lia.
      * assert (100 <= YearFromDay n') by (apply YearFromDay_ge; lia). lia.
Qed.

Lemma splitSessionByDay_slices_witness :
  splitSessionByDay sampleZone {| start := t2358; end_ := t0005; count := 2 |}
  = Some [ {| day := "2025-01-01"; ms := Some 120000 |};
           {| day := "2025-01-02"; ms := Some 300000 |} ].
Proof.
  destruct (splitSessionByDay_slices sampleZone
              {| start := t2358; end_ := t0005; count := 2 |})
    as (H1 & _).
  - unfold sampleZone, msPerDay. lia.
  - unfold parsedDate. split; apply Z.leb_le; vm_compute; reflexivity.
  - unfold parsedDate. split; apply Z.leb_le; vm_compute; reflexivity.
  - unfold t2358, t0005. simpl. lia.
  - rewrite H1. vm_compute. reflexivity.
Defined.

(** ** Totals of the report *)

Lemma addNumber_swap (x y z : number) :
  addNumber x (addNumber y z) = addNumber y (addNumber x z).
Proof. destruct x, y, z; simpl; try reflexivity. f_equal. lia. Qed.

Lemma durTotal_insert_fresh (m : gmap string number) k v :
  m !! k = None -> durTotal (<[k := v]> m) = addNumber v (durTotal m).
Proof.
  intros H. unfold durTotal.
  rewrite map_fold_insert_L; [reflexivity | | exact H].
  intros. apply addNumber_swap.
Qed.

Lemma durTotal_delete (m : gmap string number) k v :
  m !! k = Some v -> durTotal m = addNumber v (durTotal (delete k m)).
Proof.
  intros H. unfold durTotal.
  rewrite (map_fold_delete_L _ _ k v m); [reflexivity | | exact H].
  intros. apply addNumber_swap.
Qed.

Lemma durTotal_addDur (m : gmap string number) k z T :
  durTotal m = Some T -> durTotal (addDur m k (Some z)) = Some (T + z).
Proof.
  intros HT. unfold addDur. cbv zeta.
  destruct (m !! k) as [[v |] |] eqn:E.
  - rewrite (durTotal_delete m k _ E) in HT.
    rewrite <- (insert_delete_eq m).
    rewrite durTotal_insert_fresh by apply lookup_delete_eq.
    destruct (durTotal (delete k m)) as [d |]; simpl in *; [| discriminate].
    inversion HT. f_equal. lia.
  - rewrite (durTotal_delete m k _ E) in HT. simpl in HT. discriminate.
  - rewrite durTotal_insert_fresh by exact E. rewrite HT. simpl. f_equal. lia.
Qed.

Lemma sumMs_cons p parts S :
  sumMs (p :: parts) = Some S ->
  exists v a, ms p = Some v /\ sumMs parts = Some a /\ S = v + a.
Proof.
  unfold sumMs. simpl. fold (sumMs parts).
  destruct (sumMs parts) as [a |]; simpl; [| discriminate].
  destruct (ms p) as [v |]; simpl; [| discriminate].
  intros H. inversion H. eauto.
Qed.

Lemma foldDurations_total parts a S T1 T2 :
  sumMs parts = Some S ->
  durTotal (perDayDur a) = Some T1 -> durTotal (perMonthDur a) = Some T2 ->
  durTotal (perDayDur (foldDurations parts a)) = Some (T1 + S) /\
  durTotal (perMonthDur (foldDurations parts a)) = Some (T2 + S).
Proof.
  unfold foldDurations. revert a S T1 T2.
  induction parts as [| p parts IH]; intros a S T1 T2 HS H1 H2.
  - inversion HS. simpl. rewrite !Z.add_0_r. split; assumption.
  - apply sumMs_cons in HS. destruct HS as (v & r & Hv & Hr & ->).
    simpl.
    match goal with
    | |- context [fold_left _ parts ?a0] =>
        destruct (IH a0 r (T1 + v) (T2 + v) Hr) as [G1 G2]
    end.
    + simpl. rewrite Hv. apply durTotal_addDur. exact H1.
    + simpl. rewrite Hv. apply durTotal_addDur. exact H2.
    + rewrite G1, G2. split; f_equal; lia.
Qed.

Lemma countPresence_durs seenDays a :
  perDayDur (countPresence seenDays a) = perDayDur a /\
  perMonthDur (countPresence seenDays a) = perMonthDur a.
Proof.
  unfold countPresence. revert a.
  induction seenDays as [| d l IH]; intros a; [split; reflexivity |].
  simpl. destruct (IH {|
    perDayDur := perDayDur a;
    perDayCount := incr (perDayCount a) d;
    perMonthDur := perMonthDur a;
    perMonthCount := incr (perMonthCount a) (monthKeyOfDayKey d) |}) as [H1 H2].
  split; [exact H1 | exact H2].
Qed.

Lemma countSession_durs tz cb s parts a :
  perDayDur (countSession tz cb s parts a) = perDayDur a /\
  perMonthDur (countSession tz cb s parts a) = perMonthDur a.
Proof.
  destruct cb; simpl; [split; reflexivity | apply countPresence_durs].
Qed.

Lemma overallMs_from sessions acc :
  fold_left (fun sum s => sum + (end_ s - start s)) sessions acc
  = acc + overallMs sessions.
Proof.
  unfold overallMs. revert acc.
  induction sessions as [| s rest IH]; intros acc; simpl; [lia |].
  rewrite (IH (acc + _)), (IH (0 + _)). lia.
Qed.

Lemma overallMs_cons s rest :
  overallMs (s :: rest) = (end_ s - start s) + overallMs rest.
Proof. unfold overallMs at 1. simpl. apply overallMs_from. Qed.

Lemma splitSessionByDay_sumMs tz s :
  Z.abs tz <= msPerDay -> validSession tz s ->
  exists parts,
    splitSessionByDay tz s = Some parts /\ sumMs parts = Some (end_ s - start s).
Proof.
  intros Htz (Hle & Hs & He). unfold splitSessionByDay.
  destruct (start s =? end_ s) eqn:E.
  - apply Z.eqb_eq in E. eexists. split; [reflexivity |]. simpl. f_equal. lia.
  - apply Z.eqb_neq in E. apply parsedDate_days in Hs, He.
    destruct (splitLoop_valid tz (splitFuel s) (start s) (end_ s))
      as (parts & Hp & Hsum & _); try lia; [apply splitFuel_enough |].
    exists parts. split; assumption.
Qed.

Lemma aggregateFrom_durations tz cb sessions a agg T1 T2 :
  Z.abs tz <= msPerDay -> Forall (validSession tz) sessions ->
  durTotal (perDayDur a) = Some T1 -> durTotal (perMonthDur a) = Some T2 ->
  aggregateFrom tz cb sessions a = Some agg ->
  durTotal (perDayDur agg) = Some (T1 + overallMs sessions) /\
  durTotal (perMonthDur agg) = Some (T2 + overallMs sessions).
Proof.
  intros Htz Hall. revert a T1 T2.
  induction Hall as [| s rest Hs Hrest IH]; intros a T1 T2 H1 H2; simpl.
  - intros H; inversion H; subst. change (overallMs []) with 0.
    rewrite !Z.add_0_r. split; assumption.
  - destruct (splitSessionByDay_sumMs tz s Htz Hs) as (parts & -> & Hsum). simpl.
    intros H. rewrite overallMs_cons.
    destruct (foldDurations_total parts a _ T1 T2 Hsum H1 H2) as [G1 G2].
    destruct (countSession_durs tz cb s parts (foldDurations parts a)) as [C1 C2].
    destruct (IH _ (T1 + (end_ s - start s)) (T2 + (end_ s - start s))
                ltac:(rewrite C1; exact G1) ltac:(rewrite C2; exact G2) H) as [R1 R2].
    rewrite R1, R2. split; f_equal; lia.
Qed.

(** X15: the durations of the daily report add up to the overall duration
    of the sessions, and so do those of the monthly report, under either
    counting policy; no duration is NaN, and the overall duration is not
    negative. *)
Theorem durations_total tz cb sessions :
  Z.abs tz <= msPerDay -> Forall (validSession tz) sessions ->
  exists agg,
    aggregate tz cb sessions = Some agg /\
    durTotal (perDayDur agg) = Some (overallMs sessions) /\
    durTotal (perMonthDur agg) = Some (overallMs sessions) /\
    0 <= overallMs sessions.
Proof.
  intros Htz Hall. unfold aggregate.
  destruct (aggregateFrom_total tz cb sessions noAggregates) as [agg Ha].
  exists agg. split; [exact Ha |].
  destruct (aggregateFrom_durations tz cb sessions noAggregates agg 0 0 Htz Hall)
    as [H1 H2]; try reflexivity; [exact Ha |].
  rewrite H1, H2. split; [reflexivity |]. split; [reflexivity |].
  clear -Hall. induction Hall as [| s rest Hs _ IH]; [unfold overallMs; simpl; lia |].
  rewrite overallMs_cons. destruct Hs as [Hle _]. lia.
Qed.

Lemma durations_total_witness :
  exists agg,
    aggregate sampleZone CountPresence
      [ {| start := t2358; end_ := t0005; count := 2 |} ] = Some agg /\
    durTotal (perDayDur agg) = Some 420000 /\
    durTotal (perMonthDur agg) = Some 420000.
Proof.
  destruct (durations_total sampleZone CountPresence
              [ {| start := t2358; end_ := t0005; count := 2 |} ])
    as (agg & H1 & H2 & H3 & _).
  - unfold sampleZone, msPerDay. lia.
  - repeat constructor; simpl; try (unfold t2358, t0005; lia);
      apply Z.leb_le; vm_compute; reflexivity.
  - exists agg. split; [exact H1 |]. split; [exact H2 | exact H3].
Defined.

Lemma countPresence_months seenDays a :
  sumCounts (perMonthCount (countPresence seenDays a))
  = sumCounts (perMonthCount a) + Z.of_nat (length seenDays).
Proof.
  unfold countPresence. revert a.
  induction seenDays as [| d l IH]; intros a; simpl; [lia |].
  rewrite IH. simpl. rewrite sumCounts_incr. lia.
Qed.

Lemma aggregateFrom_month_counts tz cb sessions a agg :
  aggregateFrom tz cb sessions a = Some agg ->
  sumCounts (perMonthCount agg) - sumCounts (perDayCount agg)
  = sumCounts (perMonthCount a) - sumCounts (perDayCount a).
Proof.
  revert a. induction sessions as [| s rest IH]; intros a; simpl.
  - intros H; inversion H; subst. reflexivity.
  - destruct (splitSessionByDay tz s) as [parts |]; simpl; [| discriminate].
    intros H. apply IH in H. rewrite H.
    destruct (foldDurations_counts parts a) as [F1 F2].
    destruct cb; simpl.
    + rewrite !sumCounts_incr, F1, F2. lia.
    + rewrite countPresence_months, countPresence_sum, F1, F2. lia.
Qed.

(** X16: the conversation counts of the monthly report add up to the same
    total as those of the daily report, under either counting policy and for
    any sessions; under the [start] policy that total is the number of
    sessions. *)
Theorem month_counts_total tz cb sessions :
  exists agg,
    aggregate tz cb sessions = Some agg /\
    sumCounts (perMonthCount agg) = sumCounts (perDayCount agg) /\
    (cb = CountStart -> sumCounts (perMonthCount agg) = Z.of_nat (length sessions)).
Proof.
  unfold aggregate.
  destruct (aggregateFrom_total tz cb sessions noAggregates) as [agg Ha].
  exists agg. split; [exact Ha |].
  pose proof (aggregateFrom_month_counts tz cb sessions noAggregates agg Ha) as H.
  change (sumCounts (perMonthCount noAggregates)) with 0 in H.
  change (sumCounts (perDayCount noAggregates)) with 0 in H.
  split; [lia |]. intros ->.
  apply aggregateFrom_start_sum in Ha.
  change (sumCounts (perDayCount noAggregates)) with 0 in Ha. lia.
Qed.

(** ** The rows of the daily report *)

Lemma addDur_lookup (m : gmap string number) k k' z h d :
  m !! k' = durEntry h d -> (h = false -> d = 0) ->
  addDur m k (Some z) !! k'
  = durEntry (h || bool_decide (k = k')) (d + if bool_decide (k = k') then z else 0).
Proof.
  intros Hm Hd. unfold addDur. cbv zeta. unfold number in *.
  destruct (bool_decide (k = k')) eqn:E.
  - apply bool_decide_eq_true in E. subst k'. rewrite lookup_insert_eq, Hm.
    rewrite orb_true_r. destruct h; simpl; [reflexivity |].
    rewrite Hd by reflexivity. reflexivity.
  - apply bool_decide_eq_false in E. rewrite lookup_insert_ne by exact E.
    rewrite orb_false_r, Z.add_0_r. exact Hm.
Qed.

Lemma foldDurations_lookup parts a k h d :
  Forall (fun p => is_Some (ms p)) parts ->
  perDayDur a !! k = durEntry h d -> (h = false -> d = 0) ->
  (existsb (onDay k) parts = false -> dayMs k parts = 0) /\
  perDayDur (foldDurations parts a) !! k
  = durEntry (h || existsb (onDay k) parts) (d + dayMs k parts).
Proof.
  unfold foldDurations. intros Hall. revert a h d.
  induction Hall as [| p parts [v Hv] _ IH]; intros a h d Ha Hd.
  - simpl. rewrite orb_false_r, Z.add_0_r. split; [reflexivity | exact Ha].
  - simpl.
    match goal with
    | |- context [fold_left _ parts ?a0] =>
        destruct (IH a0 (h || onDay k p)
                    (d + if onDay k p then v else 0)) as [G1 G2]
    end.
    + simpl. rewrite Hv. apply addDur_lookup; assumption.
    + intros E. apply orb_false_iff in E. destruct E as [-> E]. rewrite E.
      rewrite Hd by reflexivity. reflexivity.
    + rewrite G2, Hv. simpl. split.
      * intros E. apply orb_false_iff in E. destruct E as [E1 E2].
        rewrite E1, (G1 E2). reflexivity.
      * rewrite orb_assoc. f_equal. lia.
Qed.

Lemma incr_lookup (m : gmap string Z) k k' c :
  m !! k' = countEntry c -> 0 <= c ->
  incr m k !! k' = countEntry (c + if bool_decide (k = k') then 1 else 0).
Proof.
  intros Hm Hc. unfold incr.
  destruct (bool_decide (k = k')) eqn:E.
  - apply bool_decide_eq_true in E. subst k'. rewrite lookup_insert_eq, Hm.
    unfold countEntry. destruct (c =? 0) eqn:E0; simpl.
    + apply Z.eqb_eq in E0. subst c. reflexivity.
    + replace (c + 1 =? 0) with false by (symmetry; apply Z.eqb_neq; lia).
      reflexivity.
  - apply bool_decide_eq_false in E. rewrite lookup_insert_ne by exact E.
    rewrite Z.add_0_r. exact Hm.
Qed.

Lemma countPresence_lookup l : forall seen a k c,
  perDayCount a !! k = countEntry c -> 0 <= c ->
  perDayCount (countPresence (distinctFrom seen l) a) !! k
  = countEntry (c + if bool_decide (k ∈ l /\ k ∉ seen) then 1 else 0).
Proof.
  unfold countPresence.
  induction l as [| x l IH]; intros seen a k c Ha Hc.
  - cbn [distinctFrom fold_left]. rewrite bool_decide_eq_false_2, Z.add_0_r; [exact Ha |].
    intros [H _]. apply elem_of_nil in H. exact H.
  - cbn [distinctFrom]. destruct (bool_decide (x ∈ seen)) eqn:E.
    + apply bool_decide_eq_true in E. rewrite (IH seen a k c Ha Hc).
      rewrite (bool_decide_ext (k ∈ x :: l /\ k ∉ seen) (k ∈ l /\ k ∉ seen));
        [reflexivity |].
      rewrite elem_of_cons.
      split; [| tauto]. intros [[-> | H] N]; [contradiction | tauto].
    + apply bool_decide_eq_false in E. cbn [fold_left].
      match goal with
      | |- context [fold_left _ _ ?a0] =>
          rewrite (IH (x :: seen) a0 k (c + if bool_decide (x = k) then 1 else 0))
      end.
      * f_equal. rewrite <- Z.add_assoc. f_equal.
        destruct (decide (x = k)) as [-> | N].
        -- rewrite (bool_decide_eq_true_2 (k = k)) by reflexivity.
           rewrite bool_decide_eq_false_2
             by (intros [_ H]; apply H; apply elem_of_cons; left; reflexivity).
           rewrite bool_decide_eq_true_2; [reflexivity |].
           split; [apply elem_of_cons; left; reflexivity | exact E].
        -- rewrite (bool_decide_eq_false_2 (x = k)) by exact N.
           rewrite Z.add_0_l.
           rewrite (bool_decide_ext (k ∈ l /\ k ∉ x :: seen) (k ∈ x :: l /\ k ∉ seen));
             [reflexivity |].
           rewrite !elem_of_cons. split.
           ++ intros [H1 H2]. split; [right; exact H1 |].
              intros H3. apply H2. right. exact H3.
           ++ intros [[-> | H1] H2]; [congruence |].
              split; [exact H1 |]. intros [-> | H3]; [congruence | contradiction].
      * cbn [perDayCount]. apply incr_lookup; assumption.
      * destruct (bool_decide (x = k)); lia.
Qed.

Lemma existsb_onDay k parts :
  bool_decide (k ∈ map day parts) = existsb (onDay k) parts.
Proof.
  induction parts as [| p parts IH]; cbn [map existsb].
  - apply bool_decide_eq_false_2. apply not_elem_of_nil.
  - rewrite <- IH. unfold onDay.
    destruct (decide (day p = k)) as [<- | N].
    + rewrite (bool_decide_eq_true_2 (day p = day p)) by reflexivity.
      apply bool_decide_eq_true_2. apply elem_of_cons. left. reflexivity.
    + rewrite (bool_decide_eq_false_2 (day p = k)) by exact N. simpl.
      apply bool_decide_ext. rewrite elem_of_cons. split; [| tauto].
      intros [-> | H]; [congruence | exact H].
Qed.

Section DayRows.

Variable tz : Z.
Variable n : Z.
Hypothesis Htz : Z.abs tz <= msPerDay.
Hypothesis Hn : 0 <= YearFromDay n.

Lemma onDay_daySlice s e m :
  0 <= YearFromDay m -> onDay (dayKeyOfDay n) (daySlice tz s e m) = (m =? n).
Proof.
  intros Hm. unfold onDay, daySlice. simpl.
  destruct (m =? n) eqn:E.
  - apply Z.eqb_eq in E. subst m. apply bool_decide_eq_true_2. reflexivity.
  - apply Z.eqb_neq in E. apply bool_decide_eq_false_2. intros H.
    apply E. apply dayKeyOfDay_fields; assumption.
Qed.

Lemma daySlices_row s e c : forall a,
  (forall m, a <= m < a + Z.of_nat c -> 0 <= YearFromDay m) ->
  existsb (onDay (dayKeyOfDay n)) (map (daySlice tz s e) (seqZ a (Z.of_nat c)))
  = (a <=? n) && (n <? a + Z.of_nat c) /\
  dayMs (dayKeyOfDay n) (map (daySlice tz s e) (seqZ a (Z.of_nat c)))
  = if (a <=? n) && (n <? a + Z.of_nat c)
    then Z.min e (dayStart tz (n + 1)) - Z.max s (dayStart tz n) else 0.
Proof.
  induction c as [| c IH]; intros a Hy.
  - change (Z.of_nat 0) with 0. rewrite seqZ_nil by lia.
    assert (E : (a <=? n) && (n <? a + 0) = false).
    { apply andb_false_iff. destruct (Z.leb_spec a n); [right | left; reflexivity].
      apply Z.ltb_ge. lia. }
    rewrite E. split; reflexivity.
  - replace (Z.of_nat (S c)) with (Z.of_nat c + 1) by lia.
    rewrite seqZ_succ by lia. cbn [map existsb dayMs fold_right].
    fold (dayMs (dayKeyOfDay n) (map (daySlice tz s e) (seqZ (a + 1) (Z.of_nat c)))).
    destruct (IH (a + 1)) as [G1 G2]; [intros m Hm; apply Hy; lia |].
    rewrite G1, G2, onDay_daySlice by (apply Hy; lia).
    destruct (Z.eqb_spec a n) as [-> | N].
    + replace (n <=? n) with true by (symmetry; apply Z.leb_le; lia).
      replace (n + 1 <=? n) with false by (symmetry; apply Z.leb_gt; lia).
      replace (n <? n + (Z.of_nat c + 1)) with true by (symmetry; apply Z.ltb_lt; lia).
      simpl. split; [reflexivity | lia].
    + simpl. replace (n <? a + 1 + Z.of_nat c) with (n <? a + (Z.of_nat c + 1))
        by (f_equal; lia).
      replace (a + 1 <=? n) with (a <=? n); [split; [reflexivity | lia] |].
      destruct (Z.leb_spec a n), (Z.leb_spec (a + 1) n); try reflexivity; lia.
Qed.

(** The slices of a session, seen from the day [n]. *)
Lemma splitSessionByDay_row s :
  validSession tz s ->
  exists parts,
    splitSessionByDay tz s = Some parts /\
    Forall (fun p => is_Some (ms p)) parts /\
    existsb (onDay (dayKeyOfDay n)) parts = touches tz n s /\
    dayMs (dayKeyOfDay n) parts = overlap tz n s /\
    (touches tz n s = false -> overlap tz n s = 0) /\
    0 <= overlap tz n s.
Proof.
  intros (Hle & Hs & He). unfold touches, overlap.
  pose proof Hs as Hs'. pose proof He as He'.
  apply parsedDate_days in Hs', He'.
  pose proof (localDay_bounds tz (start s)) as Bs.
  destruct (Z.eqb_spec (start s) (end_ s)) as [E | E].
  - exists [ {| day := dayKey tz (start s); ms := Some 0 |} ].
    unfold splitSessionByDay. rewrite <- E, Z.eqb_refl.
    split; [reflexivity |]. split; [repeat constructor; eauto |].
    assert (Hon : onDay (dayKeyOfDay n) {| day := dayKey tz (start s); ms := Some 0 |}
                  = (localDay tz (start s) =? n)).
    { rewrite dayKey_localDay. apply (onDay_daySlice 0 0).
      assert (100 <= YearFromDay (localDay tz (start s)))
        by (apply YearFromDay_ge; lia). lia. }
    cbn [existsb dayMs fold_right]. rewrite Hon, orb_false_r.
    split; [reflexivity |]. split; [| split; intros; lia].
    simpl. destruct (localDay tz (start s) =? n); lia.
  - assert (Hlt : start s < end_ s) by lia.
    assert (Hmono : localDay tz (start s) <= localDay tz (end_ s - 1))
      by (apply localDay_mono; lia).
    assert (Hend : localDay tz (end_ s - 1) <= localDay tz (end_ s))
      by (apply localDay_mono; lia).
    pose proof (localDay_bounds tz (end_ s - 1)) as Be.
    set (first := localDay tz (start s)) in *.
    set (last := localDay tz (end_ s - 1)) in *.
    exists (map (daySlice tz (start s) (end_ s)) (seqZ first (last - first + 1))).
    split.
    { unfold splitSessionByDay.
      replace (start s =? end_ s) with false by (symmetry; apply Z.eqb_neq; lia).
      apply splitLoop_slices; try lia. apply splitFuel_enough. }
    split.
    { apply Forall_forall. intros p Hp. apply list_elem_of_In, in_map_iff in Hp.
      destruct Hp as (m & <- & _). simpl. eauto. }
    destruct (daySlices_row (start s) (end_ s) (Z.to_nat (last - first + 1)) first)
      as [G1 G2].
    { intros m Hm. assert (100 <= YearFromDay m) by (apply YearFromDay_ge; lia). lia. }
    rewrite Z2Nat.id in G1, G2 by lia.
    rewrite G1, G2.
    replace (n <? first + (last - first + 1)) with (n <=? last)
      by (destruct (Z.leb_spec n last), (Z.ltb_spec n (first + (last - first + 1)));
          try reflexivity; lia).
    split; [reflexivity |].
    pose proof (dayStart_succ tz n) as Sn.
    destruct (Z.leb_spec first n) as [L1 | L1]; destruct (Z.leb_spec n last) as [L2 | L2];
      simpl.
    + pose proof (dayStart_mono tz (first + 1) (n + 1)).
      pose proof (dayStart_mono tz n last).
      unfold msPerDay in *. split; [lia |]. split; [discriminate | lia].
    + pose proof (dayStart_mono tz (last + 1) n).
      split; [lia |]. split; intros; lia.
    + pose proof (dayStart_mono tz (n + 1) first).
      split; [lia |]. split; intros; lia.
    + lia.
Qed.

Lemma aggregateFrom_row cb sessions : forall a agg h d,
  Forall (validSession tz) sessions ->
  perDayDur a !! dayKeyOfDay n = durEntry h d -> (h = false -> d = 0) ->
  aggregateFrom tz cb sessions a = Some agg ->
  perDayDur agg !! dayKeyOfDay n
  = durEntry (h || existsb (touches tz n) sessions)
      (d + sumOver (overlap tz n) sessions) /\
  (existsb (touches tz n) sessions = false -> sumOver (overlap tz n) sessions = 0) /\
  0 <= sumOver (overlap tz n) sessions.
Proof.
  induction sessions as [| s rest IH]; intros a agg h d Hall Ha Hd.
  - simpl. intros H; inversion H; subst. rewrite orb_false_r, Z.add_0_r.
    split; [exact Ha |]. split; [reflexivity | lia].
  - inversion Hall as [| ? ? Hs Hrest]; subst. simpl.
    destruct (splitSessionByDay_row s Hs) as (parts & -> & Hms & Hex & Hday & Hz & Hpos).
    simpl. intros H.
    destruct (foldDurations_lookup parts a _ h d Hms Ha Hd) as [_ G].
    rewrite Hex, Hday in G.
    destruct (IH (countSession tz cb s parts (foldDurations parts a)) agg
                (h || touches tz n s) (d + overlap tz n s) Hrest) as (R1 & R2 & R3).
    + rewrite (proj1 (countSession_durs tz cb s parts _)). exact G.
    + intros E. apply orb_false_iff in E. destruct E as [-> E].
      rewrite (Hz E), (Hd eq_refl). reflexivity.
    + exact H.
    + rewrite R1. split; [| split].
      * rewrite orb_assoc. f_equal. lia.
      * intros E. apply orb_false_iff in E. destruct E as [E1 E2].
        rewrite (Hz E1), (R2 E2). reflexivity.
      * lia.
Qed.

Lemma countSessions_cons f s rest :
  countSessions f (s :: rest) = (if f s then 1 else 0) + countSessions f rest.
Proof.
  unfold countSessions. simpl. destruct (f s); simpl; lia.
Qed.

Lemma countSessions_nonneg f l : 0 <= countSessions f l.
Proof. unfold countSessions. lia. Qed.

Lemma aggregateFrom_start_row sessions : forall a agg c,
  Forall (validSession tz) sessions ->
  perDayCount a !! dayKeyOfDay n = countEntry c -> 0 <= c ->
  aggregateFrom tz CountStart sessions a = Some agg ->
  perDayCount agg !! dayKeyOfDay n
  = countEntry (c + countSessions (fun s => localDay tz (start s) =? n) sessions).
Proof.
  induction sessions as [| s rest IH]; intros a agg c Hall Ha Hc.
  - simpl. intros H; inversion H; subst.
    change (countSessions _ []) with 0. rewrite Z.add_0_r. exact Ha.
  - inversion Hall as [| ? ? Hs Hrest]; subst. simpl.
    destruct (splitSessionByDay tz s) as [parts |]; simpl; [| discriminate].
    intros H. rewrite countSessions_cons.
    pose proof (fun P1 P2 =>
                  IH _ agg (c + if localDay tz (start s) =? n then 1 else 0)
                    Hrest P1 P2 H) as R.
    rewrite R; [f_equal; lia | | destruct (localDay tz (start s) =? n); lia].
    simpl. rewrite (proj1 (foldDurations_counts parts a)).
    rewrite (incr_lookup _ _ _ c Ha Hc). f_equal. f_equal.
    destruct Hs as (_ & Hs & _). apply parsedDate_days in Hs.
    rewrite dayKey_localDay.
    change (bool_decide (dayKeyOfDay (localDay tz (start s)) = dayKeyOfDay n))
      with (onDay (dayKeyOfDay n) (daySlice tz 0 0 (localDay tz (start s)))).
    rewrite onDay_daySlice; [reflexivity |].
    assert (100 <= YearFromDay (localDay tz (start s))) by (apply YearFromDay_ge; lia).
    lia.
Qed.

Lemma aggregateFrom_presence_row sessions : forall a agg c,
  Forall (validSession tz) sessions ->
  perDayCount a !! dayKeyOfDay n = countEntry c -> 0 <= c ->
  aggregateFrom tz CountPresence sessions a = Some agg ->
  perDayCount agg !! dayKeyOfDay n
  = countEntry (c + countSessions (touches tz n) sessions).
Proof.
  induction sessions as [| s rest IH]; intros a agg c Hall Ha Hc.
  - simpl. intros H; inversion H; subst.
    change (countSessions _ []) with 0. rewrite Z.add_0_r. exact Ha.
  - inversion Hall as [| ? ? Hs Hrest]; subst. simpl.
    destruct (splitSessionByDay_row s Hs) as (parts & -> & _ & Hex & _).
    simpl. intros H. rewrite countSessions_cons.
    pose proof (fun P1 P2 =>
                  IH _ agg (c + if touches tz n s then 1 else 0) Hrest P1 P2 H) as R.
    rewrite R; [f_equal; lia | | destruct (touches tz n s); lia].
    unfold countSession, distinct. rewrite (countPresence_lookup _ [] _ _ c).
    + rewrite <- Hex, <- existsb_onDay.
      rewrite (bool_decide_ext (dayKeyOfDay n ∈ map day parts /\ dayKeyOfDay n ∉ [])
                 (dayKeyOfDay n ∈ map day parts)); [reflexivity |].
      split; [tauto |]. intros Hin.
      split; [exact Hin | apply not_elem_of_nil].
    + rewrite (proj1 (foldDurations_counts parts a)). exact Ha.
    + exact Hc.
Qed.

End DayRows.

(** X17: the duration the daily report gives for a day is the total time
    of the sessions that lies in that local day; the day has an entry
    exactly when a session touches it. *)
Theorem daily_duration tz cb sessions n :
  Z.abs tz <= msPerDay -> Forall (validSession tz) sessions ->
  0 <= YearFromDay n ->
  exists agg,
    aggregate tz cb sessions = Some agg /\
    perDayDur agg !! dayKeyOfDay n
    = (if existsb (touches tz n) sessions
       then Some (Some (sumOver (overlap tz n) sessions)) else None) /\
    0 <= sumOver (overlap tz n) sessions.
Proof.
  intros Htz Hall Hn. unfold aggregate.
  destruct (aggregateFrom_total tz cb sessions noAggregates) as [agg Ha].
  exists agg. split; [exact Ha |].
  destruct (aggregateFrom_row tz n Htz Hn cb sessions noAggregates agg false 0 Hall)
    as (H1 & _ & H3); [reflexivity | reflexivity | exact Ha |].
  split; [exact H1 | exact H3].
Qed.

Lemma daily_duration_witness :
  exists agg,
    aggregate sampleZone CountStart
      [ {| start := t2358; end_ := t0005; count := 2 |} ] = Some agg /\
    perDayDur agg !! "2025-01-02" = Some (Some 300000).
Proof.
  destruct (daily_duration sampleZone CountStart
              [ {| start := t2358; end_ := t0005; count := 2 |} ] 20090)
    as (agg & H1 & H2 & _).
  - unfold sampleZone, msPerDay. lia.
  - repeat constructor; simpl; try (unfold t2358, t0005; lia);
      apply Z.leb_le; vm_compute; reflexivity.
  - apply Z.leb_le. vm_compute. reflexivity.
  - exists agg. split; [exact H1 |].
    replace "2025-01-02"%string with (dayKeyOfDay 20090) by (vm_compute; reflexivity).
    rewrite H2. vm_compute. reflexivity.
Defined.

(** X18: the conversations the daily report gives for a day are, under the
    [start] policy, the sessions that start on that local day, and under the
    [presence] policy, the sessions that touch it; a day without any has no
    entry. *)
Theorem daily_count tz sessions n :
  Z.abs tz <= msPerDay -> Forall (validSession tz) sessions ->
  0 <= YearFromDay n ->
  (exists agg,
     aggregate tz CountStart sessions = Some agg /\
     perDayCount agg !! dayKeyOfDay n
     = countEntry (countSessions (fun s => localDay tz (start s) =? n) sessions)) /\
  (exists agg,
     aggregate tz CountPresence sessions = Some agg /\
     perDayCount agg !! dayKeyOfDay n
     = countEntry (countSessions (touches tz n) sessions)).
Proof.
  intros Htz Hall Hn. unfold aggregate. split.
  - destruct (aggregateFrom_total tz CountStart sessions noAggregates) as [agg Ha].
    exists agg. split; [exact Ha |].
    apply (aggregateFrom_start_row tz n Hn sessions noAggregates agg 0 Hall);
      [reflexivity | lia | exact Ha].
  - destruct (aggregateFrom_total tz CountPresence sessions noAggregates) as [agg Ha].
    exists agg. split; [exact Ha |].
    apply (aggregateFrom_presence_row tz n Htz Hn sessions noAggregates agg 0 Hall);
      [reflexivity | lia | exact Ha].
Qed.

Lemma daily_count_witness :
  (exists agg,
     aggregate sampleZone CountStart
       [ {| start := t2358; end_ := t0005; count := 2 |} ] = Some agg /\
     perDayCount agg !! "2025-01-02" = None) /\
  (exists agg,
     aggregate sampleZone CountPresence
       [ {| start := t2358; end_ := t0005; count := 2 |} ] = Some agg /\
     perDayCount agg !! "2025-01-02" = Some 1).
Proof.
  destruct (daily_count sampleZone
              [ {| start := t2358; end_ := t0005; count := 2 |} ] 20090)
    as [(a1 & H1 & H2) (a2 & H3 & H4)].
  - unfold sampleZone, msPerDay. lia.
  - repeat constructor; simpl; try (unfold t2358, t0005; lia);
      apply Z.leb_le; vm_compute; reflexivity.
  - apply Z.leb_le. vm_compute. reflexivity.
  - replace "2025-01-02"%string with (dayKeyOfDay 20090) by (vm_compute; reflexivity).
    split; [exists a1 | exists a2]; (split; [assumption |]).
    + rewrite H2. vm_compute. reflexivity.
    + rewrite H4. vm_compute. reflexivity.
Defined.

(** ** Reading the file and the whole run *)

Lemma splitLF_cons s : exists w ws, splitLF s = w :: ws.
Proof.
  destruct s as [| c s]; simpl; [eauto |].
  destruct (c =? 10)%N; [eauto |]. destruct (splitLF s); eauto.
Qed.

Lemma splitLF_spec s :
  joinLF (splitLF s) = s /\
  Forall (fun l => forallb (fun c => negb (c =? 10)%N) l = true) (splitLF s) /\
  length (splitLF s) = S (countLF s).
Proof.
  induction s as [| c s (IH1 & IH2 & IH3)]; [repeat constructor |].
  unfold countLF in *. cbn [splitLF List.filter].
  destruct (splitLF_cons s) as (w & ws & E). rewrite E in *.
  destruct (c =? 10)%N eqn:C.
  - apply N.eqb_eq in C. subst c. split; [| split].
    + change (joinLF ([] :: w :: ws)) with (10%N :: joinLF (w :: ws)).
      rewrite IH1. reflexivity.
    + constructor; [reflexivity | exact IH2].
    + simpl in *. lia.
  - split; [| split].
    + rewrite <- IH1. destruct ws; reflexivity.
    + inversion IH2; subst. constructor; [| assumption].
      simpl. rewrite C. simpl. assumption.
    + simpl in *. lia.
Qed.

Lemma replaceCRLF_step c s :
  replaceCRLF (c :: s)
  = match s with
    | d :: s'' =>
        if (c =? 13)%N && (d =? 10)%N then 10%N :: replaceCRLF s''
        else c :: replaceCRLF s
    | [] => [c]
    end.
Proof. destruct s; reflexivity. Qed.

Lemma replaceCRLF_spec n : forall s, (length s <= n)%nat ->
  countLF (replaceCRLF s) = countLF s /\
  (length (replaceCRLF s) <= length s)%nat /\
  (forallb (fun c => negb (c =? 13)%N) s = true -> replaceCRLF s = s).
Proof.
  induction n as [| n IH]; intros s Hn.
  - destruct s; [repeat split; auto | simpl in Hn; lia].
  - destruct s as [| c [| d s]]; [repeat split; auto | repeat split; auto |].
    rewrite replaceCRLF_step.
    destruct ((c =? 13)%N && (d =? 10)%N) eqn:E.
    + apply andb_true_iff in E. destruct E as [Ec Ed].
      apply N.eqb_eq in Ec, Ed. subst c d.
      destruct (IH s) as (H1 & H2 & _); [simpl in Hn; lia |].
      unfold countLF in *. cbn [List.filter length forallb N.eqb Pos.eqb negb andb].
      split; [lia |]. split; [lia |]. discriminate.
    + destruct (IH (d :: s)) as (H1 & H2 & H3); [simpl in Hn; simpl; lia |].
      unfold countLF in *. cbn [List.filter length forallb] in *.
      destruct (c =? 10)%N; cbn [length];
        (split; [lia |]; split; [lia |]);
        intros H; apply andb_true_iff in H; destruct H as [_ H];
        rewrite (H3 H); reflexivity.
Qed.

Lemma readLines_length raw : length (readLines raw) = S (countLF raw).
Proof.
  unfold readLines. rewrite (proj2 (proj2 (splitLF_spec _))).
  rewrite (proj1 (replaceCRLF_spec _ raw (le_n _))). reflexivity.
Qed.

Lemma replaceCRLF_noLF l : noLF l = true -> replaceCRLF l = l.
Proof.
  unfold noLF. induction l as [| c l IH]; [reflexivity |].
  intros H. cbn [forallb] in H. apply andb_true_iff in H. destruct H as [Hc Hl].
  rewrite replaceCRLF_step. destruct l as [| d l]; [reflexivity |].
  cbn [forallb] in Hl. pose proof Hl as Hl'. apply andb_true_iff in Hl'.
  destruct Hl' as [Hd _]. apply negb_true_iff in Hd. rewrite Hd, andb_false_r.
  rewrite (IH Hl). reflexivity.
Qed.

Lemma replaceCRLF_line l e rest :
  wellEnded (l, e) = true ->
  replaceCRLF (l ++ lineEnd e ++ rest) = l ++ 10%N :: replaceCRLF rest.
Proof.
  unfold wellEnded, noLF. cbn [fst snd].
  induction l as [| c l IH]; intros H.
  - destruct e; cbn [lineEnd app].
    + reflexivity.
    + rewrite replaceCRLF_step. destruct rest; reflexivity.
  - apply andb_true_iff in H. destruct H as [Hn He].
    cbn [forallb] in Hn. apply andb_true_iff in Hn. destruct Hn as [Hc Hl].
    cbn [app]. rewrite replaceCRLF_step.
    assert (Hnext : exists d tl, l ++ lineEnd e ++ rest = d :: tl /\
                                 ((c =? 13)%N && (d =? 10)%N = false)).
    { destruct l as [| d l'].
      - destruct e; cbn [lineEnd app].
        + exists 13%N, (10%N :: rest). split; [reflexivity |].
          apply andb_false_r.
        + exists 10%N, rest. split; [reflexivity |].
          cbn [endsWithCR orb] in He. apply negb_true_iff in He. rewrite He.
          reflexivity.
      - exists d, (l' ++ lineEnd e ++ rest). split; [reflexivity |].
        cbn [forallb] in Hl. apply andb_true_iff in Hl. destruct Hl as [Hd _].
        apply negb_true_iff in Hd. rewrite Hd. apply andb_false_r. }
    destruct Hnext as (d & tl & E & Hp). rewrite E, Hp, <- E.
    rewrite IH; [reflexivity |].
    rewrite Hl. cbn [andb]. destruct e; [reflexivity |].
    cbn [orb] in *. destruct l; [reflexivity | exact He].
Qed.

Lemma replaceCRLF_joinEnds ls :
  forallb wellEnded ls = true ->
  replaceCRLF (joinEnds ls) = joinLF (map fst ls).
Proof.
  induction ls as [| p ls IH]; [reflexivity |].
  intros H. cbn [forallb] in H. apply andb_true_iff in H. destruct H as [Hp Hls].
  destruct ls as [| q ls].
  - cbn [joinEnds map joinLF]. apply replaceCRLF_noLF.
    unfold wellEnded in Hp. apply andb_true_iff in Hp. apply Hp.
  - change (joinEnds (p :: q :: ls))
      with (fst p ++ lineEnd (snd p) ++ joinEnds (q :: ls)).
    change (joinLF (map fst (p :: q :: ls)))
      with (fst p ++ 10%N :: joinLF (map fst (q :: ls))).
    rewrite replaceCRLF_line by (destruct p; exact Hp).
    rewrite (IH Hls). reflexivity.
Qed.

Lemma splitLF_noLF l : noLF l = true -> splitLF l = [l].
Proof.
  unfold noLF. induction l as [| c l IH]; [reflexivity |].
  intros H. cbn [forallb] in H. apply andb_true_iff in H. destruct H as [Hc Hl].
  apply negb_true_iff in Hc. cbn [splitLF]. rewrite Hc, (IH Hl). reflexivity.
Qed.

Lemma splitLF_line l rest :
  noLF l = true -> splitLF (l ++ 10%N :: rest) = l :: splitLF rest.
Proof.
  unfold noLF. induction l as [| c l IH]; [reflexivity |].
  intros H. cbn [forallb] in H. apply andb_true_iff in H. destruct H as [Hc Hl].
  apply negb_true_iff in Hc. cbn [app splitLF]. rewrite Hc, (IH Hl). reflexivity.
Qed.

Lemma splitLF_joinLF ls :
  ls <> [] -> forallb noLF ls = true -> splitLF (joinLF ls) = ls.
Proof.
  induction ls as [| l ls IH]; [congruence |].
  intros _ H. cbn [forallb] in H. apply andb_true_iff in H. destruct H as [Hl Hls].
  destruct ls as [| l2 ls].
  - cbn [joinLF]. apply splitLF_noLF. exact Hl.
  - change (joinLF (l :: l2 :: ls)) with (l ++ 10%N :: joinLF (l2 :: ls)).
    rewrite splitLF_line by exact Hl. rewrite IH; [reflexivity | discriminate | exact Hls].
Qed.

(** Every text is the text of well-ended lines. *)
Lemma joinEnds_complete raw :
  exists ls, ls <> [] /\ forallb wellEnded ls = true /\ joinEnds ls = raw.
Proof.
  induction raw as [| c raw (ls & Hne & Hw & Hj)].
  - exists [([], true)]. repeat split. discriminate.
  - destruct ls as [| [l e] rest]; [congruence |].
    cbn [forallb] in Hw. apply andb_true_iff in Hw. destruct Hw as [Hp Hrest].
    unfold wellEnded in Hp. cbn [fst snd] in Hp.
    apply andb_true_iff in Hp. destruct Hp as [Hn He].
    destruct (c =? 10)%N eqn:C10.
    + apply N.eqb_eq in C10. subst c.
      exists (([], false) :: (l, e) :: rest). split; [discriminate |].
      split.
      * cbn [forallb]. rewrite Hrest. unfold wellEnded at 2. cbn [fst snd].
        rewrite Hn, He. reflexivity.
      * change (joinEnds (([], false) :: (l, e) :: rest))
          with (10%N :: joinEnds ((l, e) :: rest)).
        rewrite Hj. reflexivity.
    + destruct l as [| d l].
      * (* the first line of [raw] is empty *)
        destruct rest as [| q rest].
        -- exists [([c], true)]. split; [discriminate |]. split.
           ++ cbn [forallb]. unfold wellEnded, noLF. cbn [fst snd forallb].
              rewrite C10. reflexivity.
           ++ cbn [joinEnds fst] in *. subst raw. reflexivity.
        -- destruct e.
           ++ exists (([c], true) :: q :: rest). split; [discriminate |]. split.
              ** cbn [forallb] in *. rewrite Hrest. unfold wellEnded at 1, noLF.
                 cbn [fst snd forallb]. rewrite C10. reflexivity.
              ** change (joinEnds (([c], true) :: q :: rest))
                   with (c :: lineEnd true ++ joinEnds (q :: rest)).
                 rewrite <- Hj. reflexivity.
           ++ destruct (c =? 13)%N eqn:C13.
              ** apply N.eqb_eq in C13. subst c.
                 exists (([], true) :: q :: rest). split; [discriminate |]. split.
                 --- cbn [forallb] in *. rewrite Hrest. reflexivity.
                 --- rewrite <- Hj. reflexivity.
              ** exists (([c], false) :: q :: rest). split; [discriminate |]. split.
                 --- cbn [forallb] in *. rewrite Hrest. unfold wellEnded at 1, noLF.
                     cbn [fst snd forallb endsWithCR]. rewrite C10, C13. reflexivity.
                 --- change (joinEnds (([c], false) :: q :: rest))
                       with (c :: lineEnd false ++ joinEnds (q :: rest)).
                     rewrite <- Hj. reflexivity.
      * exists ((c :: d :: l, e) :: rest). split; [discriminate |]. split.
        -- cbn [forallb]. rewrite Hrest. unfold wellEnded, noLF in *.
           cbn [fst snd forallb endsWithCR] in *. rewrite C10, Hn.
           cbn [negb andb]. rewrite He. reflexivity.
        -- rewrite <- Hj. destruct rest; reflexivity.
Qed.

(** X19: reading the lines of a file.  A text made of lines without line
    feed, each but the last followed by CR LF or by a bare LF, is read back
    as exactly those lines, the carriage return of every CR LF dropped with
    the line feed; every text is made of such lines in this way.  No line
    read holds a line feed, and there is one line more than there are line
    feeds. *)
Theorem readLines_spec raw :
  (forall ls,
     ls <> [] -> forallb wellEnded ls = true -> joinEnds ls = raw ->
     readLines raw = map fst ls) /\
  (exists ls, ls <> [] /\ forallb wellEnded ls = true /\ joinEnds ls = raw) /\
  forallb noLF (readLines raw) = true /\
  length (readLines raw) = S (countLF raw).
Proof.
  split; [| split; [apply joinEnds_complete | split]].
  - intros ls Hne Hw <-. unfold readLines.
    rewrite replaceCRLF_joinEnds by exact Hw.
    apply splitLF_joinLF.
    + destruct ls; [congruence | discriminate].
    + clear Hne. induction ls as [| p ls IH]; [reflexivity |].
      cbn [forallb] in Hw. apply andb_true_iff in Hw. destruct Hw as [Hp Hls].
      cbn [map forallb]. rewrite (IH Hls), andb_true_r.
      unfold wellEnded in Hp. apply andb_true_iff in Hp. apply Hp.
  - unfold readLines. destruct (splitLF_spec (replaceCRLF raw)) as (_ & H & _).
    apply forallb_forall. rewrite Forall_forall in H. intros l Hl.
    apply H. apply list_elem_of_In. exact Hl.
  - apply readLines_length.
Qed.

Lemma readLines_spec_witness :
  readLines (js "a" ++ [13%N; 10%N] ++ js "b" ++ [13%N; 13%N; 10%N] ++ js "c"
             ++ [10%N] ++ [13%N])
  = [js "a"; js "b" ++ [13%N]; js "c"; [13%N]].
Proof.
  apply (proj1 (readLines_spec _)
           [(js "a", true); (js "b" ++ [13%N], true); (js "c", false);
            ([13%N], true)]).
  - discriminate.
  - vm_compute. reflexivity.
  - vm_compute. reflexivity.
Defined.

Lemma parseChat_perm tz fm fd lines :
  Permutation (msgs (parseChat tz fm fd lines))
    (parsedLines tz (detectDateOrder fm fd lines) lines).
Proof.
  unfold parseChat. cbv zeta. cbn [msgs].
  rewrite parseStep_fold by (simpl; lia). cbn [fst app].
  apply sortByTs_stable.
Qed.

Lemma parsedLines_length tz order lines :
  (length (parsedLines tz order lines) <= length lines)%nat.
Proof.
  induction lines as [| l lines IH]; [reflexivity |].
  assert (H : parsedLines tz order (l :: lines)
              = match parseLine tz (normalizeLine l) order with
                | Some msg => msg :: parsedLines tz order lines
                | None => parsedLines tz order lines
                end) by reflexivity.
  rewrite H. destruct (parseLine tz (normalizeLine l) order); simpl; lia.
Qed.

Lemma parseChat_minutes tz fm fd lines :
  Forall (fun m => (ts m + tz) mod msPerMinute = 0) (msgs (parseChat tz fm fd lines)).
Proof.
  rewrite Forall_forall. intros m Hm.
  rewrite (parseChat_perm tz fm fd lines) in Hm.
  unfold parsedLines in Hm. apply list_elem_of_omap in Hm.
  destruct Hm as (raw & _ & Hp). apply parseLine_minute in Hp. exact Hp.
Qed.

Lemma overallMs_minutes sessions tz :
  Forall (fun s => (start s + tz) mod msPerMinute = 0 /\
                   (end_ s + tz) mod msPerMinute = 0) sessions ->
  overallMs sessions mod msPerMinute = 0.
Proof.
  induction 1 as [| s rest [Hs He] _ IH]; [reflexivity |].
  rewrite overallMs_cons. unfold msPerMinute in *.
  Z.to_euclidean_division_equations. lia.
Qed.

(** X20: the whole run, on any text.  The sessions of the parsed chat start
    no later than they end, at dates of the years 100 to 9999; their message
    counts add up to the number of parsed messages, at most one per line;
    the aggregation ends; the daily and the monthly durations each add up to
    the overall duration, which is a whole number of minutes; the monthly
    counts add up to the daily ones, and these to at least the number of
    sessions. *)
Theorem report_of_chat tz fm fd gapMin cb raw :
  Z.abs tz <= msPerDay ->
  let chat := parseChat tz fm fd (readLines raw) in
  let sessions := groupSessions (msgs chat) gapMin in
  Forall (validSession tz) sessions /\
  (length (msgs chat) <= S (countLF raw))%nat /\
  totalCount sessions = Z.of_nat (length (msgs chat)) /\
  overallMs sessions mod msPerMinute = 0 /\
  exists agg,
    aggregate tz cb sessions = Some agg /\
    durTotal (perDayDur agg) = Some (overallMs sessions) /\
    durTotal (perMonthDur agg) = Some (overallMs sessions) /\
    sumCounts (perMonthCount agg) = sumCounts (perDayCount agg) /\
    Z.of_nat (length sessions) <= sumCounts (perDayCount agg).
Proof.
  intros Htz. cbv zeta.
  set (lines := readLines raw).
  pose proof (parsed_sessions tz fm fd lines gapMin) as Hval.
  destruct (parseChat_msgs tz fm fd lines) as [Hch _].
  pose proof (parseChat_minutes tz fm fd lines) as Hmin.
  pose proof (parseChat_perm tz fm fd lines) as Hperm.
  set (ms := msgs (parseChat tz fm fd lines)) in *.
  split; [exact Hval |]. split; [| split; [| split]].
  - rewrite (Permutation_length Hperm).
    pose proof (parsedLines_length tz (detectDateOrder fm fd lines) lines) as L.
    unfold lines in *. rewrite readLines_length in L. exact L.
  - destruct ms as [| m0 rest]; [reflexivity |]. unfold groupSessions.
    destruct (groupLoop_invariant (gapMin * 60 * 1000) m0 rest (newSession m0))
      as (Ht & _); simpl; try lia; [exact Hch |].
    rewrite Ht. simpl. lia.
  - apply (overallMs_minutes _ tz).
    destruct ms as [| m0 rest]; [constructor |]. unfold groupSessions.
    destruct (groupLoop_invariant (gapMin * 60 * 1000) m0 rest (newSession m0))
      as (_ & _ & Hst & _); simpl; try lia; [exact Hch |].
    pose proof (groupLoop_ends (gapMin * 60 * 1000) m0 rest (newSession m0)) as He.
    assert (Hts : forall t, In t (map ts (m0 :: rest)) -> (t + tz) mod msPerMinute = 0).
    { intros t Ht. apply in_map_iff in Ht. destruct Ht as (m & <- & Hm).
      rewrite Forall_forall in Hmin. apply Hmin. apply list_elem_of_In. exact Hm. }
    rewrite Forall_forall in *. intros s Hin.
    specialize (Hst s Hin). specialize (He s Hin). simpl in Hst, He.
    split; apply Hts; simpl.
    + destruct Hst as [-> | H]; auto.
    + destruct He as [-> | H]; auto.
  - unfold aggregate.
    destruct (aggregateFrom_total tz cb (groupSessions ms gapMin) noAggregates)
      as [agg Ha].
    exists agg. split; [exact Ha |].
    destruct (aggregateFrom_durations tz cb _ noAggregates agg 0 0 Htz Hval)
      as [H1 H2]; try reflexivity; [exact Ha |].
    rewrite H1, H2. split; [reflexivity |]. split; [reflexivity |].
    pose proof (aggregateFrom_month_counts tz cb _ noAggregates agg Ha) as Hm.
    change (sumCounts (perMonthCount noAggregates)) with 0 in Hm.
    change (sumCounts (perDayCount noAggregates)) with 0 in Hm.
    split; [lia |].
    destruct cb.
    + apply aggregateFrom_start_sum in Ha.
      change (sumCounts (perDayCount noAggregates)) with 0 in Ha. lia.
    + apply aggregateFrom_presence_sum in Ha.
      * change (sumCounts (perDayCount noAggregates)) with 0 in Ha. lia.
      * eapply Forall_impl; [exact Hval |]. intros s Hs. apply Hs.
Qed.

Lemma report_of_chat_witness :
  exists agg,
    aggregate sampleZone CountStart
      (groupSessions
         (msgs (parseChat sampleZone false false
                  (readLines (js "1/1/25, 11:58 PM - A: x"
                              ++ [13%N; 10%N] ++ js "1/2/25, 12:05 AM - A: y"))))
         10) = Some agg /\
    durTotal (perDayDur agg) = Some 420000.
Proof.
  destruct (report_of_chat sampleZone false false 10 CountStart
              (js "1/1/25, 11:58 PM - A: x"
               ++ [13%N; 10%N] ++ js "1/2/25, 12:05 AM - A: y"))
    as (_ & _ & _ & _ & agg & H1 & H2 & _).
  - unfold sampleZone, msPerDay. lia.
  - exists agg. split; [exact H1 |]. rewrite H2. vm_compute. reflexivity.
Defined.
